(** * Notion page scraper: the request handler and its in-page extractor

    The repository holds three revisions of one Cloudflare Worker
    ([src/index.ts] and two unnamed earlier revisions).  Each exports a
    single [fetch] handler that validates the request, drives a headless
    browser through the Playwright API, expands collapsed toggles and
    extracts the text of the page.

    The development embeds the three handlers side by side:
    - strings are JavaScript strings, i.e. lists of UTF-16 code units;
    - the DOM is a finite tree of elements and text nodes, addressed by
      child-index paths so that node identity is available;
    - the browser is an oracle: the outcome of each Playwright call is an
      arbitrary function of the calls made so far, and every call is
      recorded in a trace;
    - the handler is written in a state-and-exception monad over that
      oracle. *)

From Stdlib Require Import ZArith NArith QArith Ascii String List Lia.
From stdpp Require Import base decidable option list countable gmap.

#[global] Set Warnings "-register-all".

Local Open Scope nat_scope.

(** ** JavaScript strings *)

Module Js.

(** A string is a sequence of UTF-16 code units. *)
Definition str := list N.

(** An ASCII literal of the source. *)
Definition lit (s : String.string) : str :=
  List.map N_of_ascii (list_ascii_of_string s).

Definition eqb (a b : str) : bool := bool_decide (a = b).

(** [s.startsWith(p)] on code units. *)
Fixpoint startsWith (s p : str) {struct p} : bool :=
  match p with
  | [] => true
  | c :: p' =>
      match s with
      | [] => false
      | d :: s' => N.eqb c d && startsWith s' p'
      end
  end.

(** [s.includes(p)]: [p] occurs at some position of [s]. *)
Fixpoint includes (s p : str) : bool :=
  startsWith s p ||
  match s with
  | [] => false
  | _ :: s' => includes s' p
  end.

(** WhiteSpace and LineTerminator code points of ECMAScript, the ones
    [String.prototype.trim] strips. *)
Definition isWhite (c : N) : bool :=
  (N.leb 9 c && N.leb c 13)
  || N.eqb c 32 || N.eqb c 160 || N.eqb c 5760
  || (N.leb 8192 c && N.leb c 8202)
  || N.eqb c 8232 || N.eqb c 8233 || N.eqb c 8239 || N.eqb c 8287
  || N.eqb c 12288 || N.eqb c 65279.

Fixpoint trimStart (s : str) : str :=
  match s with
  | [] => []
  | c :: s' => if isWhite c then trimStart s' else s
  end.

Definition trimEnd (s : str) : str := rev (trimStart (rev s)).

Definition trim (s : str) : str := trimEnd (trimStart s).

(** [parts.join(sep)]. *)
Fixpoint join (sep : str) (parts : list str) : str :=
  match parts with
  | [] => []
  | [p] => p
  | p :: ps => p ++ sep ++ join sep ps
  end.

(** Truthiness of a string: the empty string is falsy. *)
Definition truthy (s : str) : bool :=
  match s with [] => false | _ :: _ => true end.

(** Split at ASCII white space, as the DOM does for the [class]
    attribute (space, tab, LF, FF, CR). *)
Definition isAsciiSpace (c : N) : bool :=
  N.eqb c 32 || N.eqb c 9 || N.eqb c 10 || N.eqb c 12 || N.eqb c 13.

Fixpoint tokensAux (cur : str) (s : str) : list str :=
  match s with
  | [] => match cur with [] => [] | _ => [rev cur] end
  | c :: s' =>
      if isAsciiSpace c
      then match cur with
           | [] => tokensAux [] s'
           | _ => rev cur :: tokensAux [] s'
           end
      else tokensAux (c :: cur) s'
  end.

Definition tokens (s : str) : list str := tokensAux [] s.

End Js.

Notation "'js' s" := (Js.lit s%string) (at level 5, only parsing).

(** ** Request validation, as written in the three revisions *)

Definition markerSo : Js.str := js"notion.so".
Definition markerSite : Js.str := js"notion.site".

Module HostCheck.

(** [src/index.ts] and the de-duplicating revision, line 52:
    [!notionUrl.includes('notion.so') && !notionUrl.includes('notion.site')]. *)
Definition rejectedAnd (notionUrl : Js.str) : bool :=
  negb (Js.includes notionUrl markerSo) && negb (Js.includes notionUrl markerSite).

(** The click-first revision, line 52:
    [!notionUrl.includes('notion.so') || !notionUrl.includes('notion.site')]. *)
Definition rejectedOr (notionUrl : Js.str) : bool :=
  negb (Js.includes notionUrl markerSo) || negb (Js.includes notionUrl markerSite).

End HostCheck.

(** ** The DOM seen by the in-page scripts *)

Module Dom.

(** Elements and text nodes.  Comment nodes carry no text content and no
    element, so they are left out.  [tag] is the lower-case local name. *)
Inductive node : Type :=
| Text (data : Js.str)
| Elem (tag : Js.str) (attrs : list (Js.str * Js.str)) (children : list node).

Definition isElem (n : node) : bool :=
  match n with Text _ => false | Elem _ _ _ => true end.

Definition children (n : node) : list node :=
  match n with Text _ => [] | Elem _ _ cs => cs end.

(** [el.getAttribute(name)]: the first attribute of that name. *)
Fixpoint lookupAttr (name : Js.str) (attrs : list (Js.str * Js.str)) : option Js.str :=
  match attrs with
  | [] => None
  | (k, v) :: rest => if Js.eqb k name then Some v else lookupAttr name rest
  end.

Definition getAttribute (n : node) (name : Js.str) : option Js.str :=
  match n with
  | Text _ => None
  | Elem _ attrs _ => lookupAttr name attrs
  end.

(** [node.textContent]: the text of all descendants, in document order. *)
Fixpoint textContent (n : node) : Js.str :=
  match n with
  | Text d => d
  | Elem _ _ cs => List.concat (List.map textContent cs)
  end.

(** *** Selectors

    The selectors of the source are parsed by hand into this syntax:
    a selector list is a comma-separated list of complex selectors, a
    complex selector is a chain of compound selectors joined by the
    descendant combinator (outermost first), and a compound selector is
    a conjunction of simple ones. *)
Inductive simple : Type :=
| Tag (name : Js.str)                  (* img *)
| Class (name : Js.str)                (* .layout *)
| HasAttr (name : Js.str)              (* [data-block-id] *)
| AttrIs (name value : Js.str)         (* [role="button"] *)
| AttrContains (name value : Js.str).  (* [class*="image"] *)

Definition compound := list simple.
Definition complex := list compound.
Definition selector := list complex.

Definition matchSimple (n : node) (s : simple) : bool :=
  match n with
  | Text _ => false
  | Elem tag attrs _ =>
      match s with
      | Tag name => Js.eqb tag name
      | Class name =>
          match lookupAttr (js"class") attrs with
          | Some v => existsb (Js.eqb name) (Js.tokens v)
          | None => false
          end
      | HasAttr name =>
          match lookupAttr name attrs with Some _ => true | None => false end
      | AttrIs name value =>
          match lookupAttr name attrs with
          | Some v => Js.eqb v value
          | None => false
          end
      | AttrContains name value =>
          match lookupAttr name attrs with
          | Some v => Js.truthy value && Js.includes v value
          | None => false
          end
      end
  end.

Definition matchCompound (n : node) (c : compound) : bool :=
  forallb (matchSimple n) c.

(** The remaining compounds (innermost first) are looked for among the
    ancestors (nearest first). *)
Fixpoint matchAncestors (anc : list node) (cs : list compound) : bool :=
  match cs with
  | [] => true
  | c :: cs' =>
      match anc with
      | [] => false
      | a :: anc' =>
          if matchCompound a c then matchAncestors anc' cs'
          else matchAncestors anc' cs
      end
  end.

Definition matchComplex (anc : list node) (n : node) (cx : complex) : bool :=
  match rev cx with
  | [] => false
  | subject :: outer => matchCompound n subject && matchAncestors anc outer
  end.

Definition matchSelector (anc : list node) (n : node) (sel : selector) : bool :=
  existsb (matchComplex anc n) sel.

(** *** Element handles

    An element of the live document is known by the path of child
    indices leading to it from the document element; two handles denote
    the same element when their paths agree.  A handle also carries the
    element's ancestors, nearest first, each with its own path. *)
Record handle : Type := Handle {
  hpath : list nat;
  hanc : list (list nat * node);
  hnode : node
}.

Definition sameElement (a b : handle) : bool :=
  bool_decide (hpath a = hpath b).

Definition matches (sel : selector) (h : handle) : bool :=
  matchSelector (List.map snd (hanc h)) (hnode h) sel.

(** The elements of the subtree of [n], [n] included, in document order. *)
Fixpoint walk (anc : list (list nat * node)) (p : list nat) (n : node)
  {struct n} : list handle :=
  match n with
  | Text _ => []
  | Elem _ _ cs =>
      Handle p anc n ::
      (fix go (i : nat) (cs : list node) {struct cs} : list handle :=
         match cs with
         | [] => []
         | c :: cs' => walk ((p, n) :: anc) (p ++ [i]) c ++ go (S i) cs'
         end) 0 cs
  end.

Fixpoint walkChildren (anc : list (list nat * node)) (p : list nat)
  (i : nat) (cs : list node) {struct cs} : list handle :=
  match cs with
  | [] => []
  | c :: cs' => walk anc (p ++ [i]) c ++ walkChildren anc p (S i) cs'
  end.

(** The proper descendants of an element. *)
Definition descendants (h : handle) : list handle :=
  walkChildren ((hpath h, hnode h) :: hanc h) (hpath h) 0 (children (hnode h)).

(** A document is its document element. *)
Definition document := node.

Definition elements (doc : document) : list handle := walk [] [] doc.

(** [document.querySelectorAll(sel)] and [document.querySelector(sel)]. *)
Definition docQuerySelectorAll (doc : document) (sel : selector) : list handle :=
  List.filter (matches sel) (elements doc).

Definition docQuerySelector (doc : document) (sel : selector) : option handle :=
  List.find (matches sel) (elements doc).

(** [el.querySelectorAll(sel)] and [el.querySelector(sel)]: proper
    descendants only. *)
Definition querySelectorAll (h : handle) (sel : selector) : list handle :=
  List.filter (matches sel) (descendants h).

Definition querySelector (h : handle) (sel : selector) : option handle :=
  List.find (matches sel) (descendants h).

(** [el.parentElement?.closest(sel)]: the nearest proper ancestor that
    matches. *)
Fixpoint closestIn (anc : list (list nat * node)) (sel : selector) : option handle :=
  match anc with
  | [] => None
  | (q, m) :: anc' =>
      if matchSelector (List.map snd anc') m sel
      then Some (Handle q anc' m)
      else closestIn anc' sel
  end.

Definition parentClosest (h : handle) (sel : selector) : option handle :=
  closestIn (hanc h) sel.

(** [el.cloneNode(true)]: a detached copy of the subtree. *)
Definition cloneNode (h : handle) : node := hnode h.

(** [clone.querySelectorAll(sel).forEach(el => el.remove())] on a
    detached clone: every proper descendant that matches is taken out
    with its subtree.  The node list is static, so matching is decided
    on the tree as it was before the first removal; [anc] holds the
    ancestors inside the clone. *)
Fixpoint removeAll (sel : selector) (anc : list node) (n : node) {struct n} : node :=
  match n with
  | Text _ => n
  | Elem tag attrs cs =>
      Elem tag attrs
        ((fix go (cs : list node) {struct cs} : list node :=
            match cs with
            | [] => []
            | c :: cs' =>
                if isElem c && matchSelector (n :: anc) c sel
                then go cs'
                else removeAll sel (n :: anc) c :: go cs'
            end) cs)
  end.

Fixpoint removeChildren (sel : selector) (anc : list node) (cs : list node)
  {struct cs} : list node :=
  match cs with
  | [] => []
  | c :: cs' =>
      if isElem c && matchSelector anc c sel
      then removeChildren sel anc cs'
      else removeAll sel anc c :: removeChildren sel anc cs'
  end.

End Dom.

(** ** The in-page extraction script *)

Record ExtractionResult : Type := MkExtraction {
  title : Js.str;
  content : Js.str
}.

Module Extractor.

Import Dom.

(** ['.notion-page-content .notion-header__title, [data-content-editable-leaf="true"]'] *)
Definition titleSelector : selector :=
  [ [ [Class (js"notion-page-content")]; [Class (js"notion-header__title")] ];
    [ [AttrIs (js"data-content-editable-leaf") (js"true")] ] ].

(** ['[data-content-editable-root="true"]'] *)
Definition contentRootSelector : selector :=
  [ [ [AttrIs (js"data-content-editable-root") (js"true")] ] ].

(** ['[data-block-id]'] *)
Definition blockSelector : selector := [ [ [HasAttr (js"data-block-id")] ] ].

(** ['img'], ['svg'] and the like. *)
Definition tagSelector (name : Js.str) : selector := [ [ [Tag name] ] ].

(** ['[class*="image"]'] and the like. *)
Definition classContains (value : Js.str) : selector :=
  [ [ [AttrContains (js"class") value] ] ].

(** ['img, svg, video, audio, iframe'] *)
Definition mediaSelector : selector :=
  [ [ [Tag (js"img")] ]; [ [Tag (js"svg")] ]; [ [Tag (js"video")] ];
    [ [Tag (js"audio")] ]; [ [Tag (js"iframe")] ] ].

(** The separator ['\n\n']. *)
Definition blankLine : Js.str := [10; 10]%N.

Definition Untitled : Js.str := js"Untitled".

(** [titleElement?.textContent?.trim() || 'Untitled'] *)
Definition computeTitle (doc : document) : Js.str :=
  match docQuerySelector doc titleSelector with
  | None => Untitled
  | Some titleElement =>
      let t := Js.trim (textContent (hnode titleElement)) in
      if Js.truthy t then t else Untitled
  end.

Definition contentRoot (doc : document) : option handle :=
  docQuerySelector doc contentRootSelector.

Definition allBlocksOf (root : handle) : list handle :=
  querySelectorAll root blockSelector.

(** [text && text.length > 0] *)
Definition keepText (text : Js.str) : bool :=
  Js.truthy text && Nat.ltb 0 (length text).

End Extractor.

(** *** [src/index.ts]: top-level blocks, media blocks skipped *)

Module ExtractTopLevel.

Import Dom Extractor.

(** The filter of lines 143-148. *)
Definition isTopLevel (allBlocks : list handle) (block : handle) : bool :=
  match parentClosest block blockSelector with
  | None => true
  | Some parent => negb (existsb (sameElement parent) allBlocks)
  end.

Definition topLevelBlocks (allBlocks : list handle) : list handle :=
  List.filter (isTopLevel allBlocks) allBlocks.

Definition found (r : option handle) : bool :=
  match r with Some _ => true | None => false end.

(** The condition of lines 156-163. *)
Definition hasSkipMarker (blockElement : handle) : bool :=
  found (querySelector blockElement (tagSelector (js"img")))
  || found (querySelector blockElement (classContains (js"image")))
  || found (querySelector blockElement (classContains (js"embed")))
  || found (querySelector blockElement (classContains (js"video")))
  || found (querySelector blockElement (classContains (js"file")))
  || found (querySelector blockElement (tagSelector (js"svg"))).

(** The text a block yields once it is not skipped (lines 168-174). *)
Definition blockText (blockElement : handle) : Js.str :=
  let clone := cloneNode blockElement in
  let clone := removeAll mediaSelector [] clone in
  Js.trim (textContent clone).

(** One turn of [topLevelBlocks.forEach]. *)
Definition visit (contentParts : list Js.str) (block : handle) : list Js.str :=
  if hasSkipMarker block then contentParts
  else
    let text := blockText block in
    if keepText text then contentParts ++ [text] else contentParts.

Definition collect (blocks : list handle) : list Js.str :=
  fold_left visit blocks [].

Definition contentParts (root : handle) : list Js.str :=
  collect (topLevelBlocks (allBlocksOf root)).

Definition extract (doc : document) : ExtractionResult :=
  let title := computeTitle doc in
  match contentRoot doc with
  | None => MkExtraction title []
  | Some root => MkExtraction title (Js.join blankLine (contentParts root))
  end.

End ExtractTopLevel.

(** *** The de-duplicating revision: direct text of every block *)

Module ExtractDirect.

Import Dom Extractor.

(** [getDirectText], lines 145-155. *)
Definition getDirectText (element : handle) : Js.str :=
  let clone := cloneNode element in
  let clone := removeAll blockSelector [] clone in
  let clone := removeAll mediaSelector [] clone in
  let t := Js.trim (textContent clone) in
  if Js.truthy t then t else [].

(** The loop state: [contentParts] and the set [seenTexts]. *)
Definition visit (st : list Js.str * gset Js.str) (block : handle)
  : list Js.str * gset Js.str :=
  let '(contentParts, seenTexts) := st in
  let text := getDirectText block in
  if Nat.ltb 0 (length text) && negb (bool_decide (text ∈ seenTexts))
  then (contentParts ++ [text], {[ text ]} ∪ seenTexts)
  else st.

Definition collect (blocks : list handle) : list Js.str * gset Js.str :=
  fold_left visit blocks ([], ∅).

Definition contentParts (root : handle) : list Js.str :=
  fst (collect (allBlocksOf root)).

Definition extract (doc : document) : ExtractionResult :=
  let title := computeTitle doc in
  match contentRoot doc with
  | None => MkExtraction title []
  | Some root => MkExtraction title (Js.join blankLine (contentParts root))
  end.

End ExtractDirect.

(** *** The click-first revision: full text of every block *)

Module ExtractNaive.

Import Dom Extractor.

(** [block.textContent?.trim()] *)
Definition blockText (block : handle) : Js.str :=
  Js.trim (textContent (hnode block)).

Definition visit (contentParts : list Js.str) (block : handle) : list Js.str :=
  let text := blockText block in
  if keepText text then contentParts ++ [text] else contentParts.

Definition collect (blocks : list handle) : list Js.str :=
  fold_left visit blocks [].

Definition contentParts (root : handle) : list Js.str :=
  collect (allBlocksOf root).

Definition extract (doc : document) : ExtractionResult :=
  let title := computeTitle doc in
  match contentRoot doc with
  | None => MkExtraction title []
  | Some root => MkExtraction title (Js.join blankLine (contentParts root))
  end.

End ExtractNaive.

(** ** The browser as an oracle *)

(** What a [catch] clause may receive: an [Error] with its message, or
    any other value. *)
Inductive thrown : Type :=
| ErrorObject (message : Js.str)
| NonError.

(** The scripts passed to [page.evaluate]. *)
Inductive script : Type :=
| ClickAllCollapsed
| GetCollapsedCount
| ClickFirstCollapsed
| ExtractContent.

(** The calls the handler makes on the outside world. *)
Inductive call : Type :=
| Launch
| NewPage
| Goto (url waitUntil : Js.str) (timeout : Z)
| WaitForSelector (selector : Js.str) (timeout : Z)
| WaitForTimeout (ms : Z)
| Evaluate (s : script)
| ConsoleLog
| Close.

#[global] Instance script_eq_dec : EqDecision script.
Proof. solve_decision. Defined.

#[global] Instance call_eq_dec : EqDecision call.
Proof. solve_decision. Defined.

(** One element returned by [document.querySelectorAll(toggleSelector)],
    with what the click loop reads from it when it reaches it. *)
Record toggle : Type := MkToggle {
  isConnected : bool;
  rectWidth : Q;
  rectHeight : Q;
  rectBottom : Q;
  rectRight : Q;
  ariaDisabled : option Js.str
}.

(** The behaviour of the browser and of the page: each answer may depend
    on every call made before it.  [None] means the promise resolves. *)
Record world : Type := MkWorld {
  launchFails : list call -> option thrown;
  newPageFails : list call -> option thrown;
  gotoFails : list call -> option thrown;
  waitForSelectorFails : list call -> option thrown;
  waitForTimeoutFails : list call -> option thrown;
  closeFails : list call -> option thrown;
  togglesFound : list call -> thrown + list toggle;
  documentSeen : list call -> thrown + Dom.document
}.

(** The handler's state: the calls made so far, oldest first, and whether
    the variable [browser] has been assigned. *)
Record state : Type := MkState {
  calls : list call;
  browser : bool
}.

Definition initial : state := MkState [] false.

Inductive result (A : Type) : Type :=
| Done (a : A)
| Raise (e : thrown)
| OutOfFuel.

Arguments Done {A} a.
Arguments Raise {A} e.
Arguments OutOfFuel {A}.

Definition M (A : Type) : Type := world -> state -> result A * state.

Definition ret {A} (a : A) : M A := fun _ st => (Done a, st).

Definition bind {A B} (m : M A) (k : A -> M B) : M B :=
  fun w st =>
    match m w st with
    | (Done a, st') => k a w st'
    | (Raise e, st') => (Raise e, st')
    | (OutOfFuel, st') => (OutOfFuel, st')
    end.

Notation "'do' x <- m ;; k" := (bind m (fun x => k))
  (at level 10, x name, m at level 99, k at level 200, only parsing).

(** [try { m } catch (error) { handler error }] *)
Definition tryCatch {A} (m : M A) (handler : thrown -> M A) : M A :=
  fun w st =>
    match m w st with
    | (Raise e, st') => handler e w st'
    | r => r
    end.

Definition record (c : call) (st : state) : state :=
  MkState (calls st ++ [c]) (browser st).

(** An awaited call that yields no value. *)
Definition perform (c : call) (fails : world -> list call -> option thrown) : M unit :=
  fun w st =>
    match fails w (calls st) with
    | None => (Done tt, record c st)
    | Some e => (Raise e, record c st)
    end.

(** An awaited [page.evaluate]: the script runs on what the page shows. *)
Definition evaluate {D A} (s : script) (sees : world -> list call -> thrown + D)
  (run : D -> A) : M A :=
  fun w st =>
    match sees w (calls st) with
    | inr d => (Done (run d), record (Evaluate s) st)
    | inl e => (Raise e, record (Evaluate s) st)
    end.

(** [browser = await launch(env.MYBROWSER)]: assigned only on success. *)
Definition launch : M unit :=
  fun w st =>
    match launchFails w (calls st) with
    | None => (Done tt, MkState (calls st ++ [Launch]) true)
    | Some e => (Raise e, record Launch st)
    end.

Definition newPage : M unit := perform NewPage newPageFails.
Definition goto (url waitUntil : Js.str) (timeout : Z) : M unit :=
  perform (Goto url waitUntil timeout) gotoFails.
Definition waitForSelector (sel : Js.str) (timeout : Z) : M unit :=
  perform (WaitForSelector sel timeout) waitForSelectorFails.
Definition waitForTimeout (ms : Z) : M unit :=
  perform (WaitForTimeout ms) waitForTimeoutFails.
Definition close : M unit := perform Close closeFails.
Definition consoleLog : M unit := fun _ st => (Done tt, record ConsoleLog st).
Definition browserAssigned : M bool := fun _ st => (Done (browser st), st).

(** [while (cond) { body }], where the body may [break]. *)
Inductive step (S : Type) : Type :=
| Break (s : S)
| Continue (s : S).

Arguments Break {S} s.
Arguments Continue {S} s.

Fixpoint while {S} (fuel : nat) (cond : S -> bool) (body : S -> M (step S))
  (s : S) : M S :=
  match fuel with
  | O => fun _ st => (OutOfFuel, st)
  | Datatypes.S fuel' =>
      if cond s
      then do r <- body s ;;
           match r with
           | Break s' => ret s'
           | Continue s' => while fuel' cond body s'
           end
      else ret s
  end.

(** ** Responses *)

Inductive json : Type :=
| JString (s : Js.str)
| JObject (fields : list (Js.str * json)).

(** The body is kept as the value handed to [JSON.stringify]; [None] is
    the [null] body. *)
Record response : Type := MkResponse {
  status : Z;
  headers : list (Js.str * Js.str);
  body : option json
}.

Definition CORS_HEADERS : list (Js.str * Js.str) :=
  [ (js"Access-Control-Allow-Origin", js"*");
    (js"Access-Control-Allow-Methods", js"GET, POST, OPTIONS");
    (js"Access-Control-Allow-Headers", js"Content-Type, Authorization") ].

Definition jsonHeaders : list (Js.str * Js.str) :=
  (js"Content-Type", js"application/json") :: CORS_HEADERS.

Definition errorResponse (code : Z) (message : Js.str) : response :=
  MkResponse code jsonHeaders (Some (JObject [(js"error", JString message)])).

Definition notFound : response :=
  errorResponse 404 (js"Use /scrape endpoint with ?url=<notion-url>").

(** [new Response(null, { headers: CORS_HEADERS })]: the status defaults
    to 200. *)
Definition preflight : response := MkResponse 200 CORS_HEADERS None.

Definition missingUrl : response :=
  errorResponse 400 (Js.lit ("Missing " ++ String (ascii_of_nat 34) "url"
                               ++ String (ascii_of_nat 34) " query parameter")).

Definition invalidUrl : response :=
  errorResponse 400 (js"Invalid Notion URL. Must be from notion.so or notion.site").

Definition success (extractedData : ExtractionResult) : response :=
  MkResponse 200 jsonHeaders
    (Some (JObject [ (js"title", JString (title extractedData));
                     (js"content", JString (content extractedData)) ])).

(** [error instanceof Error ? error.message : 'Unknown error occurred'] *)
Definition errorMessage (error : thrown) : Js.str :=
  match error with
  | ErrorObject message => message
  | NonError => js"Unknown error occurred"
  end.

Definition failure (error : thrown) : response :=
  MkResponse 500 jsonHeaders
    (Some (JObject [ (js"error", JString (js"Failed to scrape Notion page"));
                     (js"details", JString (errorMessage error)) ])).

(** ** The handler *)

(** The request, after [new URL(request.url)]: the path, the method and
    [url.searchParams.get('url')]. *)
Record request : Type := MkRequest {
  pathname : Js.str;
  method : Js.str;
  urlParam : option Js.str
}.

(** The [catch] clause of the handler (the same in the three revisions). *)
Definition onFault (error : thrown) : M response :=
  do assigned <- browserAssigned ;;
  do _ <- (if assigned then close else ret tt) ;;
  ret (failure error).

(** The frame shared by the three revisions: lines 17-66 and the final
    [catch].  [hostRejected] is the test of line 52 and [tryBlock] the
    body of the [try]. *)
Definition handler (hostRejected : Js.str -> bool)
  (tryBlock : Js.str -> M response) (req : request) : M response :=
  if negb (Js.eqb (pathname req) (js"/scrape")) then ret notFound
  else if Js.eqb (method req) (js"OPTIONS") then ret preflight
  else
    match urlParam req with
    | None => ret missingUrl
    | Some notionUrl =>
        if negb (Js.truthy notionUrl) then ret missingUrl
        else if hostRejected notionUrl then ret invalidUrl
        else tryCatch (tryBlock notionUrl) onFault
    end.

(** The toggle selector and the marker waited for. *)
Definition toggleSelector : Js.str :=
  Js.lit (".layout [role=" ++ String (ascii_of_nat 34) "button" ++ String (ascii_of_nat 34) "][aria-expanded="
          ++ String (ascii_of_nat 34) "false" ++ String (ascii_of_nat 34) "]").

Definition contentRootMarker : Js.str :=
  Js.lit ("[data-content-editable-root=" ++ String (ascii_of_nat 34) "true"
          ++ String (ascii_of_nat 34) "]").

(** [rect.width > 1 && rect.height > 1 && rect.bottom > 0 && rect.right > 0] *)
Definition Qgtb (a b : Q) : bool := negb (Qle_bool a b).

Definition visible (node : toggle) : bool :=
  Qgtb (rectWidth node) 1 && Qgtb (rectHeight node) 1
  && Qgtb (rectBottom node) 0 && Qgtb (rectRight node) 0.

(** [node.getAttribute('aria-disabled') === 'true'] *)
Definition disabled (node : toggle) : bool :=
  match ariaDisabled node with
  | Some v => Js.eqb v (js"true")
  | None => false
  end.

(** The body of the [for] loop of the click scripts; [true] when the node
    is clicked. *)
Definition clicked (node : toggle) : bool :=
  if negb (isConnected node) then false
  else if negb (visible node) then false
  else if disabled node then false
  else true.

(** [clickedCount] of [clickAllCollapsed]: the nodes clicked by one run of
    the script. *)
Definition countClicked (nodes : list toggle) : Z :=
  fold_left (fun clickedCount node =>
               if clicked node then (clickedCount + 1)%Z else clickedCount)
            nodes 0%Z.

(** *** [src/index.ts] *)

Module Main.

Definition hostRejected : Js.str -> bool := HostCheck.rejectedAnd.

Definition maxIterations : Z := 20.

Definition clickAllCollapsed : M Z :=
  evaluate ClickAllCollapsed togglesFound countClicked.

(** The loop state is [(iteration, lastClickCount)]. *)
Definition loopCond (s : Z * Z) : bool := (fst s <? maxIterations)%Z.

Definition loopBody (s : Z * Z) : M (step (Z * Z)) :=
  let '(iteration, lastClickCount) := s in
  do clickedCount <- clickAllCollapsed ;;
  if (clickedCount =? 0)%Z || (clickedCount =? lastClickCount)%Z
  then ret (Break s)
  else
    do _ <- waitForTimeout 100 ;;
    ret (Continue ((iteration + 1)%Z, clickedCount)).

Definition expandToggles (fuel : nat) : M unit :=
  tryCatch
    (do _ <- while fuel loopCond loopBody (0%Z, (-1)%Z) ;; ret tt)
    (fun _ => consoleLog).

Definition tryBlock (fuel : nat) (notionUrl : Js.str) : M response :=
  do _ <- launch ;;
  do _ <- newPage ;;
  do _ <- goto notionUrl (js"domcontentloaded") 60000 ;;
  do _ <- waitForSelector contentRootMarker 5000 ;;
  do _ <- expandToggles fuel ;;
  do _ <- waitForTimeout 500 ;;
  do extractedData <- evaluate ExtractContent documentSeen ExtractTopLevel.extract ;;
  do _ <- close ;;
  ret (success extractedData).

(** The loop is run with one unit of fuel more than its cap; the theorems
    on [expandToggles] show that this never runs out. *)
Definition loopFuel : nat := S (Z.to_nat maxIterations).

Definition fetch (req : request) : M response :=
  handler hostRejected (tryBlock loopFuel) req.

End Main.

(** *** The de-duplicating revision *)

Module Dedup.

Definition hostRejected : Js.str -> bool := HostCheck.rejectedAnd.

Definition maxIterations : Z := 20.

Definition clickAllCollapsed : M Z :=
  evaluate ClickAllCollapsed togglesFound countClicked.

Definition loopCond (s : Z * Z) : bool := (fst s <? maxIterations)%Z.

Definition loopBody (s : Z * Z) : M (step (Z * Z)) :=
  let '(iteration, lastClickCount) := s in
  do clickedCount <- clickAllCollapsed ;;
  if (0 <? iteration)%Z && (clickedCount =? lastClickCount)%Z
  then ret (Break s)
  else if (clickedCount =? 0)%Z && (2 <? iteration)%Z
  then ret (Break s)
  else
    do _ <- waitForTimeout 300 ;;
    ret (Continue ((iteration + 1)%Z, clickedCount)).

Definition expandToggles (fuel : nat) : M unit :=
  tryCatch
    (do _ <- while fuel loopCond loopBody (0%Z, (-1)%Z) ;; ret tt)
    (fun _ => consoleLog).

Definition tryBlock (fuel : nat) (notionUrl : Js.str) : M response :=
  do _ <- launch ;;
  do _ <- newPage ;;
  do _ <- goto notionUrl (js"networkidle") 60000 ;;
  do _ <- waitForSelector contentRootMarker 10000 ;;
  do _ <- waitForTimeout 1000 ;;
  do _ <- expandToggles fuel ;;
  do _ <- waitForTimeout 1500 ;;
  do extractedData <- evaluate ExtractContent documentSeen ExtractDirect.extract ;;
  do _ <- close ;;
  ret (success extractedData).

Definition loopFuel : nat := S (Z.to_nat maxIterations).

Definition fetch (req : request) : M response :=
  handler hostRejected (tryBlock loopFuel) req.

End Dedup.

(** *** The click-first revision *)

Module ClickFirst.

Definition hostRejected : Js.str -> bool := HostCheck.rejectedOr.

Definition maxIterations : Z := 100.

(** [document.querySelectorAll(sel).length] *)
Definition getCollapsedCount : M Z :=
  evaluate GetCollapsedCount togglesFound (fun nodes => Z.of_nat (length nodes)).

(** The script clicks every eligible node and returns nothing. *)
Definition clickFirstCollapsed : M unit :=
  evaluate ClickFirstCollapsed togglesFound (fun _ => tt).

(** The loop state is [iteration]. *)
Definition loopCond (iteration : Z) : bool := (iteration <? maxIterations)%Z.

Definition loopBody (iteration : Z) : M (step Z) :=
  do before <- getCollapsedCount ;;
  if (before =? 0)%Z then ret (Break iteration)
  else
    do _ <- clickFirstCollapsed ;;
    do _ <- waitForTimeout 500 ;;
    ret (Continue (iteration + 1)%Z).

Definition expandToggles (fuel : nat) : M unit :=
  tryCatch
    (do _ <- while fuel loopCond loopBody 0%Z ;; ret tt)
    (fun _ => consoleLog).

Definition tryBlock (fuel : nat) (notionUrl : Js.str) : M response :=
  do _ <- launch ;;
  do _ <- newPage ;;
  do _ <- goto notionUrl (js"domcontentloaded") 60000 ;;
  do _ <- waitForSelector contentRootMarker 10000 ;;
  do _ <- expandToggles fuel ;;
  do _ <- waitForTimeout 2000 ;;
  do extractedData <- evaluate ExtractContent documentSeen ExtractNaive.extract ;;
  do _ <- close ;;
  ret (success extractedData).

Definition loopFuel : nat := S (Z.to_nat maxIterations).

Definition fetch (req : request) : M response :=
  handler hostRejected (tryBlock loopFuel) req.

End ClickFirst.

(** ** Sample requests, worlds and pages *)

Module Samples.

Import Dom.

(** A browser in which every call succeeds; the page shows no toggle and
    the given document. *)
Definition quiet (doc : document) : world :=
  MkWorld (fun _ => None) (fun _ => None) (fun _ => None) (fun _ => None)
          (fun _ => None) (fun _ => None) (fun _ => inr []) (fun _ => inr doc).

Definition el (tag : String.string) (attrs : list (String.string * String.string))
  (cs : list node) : node :=
  Elem (Js.lit tag) (List.map (fun kv => (Js.lit (fst kv), Js.lit (snd kv))) attrs) cs.

Definition txt (s : String.string) : node := Text (Js.lit s).

Definition block (id : String.string) (cs : list node) : node :=
  el "div" [("data-block-id"%string, id)] cs.

(** A page with a title and the given nodes under its content root. *)
Definition page (cs : list node) : document :=
  el "html" []
    [ el "body" []
        [ el "div" [("class", "notion-page-content")%string]
            [ el "h1" [("class", "notion-header__title")%string] [txt " Notes "] ];
          el "div" [("data-content-editable-root", "true")%string] cs ] ].

(** A page without content root and without title. *)
Definition bare : document := el "html" [] [ el "body" [] [ txt "loading" ] ].

Definition scrapeOf (url : String.string) : request :=
  MkRequest (js"/scrape") (js"GET") (Some (Js.lit url)).

(** A toggle that passes every test of the click loop. *)
Definition openable : toggle := MkToggle true 10 10 10 10 None.

(** A page on which one collapsed toggle is found at every query. *)
Definition stubborn : world :=
  MkWorld (fun _ => None) (fun _ => None) (fun _ => None) (fun _ => None)
          (fun _ => None) (fun _ => None) (fun _ => inr [openable])
          (fun _ => inr bare).

(** The content root of a sample page and its [k]-th block. *)
Definition rootOf (doc : document) : handle :=
  match Extractor.contentRoot doc with
  | Some root => root
  | None => Handle [] [] doc
  end.

Definition blockAt (doc : document) (k : nat) : handle :=
  nth k (Extractor.allBlocksOf (rootOf doc)) (rootOf doc).

(** Two bullets that read the same. *)
Definition twins : document :=
  page [ block "1" [txt "N/A"]; block "2" [txt " N/A "] ].

(** Two blocks without text. *)
Definition blanks : document :=
  page [ block "1" []; block "2" [txt " "] ].

(** A paragraph, a block with an audio player and a caption, and a block
    with an image and a caption. *)
Definition withMedia : document :=
  page [ block "1" [txt "intro"];
         block "2" [el "audio" [] [txt "no audio support"]; txt "a song"];
         block "3" [el "img" [] []; txt "a photo"] ].

(** Three plain paragraphs. *)
Definition plain : document :=
  page [ block "1" [txt " one "]; block "2" [txt "two"]; block "3" [txt "three"] ].

(** A browser that cannot be launched; the fault is an [Error] with the
    given message. *)
Definition unlaunchable (message : Js.str) : world :=
  MkWorld (fun _ => Some (ErrorObject message)) (fun _ => None) (fun _ => None)
          (fun _ => None) (fun _ => None) (fun _ => None) (fun _ => inr [])
          (fun _ => inr bare).

(** A page that never shows its content root: the wait times out. *)
Definition neverReady : world :=
  MkWorld (fun _ => None) (fun _ => None) (fun _ => None)
          (fun _ => Some (ErrorObject (js"Timeout 5000ms exceeded")))
          (fun _ => None) (fun _ => None) (fun _ => inr [])
          (fun _ => inr bare).

End Samples.

(** * Vocabulary of the properties *)

(** The request gets past validation with the url [notionUrl]. *)
Definition reachesTry (hostRejected : Js.str -> bool) (req : request)
  (notionUrl : Js.str) : Prop :=
  pathname req = js"/scrape" /\ method req <> js"OPTIONS"
  /\ urlParam req = Some notionUrl /\ notionUrl <> []
  /\ hostRejected notionUrl = false.

(** A request fails validation when its path is wrong, its [url]
    parameter is missing (absent or empty), or its url is turned down by
    the host check of the revision. *)
Definition failsValidation (hostRejected : Js.str -> bool) (req : request) : Prop :=
  pathname req <> js"/scrape"
  \/ urlParam req = None
  \/ urlParam req = Some []
  \/ (exists notionUrl, urlParam req = Some notionUrl /\ hostRejected notionUrl = true).

(** The three answers given before the browser is touched. *)
Definition validationResponses : list response :=
  [notFound; missingUrl; invalidUrl].

(** The handlers of the three revisions. *)
Definition revisions : list (request -> M response) :=
  [Main.fetch; Dedup.fetch; ClickFirst.fetch].

(** The state after some more calls. *)
Definition extend (st : state) (evs : list call) : state :=
  MkState (calls st ++ evs) (browser st).

(** How often the call [c] occurs. *)
Definition occurrences (c : call) (evs : list call) : nat :=
  count_occ call_eq_dec evs c.

(** What is left of each loop: the turns still allowed. *)
Definition mainMeasure (s : Z * Z) : nat := Z.to_nat (Main.maxIterations - fst s).
Definition dedupMeasure (s : Z * Z) : nat := Z.to_nat (Dedup.maxIterations - fst s).
Definition clickFirstMeasure (s : Z) : nat := Z.to_nat (ClickFirst.maxIterations - s).

(** [m] cannot run out of fuel and leaves the variable [browser] as it
    is. *)
Definition keeps {A} (m : M A) : Prop :=
  forall w st,
    match m w st with
    | (OutOfFuel, _) => False
    | (_, st') => browser st' = browser st
    end.

(** Started with the browser assigned, [m] either returns just after a
    call to [close], or raises with the browser still assigned. *)
Definition closes {A} (m : M A) : Prop :=
  forall w st,
    browser st = true ->
    match m w st with
    | (Done _, st') => last (calls st') = Some Close
    | (Raise _, st') => browser st' = true
    | (OutOfFuel, _) => False
    end.

(** No call on the browser fails (what the page shows to the click
    scripts is left free: the expansion is best effort). *)
Definition resolves (w : world) : Prop :=
  forall h,
    launchFails w h = None /\ newPageFails w h = None /\ gotoFails w h = None
    /\ waitForSelectorFails w h = None /\ waitForTimeoutFails w h = None
    /\ closeFails w h = None.

(** The extraction script runs on the document [doc]. *)
Definition shows (w : world) (doc : Dom.document) : Prop :=
  forall h, documentSeen w h = inr doc.

(** In the world [w], [m] returns, with a value satisfying [P]. *)
Definition returns {A} (w : world) (m : M A) (P : A -> Prop) : Prop :=
  forall st, exists a st', m w st = (Done a, st') /\ P a.

Module Paths.

Import Dom.

(** The element reached from [n] along the relative path [s]. *)
Fixpoint locate (anc : list (list nat * node)) (p : list nat) (n : node)
  (s : list nat) {struct s} : option handle :=
  match s with
  | [] => if isElem n then Some (Handle p anc n) else None
  | i :: s' =>
      match nth_error (children n) i with
      | Some c => locate ((p, n) :: anc) (p ++ [i]) c s'
      | None => None
      end
  end.

(** Every recorded ancestor has a shorter path than the element, and the
    nearest one is its parent. *)
Definition ancestry (anc : list (list nat * node)) (p : list nat) : Prop :=
  Forall (fun a => length (fst a) < length p) anc
  /\ match anc with
     | [] => True
     | (q, _) :: _ => exists i, p = q ++ [i]
     end.

End Paths.

Module Markers.

Import Dom.

(** Some element strictly below [n] satisfies [f]. *)
Fixpoint anyBelow (f : node -> bool) (n : node) {struct n} : bool :=
  match n with
  | Text _ => false
  | Elem _ _ cs => existsb (fun c => (isElem c && f c) || anyBelow f c) cs
  end.

(** A selector is local when it looks at the element only. *)
Definition localSelector (sel : selector) : Prop :=
  forall anc anc' n, matchSelector anc n sel = matchSelector anc' n sel.

(** The tags stripped from a clone and the class hints of the skip
    test. *)
Definition mediaTags : list Js.str :=
  [js"img"; js"svg"; js"video"; js"audio"; js"iframe"].

Definition classHints : list Js.str :=
  [js"image"; js"embed"; js"video"; js"file"].

(** The element is an image, an inline vector graphic, a video, an audio
    or an embedded frame, or its class attribute holds one of the hints. *)
Definition mediaMarked (n : node) : bool :=
  match n with
  | Text _ => false
  | Elem tag attrs _ =>
      existsb (Js.eqb tag) mediaTags
      || match lookupAttr (js"class") attrs with
         | Some v => existsb (Js.includes v) classHints
         | None => false
         end
  end.

(** The elements that make [src/index.ts] skip the block holding them. *)
Definition skipMarked (n : node) : bool :=
  match n with
  | Text _ => false
  | Elem tag attrs _ =>
      Js.eqb tag (js"img") || Js.eqb tag (js"svg")
      || match lookupAttr (js"class") attrs with
         | Some v => existsb (Js.includes v) classHints
         | None => false
         end
  end.

(** The block holds no media marker. *)
Definition noMedia (b : handle) : Prop :=
  forall d, In d (descendants b) -> mediaMarked (hnode d) = false.

End Markers.

(** [seenTexts] holds exactly the entries pushed so far. *)
Definition tracks (seen : gset Js.str) (parts : list Js.str) : Prop :=
  forall t, t ∈ seen <-> In t parts.

(** The attribute that marks the content root. *)
Definition rootMarker : Js.str := js"data-content-editable-root".

(** Equality of strings is decidable. *)
Definition strDec (a b : Js.str) : {a = b} + {a <> b} := decide (a = b).

(** The number of entries of [parts] equal to [t]. *)
Definition entries (t : Js.str) (parts : list Js.str) : nat :=
  count_occ strDec parts t.

(** [p] is a prefix of [q]: the element at [p] is the element at [q] or
    one of its ancestors. *)
Fixpoint isPrefix (p q : list nat) {struct p} : bool :=
  match p with
  | [] => true
  | x :: p' =>
      match q with
      | [] => false
      | y :: q' => Nat.eqb x y && isPrefix p' q'
      end
  end.

(** The path of the parent element (of an element other than the
    document element). *)
Definition parentPath (h : Dom.handle) : list nat := removelast (Dom.hpath h).

(** The elements of [l] are children of one element. *)
Definition siblings (l : list Dom.handle) : Prop :=
  forall a b, In a l -> In b l -> parentPath a = parentPath b.

(** [block.textContent.trim()] *)
Definition trimmedText (b : Dom.handle) : Js.str :=
  Js.trim (Dom.textContent (Dom.hnode b)).

(** ** The [try] block as a pipeline *)

(** An awaited call together with the oracle that decides its outcome. *)
Definition stepList : Type := list (call * (world -> list call -> option thrown)).

(** The calls of a list of steps. *)
Definition names (l : stepList) : list call := List.map fst l.

(** [await c1; await c2; ...; k] *)
Fixpoint steps {A} (l : stepList) (k : M A) : M A :=
  match l with
  | [] => k
  | (c, fails) :: l' => do _ <- perform c fails ;; steps l' k
  end.

(** The body of the [try] of the three revisions: [launch], the steps up
    to the expansion, the expansion, the steps up to the extraction, the
    extraction, [close], and the 200 answer. *)
Definition pipeline (before : stepList) (expand : M unit) (after : stepList)
  (extract : Dom.document -> ExtractionResult) : M response :=
  do _ <- launch ;;
  steps before
    (do _ <- expand ;;
     steps after
       (do extractedData <- evaluate ExtractContent documentSeen extract ;;
        do _ <- close ;;
        ret (success extractedData))).

Definition mainBefore (notionUrl : Js.str) : stepList :=
  [ (NewPage, newPageFails);
    (Goto notionUrl (js"domcontentloaded") 60000, gotoFails);
    (WaitForSelector contentRootMarker 5000, waitForSelectorFails) ].

Definition mainAfter : stepList := [ (WaitForTimeout 500, waitForTimeoutFails) ].

Definition dedupBefore (notionUrl : Js.str) : stepList :=
  [ (NewPage, newPageFails);
    (Goto notionUrl (js"networkidle") 60000, gotoFails);
    (WaitForSelector contentRootMarker 10000, waitForSelectorFails);
    (WaitForTimeout 1000, waitForTimeoutFails) ].

Definition dedupAfter : stepList := [ (WaitForTimeout 1500, waitForTimeoutFails) ].

Definition clickFirstBefore (notionUrl : Js.str) : stepList :=
  [ (NewPage, newPageFails);
    (Goto notionUrl (js"domcontentloaded") 60000, gotoFails);
    (WaitForSelector contentRootMarker 10000, waitForSelectorFails) ].

Definition clickFirstAfter : stepList := [ (WaitForTimeout 2000, waitForTimeoutFails) ].

(** The calls of one turn of each expansion loop. *)
Definition mainTurn (t : list call) : Prop :=
  t = [Evaluate ClickAllCollapsed]
  \/ t = [Evaluate ClickAllCollapsed; WaitForTimeout 100].

Definition dedupTurn (t : list call) : Prop :=
  t = [Evaluate ClickAllCollapsed]
  \/ t = [Evaluate ClickAllCollapsed; WaitForTimeout 300].

Definition clickFirstTurn (t : list call) : Prop :=
  t = [Evaluate GetCollapsedCount]
  \/ t = [Evaluate GetCollapsedCount; Evaluate ClickFirstCollapsed]
  \/ t = [Evaluate GetCollapsedCount; Evaluate ClickFirstCollapsed; WaitForTimeout 500].

(** The calls of an expansion phase: at most [cap] turns, then possibly
    the [console.log] of the [catch]. *)
Definition expansionOf (turn : list call -> Prop) (cap : nat) (evs : list call) : Prop :=
  exists turns log,
    evs = List.concat turns ++ log
    /\ Forall turn turns
    /\ length turns <= cap
    /\ (log = [] \/ log = [ConsoleLog]).

(** The time asked of [page.waitForTimeout], in milliseconds. *)
Definition waitOf (c : call) : Z :=
  match c with
  | WaitForTimeout ms => ms
  | _ => 0%Z
  end.

Fixpoint waited (evs : list call) : Z :=
  match evs with
  | [] => 0%Z
  | c :: evs' => (waitOf c + waited evs')%Z
  end.

(** The calls of a run that gets to the end of the [try] block, [close]
    left out. *)
Definition itinerary (before : stepList) (evs : list call) (after : stepList) : list call :=
  names before ++ evs ++ names after ++ [Evaluate ExtractContent].

(** The ways a run of the [try ... catch] can go, from a state whose
    calls are [pre]: [launch] fails; everything resolves; a call before
    [close] fails; [close] fails in the [try]. *)
Definition pipelineOutcome (before after : stepList)
  (extract : Dom.document -> ExtractionResult) (expansion : list call -> Prop)
  (w : world) (pre : list call) (r : result response) (final : list call) : Prop :=
  (exists e,
      launchFails w pre = Some e
      /\ r = Done (failure e) /\ final = pre ++ [Launch])
  \/ exists evs,
       expansion evs
       /\ launchFails w pre = None
       /\ ((exists doc,
              documentSeen w (pre ++ Launch :: names before ++ evs ++ names after) = inr doc
              /\ closeFails w (pre ++ Launch :: itinerary before evs after) = None
              /\ r = Done (success (extract doc))
              /\ final = pre ++ Launch :: itinerary before evs after ++ [Close])
           \/ (exists done rest e,
                 itinerary before evs after = done ++ rest
                 /\ done <> []
                 /\ final = pre ++ Launch :: done ++ [Close]
                 /\ r = match closeFails w (pre ++ Launch :: done) with
                        | None => Done (failure e)
                        | Some e' => Raise e'
                        end)
           \/ (exists e,
                 closeFails w (pre ++ Launch :: itinerary before evs after) = Some e
                 /\ final = pre ++ Launch :: itinerary before evs after ++ [Close; Close]
                 /\ r = match closeFails w (pre ++ Launch :: itinerary before evs after ++ [Close]) with
                        | None => Done (failure e)
                        | Some e' => Raise e'
                        end)).

(** What tells the revisions apart: the host check, the steps around the
    expansion, the expansion with the shape of its turns, its cap and the
    wait of one turn, the extraction script, and the calls of a full turn
    of the loop. *)
Record plan : Type := MkPlan {
  planHost : Js.str -> bool;
  planBefore : Js.str -> stepList;
  planExpand : M unit;
  planAfter : stepList;
  planExtract : Dom.document -> ExtractionResult;
  planTurn : list call -> Prop;
  planCap : nat;
  planDelay : Z;
  planFullTurn : list call
}.

Definition mainPlan : plan :=
  MkPlan Main.hostRejected mainBefore (Main.expandToggles Main.loopFuel) mainAfter
         ExtractTopLevel.extract mainTurn 20 100
         [Evaluate ClickAllCollapsed; WaitForTimeout 100].

Definition dedupPlan : plan :=
  MkPlan Dedup.hostRejected dedupBefore (Dedup.expandToggles Dedup.loopFuel) dedupAfter
         ExtractDirect.extract dedupTurn 20 300
         [Evaluate ClickAllCollapsed; WaitForTimeout 300].

Definition clickFirstPlan : plan :=
  MkPlan ClickFirst.hostRejected clickFirstBefore
         (ClickFirst.expandToggles ClickFirst.loopFuel) clickFirstAfter
         ExtractNaive.extract clickFirstTurn 100 500
         [Evaluate GetCollapsedCount; Evaluate ClickFirstCollapsed; WaitForTimeout 500].

(** Each handler with its plan. *)
Definition revisionPlans : list ((request -> M response) * plan) :=
  [ (Main.fetch, mainPlan); (Dedup.fetch, dedupPlan); (ClickFirst.fetch, clickFirstPlan) ].

(** The expansions a plan allows. *)
Definition planExpansion (p : plan) : list call -> Prop :=
  expansionOf (planTurn p) (planCap p).

(** The answers given before the [try] block. *)
Definition earlyResponses : list response :=
  [notFound; preflight; missingUrl; invalidUrl].

(** A call of the script other than [launch], [close] and the extraction,
    asking for no negative wait. *)
Definition quietCall (c : call) : Prop :=
  c <> Launch /\ c <> Close /\ c <> Evaluate ExtractContent /\ (0 <= waitOf c)%Z.

(** The waits a plan asks for outside the expansion. *)
Definition planFixedWait (p : plan) : Z :=
  (waited (names (planBefore p [])) + waited (names (planAfter p)))%Z.

(** The most a request can be made to wait by [page.waitForTimeout]. *)
Definition planBudget (p : plan) : Z :=
  (planFixedWait p + Z.of_nat (planCap p) * planDelay p)%Z.

(** A page whose toggle queries always throw; every other call resolves
    and the extraction sees the given document. *)
Definition brokenToggles (doc : Dom.document) : world :=
  MkWorld (fun _ => None) (fun _ => None) (fun _ => None) (fun _ => None)
          (fun _ => None) (fun _ => None)
          (fun _ => inl (ErrorObject (js"Execution context was destroyed")))
          (fun _ => inr doc).

(** Comparison of rationals is decidable. *)
#[global] Instance Qlt_decision (a b : Q) : Decision (a < b)%Q.
Proof.
  destruct (Qlt_le_dec a b) as [H|H]; [left; exact H | right; now apply Qle_not_lt].
Defined.

(** What the click scripts require of a node before they click it: it is
    connected, its rectangle is more than 1 wide and more than 1 high,
    its bottom and right edges lie beyond 0, and it is not marked
    [aria-disabled="true"]. *)
Definition clickable (node : toggle) : Prop :=
  isConnected node = true
  /\ (1 < rectWidth node)%Q /\ (1 < rectHeight node)%Q
  /\ (0 < rectBottom node)%Q /\ (0 < rectRight node)%Q
  /\ ariaDisabled node <> Some (js"true").

#[global] Instance clickable_dec (node : toggle) : Decision (clickable node).
Proof. unfold clickable. apply _. Defined.

(** The calls of one full turn of the click-first loop. *)
Definition clickFirstFullTurn : list call :=
  [Evaluate GetCollapsedCount; Evaluate ClickFirstCollapsed; WaitForTimeout 500].

(** A collapsed toggle that is disabled. *)
Definition disabledToggle : toggle := MkToggle true 10 10 10 10 (Some (js"true")).

(** A page that shows one disabled collapsed toggle at every query. *)
Definition stuck : world :=
  MkWorld (fun _ => None) (fun _ => None) (fun _ => None) (fun _ => None)
          (fun _ => None) (fun _ => None) (fun _ => inr [disabledToggle])
          (fun _ => inr Samples.bare).

(** A string that neither starts nor ends with white space. *)
Definition edgeClean (s : Js.str) : Prop :=
  (forall c t, s = c :: t -> Js.isWhite c = false)
  /\ (forall t c, s = t ++ [c] -> Js.isWhite c = false).

(** The first occurrences of the elements of a list, in order. *)
Definition keepFirst (l : list Js.str) : list Js.str :=
  rev (nodup strDec (rev l)).

(** The element has the class [name] among the tokens of its class
    attribute. *)
Definition hasClass (name : Js.str) (n : Dom.node) : Prop :=
  exists v, Dom.getAttribute n (js"class") = Some v /\ In name (Js.tokens v).

(** The element is one the title selector matches: an element of class
    [notion-header__title] below an element of class
    [notion-page-content], or an element with
    [data-content-editable-leaf="true"]. *)
Definition isTitleElement (h : Dom.handle) : Prop :=
  (hasClass (js"notion-header__title") (Dom.hnode h)
   /\ exists a, In a (Dom.hanc h) /\ hasClass (js"notion-page-content") (snd a))
  \/ Dom.getAttribute (Dom.hnode h) (js"data-content-editable-leaf") = Some (js"true").

(** The clones whose text the extractors read. *)
Definition strippedClone (blockElement : Dom.handle) : Dom.node :=
  Dom.removeAll Extractor.mediaSelector [] (Dom.cloneNode blockElement).

Definition directClone (element : Dom.handle) : Dom.node :=
  Dom.removeAll Extractor.mediaSelector []
    (Dom.removeAll Extractor.blockSelector [] (Dom.cloneNode element)).

(** The element is a block: it carries the attribute [data-block-id]. *)
Definition isBlock (n : Dom.node) : bool :=
  match Dom.getAttribute n (js"data-block-id") with
  | Some _ => true
  | None => false
  end.

(** The element is one of the media elements the extractors strip. *)
Definition isMediaElement (n : Dom.node) : bool :=
  match n with
  | Dom.Text _ => false
  | Dom.Elem tag _ _ => existsb (Js.eqb tag) Markers.mediaTags
  end.

(** A page with a toggle block that holds a nested paragraph. *)
Definition nestedPage : Dom.document :=
  Samples.page
    [ Samples.block "1" [Samples.txt "outer "; Samples.block "2" [Samples.txt "inner"]] ].

(** A test that reads the tag and the attributes of an element only. *)
Definition shallow (f : Dom.node -> bool) : Prop :=
  forall tag attrs cs cs', f (Dom.Elem tag attrs cs) = f (Dom.Elem tag attrs cs').

(** The text of the text nodes of [n] that lie in no element satisfying
    [f] below [n], in document order. *)
Fixpoint textOutside (f : Dom.node -> bool) (n : Dom.node) {struct n} : Js.str :=
  match n with
  | Dom.Text d => d
  | Dom.Elem _ _ cs =>
      List.concat
        (List.map (fun c => if Dom.isElem c && f c then [] else textOutside f c) cs)
  end.

(** The element is a nested block or a media element. *)
Definition isBlockOrMedia (n : Dom.node) : bool := isBlock n || isMediaElement n.

(** ** Runs, call by call *)

(** The fault raised by the call [c] when it is made after the calls [h],
    if any: each call is decided by the oracle the handler consults for
    it. *)
Definition faultOf (w : world) (h : list call) (c : call) : option thrown :=
  match c with
  | Launch => launchFails w h
  | NewPage => newPageFails w h
  | Goto _ _ _ => gotoFails w h
  | WaitForSelector _ _ => waitForSelectorFails w h
  | WaitForTimeout _ => waitForTimeoutFails w h
  | Evaluate ExtractContent =>
      match documentSeen w h with inl e => Some e | inr _ => None end
  | Evaluate _ =>
      match togglesFound w h with inl e => Some e | inr _ => None end
  | ConsoleLog => None
  | Close => closeFails w h
  end.

(** Made after the calls [pre], every call of [t] resolves. *)
Definition allResolve (w : world) (pre t : list call) : Prop :=
  forall h c rest, t = h ++ c :: rest -> faultOf w (pre ++ h) c = None.

(** Made after the calls [pre], the calls of [t] resolve up to the last
    one, which raises [e]. *)
Definition stopsWith (w : world) (pre t : list call) (e : thrown) : Prop :=
  exists h c,
    t = h ++ [c] /\ allResolve w pre h /\ faultOf w (pre ++ h) c = Some e.

(** What the [catch] of the handler makes of the fault [e] once the
    browser is assigned and the calls [h] are made: it calls [close] and
    answers 500 with [e], unless that [close] fails in turn. *)
Definition caught (w : world) (h : list call) (e : thrown) : result response :=
  match closeFails w h with
  | None => Done (failure e)
  | Some e' => Raise e'
  end.

(** The calls of an expansion phase started after the calls [pre], for a
    loop whose full turn is [full] and whose cap is [cap]: [n] full
    turns, every call resolving, and then
    - nothing more, the cap being reached; or
    - the query alone, on which the loop breaks; or
    - the start of one more turn, up to a call that fails, and the
      [console.log] of the [catch]. *)
Definition expansionTrace (full : list call) (cap : nat) (w : world)
  (pre evs : list call) : Prop :=
  exists n tail,
    evs = List.concat (repeat full n) ++ tail
    /\ ((n = cap /\ tail = [] /\ allResolve w pre evs)
        \/ (n < cap /\ tail = firstn 1 full /\ allResolve w pre evs)
        \/ (n < cap
            /\ exists t rest e,
                 full = t ++ rest /\ t <> [] /\ tail = t ++ [ConsoleLog]
                 /\ stopsWith w pre (List.concat (repeat full n) ++ t) e)).

(** The run of a request that gets past validation, from the first call
    to the answer [r], [final] being the calls made: [before] and [after]
    are the calls around the expansion.
    - [launch] fails: 500, and nothing else is called;
    - a call of [before] fails: [close], and the answer of the [catch];
    - [before] resolves and the expansion is made; then a call of
      [after] or the extraction fails: [close], and the answer of the
      [catch];
    - all of this resolves and so does [close]: 200 with the extraction
      of the document seen;
    - [close] fails: the [catch] calls it again. *)
Definition runTrace (before after : list call)
  (extract : Dom.document -> ExtractionResult) (full : list call) (cap : nat)
  (w : world) (r : result response) (final : list call) : Prop :=
  (exists e,
      launchFails w [] = Some e /\ final = [Launch] /\ r = Done (failure e))
  \/ (launchFails w [] = None
      /\ ((exists t rest e,
              before = t ++ rest /\ t <> [] /\ stopsWith w [Launch] t e
              /\ final = Launch :: t ++ [Close]
              /\ r = caught w (Launch :: t) e)
          \/ (allResolve w [Launch] before
              /\ exists evs reached,
                   expansionTrace full cap w (Launch :: before) evs
                   /\ reached = Launch :: before ++ evs
                   /\ ((exists t rest e,
                          after ++ [Evaluate ExtractContent] = t ++ rest /\ t <> []
                          /\ stopsWith w reached t e
                          /\ final = reached ++ t ++ [Close]
                          /\ r = caught w (reached ++ t) e)
                       \/ (allResolve w reached (after ++ [Evaluate ExtractContent])
                           /\ exists whole,
                                whole = reached ++ after ++ [Evaluate ExtractContent]
                                /\ ((exists doc,
                                       closeFails w whole = None
                                       /\ documentSeen w (reached ++ after) = inr doc
                                       /\ final = whole ++ [Close]
                                       /\ r = Done (success (extract doc)))
                                    \/ (exists e,
                                          closeFails w whole = Some e
                                          /\ final = whole ++ [Close; Close]
                                          /\ r = caught w (whole ++ [Close]) e))))))).

(** The oracle paired with each call of a list of steps is the one of
    that call. *)
Definition faithful (l : stepList) : Prop :=
  Forall (fun s => forall w h, snd s w h = faultOf w h (fst s)) l.

(** The run of a request under a plan. *)
Definition planRun (p : plan) (notionUrl : Js.str) (w : world)
  (r : result response) (final : list call) : Prop :=
  runTrace (names (planBefore p notionUrl)) (names (planAfter p)) (planExtract p)
    (planFullTurn p) (planCap p) w r final.

(** ** The wait for the content root *)

(** The page holds its content root once the calls [h] are made: the
    document an in-page script would see then has one. *)
Definition rootShown (w : world) (h : list call) : Prop :=
  exists doc, documentSeen w h = inr doc /\ Extractor.contentRoot doc <> None.

(** [page.waitForSelector] resolves only on a page that holds an element
    for its selector; on a page without content root the wait of the
    handler times out. *)
Definition honestWait (w : world) : Prop :=
  forall h, waitForSelectorFails w h = None -> rootShown w h.

(** The last call made is a timed wait. *)
Definition afterWait (h : list call) : bool :=
  match rev h with
  | WaitForTimeout _ :: _ => true
  | _ => false
  end.

(** A page whose content root is there when it is waited for and gone
    once the last timed wait is over: it then shows [Samples.bare]. *)
Definition rootLost : world :=
  MkWorld (fun _ => None) (fun _ => None) (fun _ => None)
          (fun h => if afterWait h
                    then Some (ErrorObject (js"Timeout 5000ms exceeded"))
                    else None)
          (fun _ => None) (fun _ => None) (fun _ => inr [])
          (fun h => if afterWait h then inr Samples.bare else inr Samples.plain).

(** * Properties *)

(** ** Facts about strings *)

Section StringFacts.

Lemma startsWith_spec (s p : Js.str) :
  Js.startsWith s p = true <-> exists t, s = p ++ t.
Proof.
  revert s; induction p as [|c p IH]; intros s; simpl.
  - split; [intros _; now exists s | reflexivity].
  - destruct s as [|d s].
    + split; [discriminate | intros [t Ht]; discriminate].
    + rewrite andb_true_iff, N.eqb_eq, IH. split.
      * intros [-> [t ->]]. now exists t.
      * intros [t Ht]. injection Ht as -> ->. split; [reflexivity | now exists t].
Qed.

(** [includes] is substring presence. *)
Lemma includes_spec (s p : Js.str) :
  Js.includes s p = true <-> exists a b, s = a ++ p ++ b.
Proof.
  induction s as [|d s IH]; simpl.
  - rewrite orb_false_r, startsWith_spec. split.
    + intros [t Ht]. now exists [], t.
    + intros [a [b Hab]]. destruct a; [now exists b | discriminate].
  - rewrite orb_true_iff, startsWith_spec, IH. split.
    + intros [[t Ht] | [a [b ->]]].
      * now exists [], t.
      * now exists (d :: a), b.
    + intros [[|x a] [b Hab]].
      * left. now exists b.
      * right. injection Hab as -> ->. now exists a, b.
Qed.

End StringFacts.

(** ** Host validation *)

Section HostValidation.

Lemma rejectedAnd_spec (notionUrl : Js.str) :
  HostCheck.rejectedAnd notionUrl = false <->
  Js.includes notionUrl markerSo = true \/ Js.includes notionUrl markerSite = true.
Proof.
  unfold HostCheck.rejectedAnd.
  destruct (Js.includes notionUrl markerSo), (Js.includes notionUrl markerSite);
    simpl; intuition congruence.
Qed.

Lemma rejectedOr_spec (notionUrl : Js.str) :
  HostCheck.rejectedOr notionUrl = false <->
  Js.includes notionUrl markerSo = true /\ Js.includes notionUrl markerSite = true.
Proof.
  unfold HostCheck.rejectedOr.
  destruct (Js.includes notionUrl markerSo), (Js.includes notionUrl markerSite);
    simpl; intuition congruence.
Qed.

(** In [src/index.ts] and in the de-duplicating revision a url is turned
    down exactly when it holds neither marker as a substring. *)
Lemma main_host_check (notionUrl : Js.str) :
  Main.hostRejected notionUrl = true <->
  ~ (exists a b, notionUrl = a ++ markerSo ++ b) /\
  ~ (exists a b, notionUrl = a ++ markerSite ++ b).
Proof.
  unfold Main.hostRejected, HostCheck.rejectedAnd.
  rewrite andb_true_iff, !negb_true_iff, <- !includes_spec.
  destruct (Js.includes notionUrl markerSo), (Js.includes notionUrl markerSite);
    intuition congruence.
Qed.

Lemma dedup_host_check (notionUrl : Js.str) :
  Dedup.hostRejected notionUrl = Main.hostRejected notionUrl.
Proof. reflexivity. Qed.

(** Claim C1.  A scrape request whose url holds one of the two markers
    should pass the host check.  The click-first revision tests "lacks
    notion.so OR lacks notion.site" and so turns down the url
    https://www.notion.so/page, which holds the first marker: it answers
    400 with the invalid-URL message (the very message that says "from
    notion.so or notion.site") and never reaches the browser, while
    [src/index.ts] lets the same url through. *)
Theorem C1_click_first_rejects_marked_url :
  let req := Samples.scrapeOf "https://www.notion.so/page" in
  (exists notionUrl, urlParam req = Some notionUrl
     /\ Js.includes notionUrl markerSo = true
     /\ ClickFirst.hostRejected notionUrl = true
     /\ Main.hostRejected notionUrl = false)
  /\ (forall w, ClickFirst.fetch req w initial = (Done invalidUrl, initial))
  /\ status invalidUrl = 400%Z.
Proof.
  cbv zeta. split; [|split].
  - eexists. split; [reflexivity|]. vm_compute. auto.
  - intros w. reflexivity.
  - reflexivity.
Qed.

End HostValidation.

(** ** Routing and validation *)

Section Routing.

Variable hostRejected : Js.str -> bool.
Variable tryBlock : Js.str -> M response.

Lemma eqb_true (a b : Js.str) : Js.eqb a b = true <-> a = b.
Proof. unfold Js.eqb. apply bool_decide_eq_true. Qed.

Lemma eqb_false (a b : Js.str) : Js.eqb a b = false <-> a <> b.
Proof. unfold Js.eqb. apply bool_decide_eq_false. Qed.

Lemma handler_wrong_path (req : request) (w : world) (st : state) :
  pathname req <> js"/scrape" ->
  handler hostRejected tryBlock req w st = (Done notFound, st).
Proof.
  intros H. unfold handler. apply eqb_false in H. now rewrite H.
Qed.

Lemma handler_options (req : request) (w : world) (st : state) :
  pathname req = js"/scrape" -> method req = js"OPTIONS" ->
  handler hostRejected tryBlock req w st = (Done preflight, st).
Proof.
  intros Hp Hm. unfold handler.
  apply eqb_true in Hp, Hm. now rewrite Hp, Hm.
Qed.

(** What remains of the handler once the path and the method are past. *)
Lemma handler_scrape (req : request) (w : world) (st : state) :
  pathname req = js"/scrape" -> method req <> js"OPTIONS" ->
  handler hostRejected tryBlock req w st =
  match urlParam req with
  | None => (Done missingUrl, st)
  | Some notionUrl =>
      if negb (Js.truthy notionUrl) then (Done missingUrl, st)
      else if hostRejected notionUrl then (Done invalidUrl, st)
      else tryCatch (tryBlock notionUrl) onFault w st
  end.
Proof.
  intros Hp Hm. unfold handler.
  apply eqb_true in Hp. apply eqb_false in Hm. rewrite Hp, Hm. simpl.
  destruct (urlParam req) as [u|]; [|reflexivity].
  destruct (Js.truthy u); simpl; [|reflexivity].
  now destruct (hostRejected u).
Qed.

End Routing.

(** Claim C3, as the code has it.  The path is tested before the method:
    an OPTIONS request to [/scrape] is answered 200 with the [null] body
    and exactly the CORS headers, in every revision; an OPTIONS request to
    any other path gets the 404 usage error, which carries the CORS
    headers too. *)
Theorem C3_options_on_scrape_path
  (hostRejected : Js.str -> bool) (tryBlock : Js.str -> M response)
  (req : request) (w : world) (st : state) :
  method req = js"OPTIONS" ->
  (pathname req = js"/scrape" ->
     exists resp, handler hostRejected tryBlock req w st = (Done resp, st)
       /\ status resp = 200%Z /\ body resp = None /\ headers resp = CORS_HEADERS)
  /\ (pathname req <> js"/scrape" ->
     exists resp, handler hostRejected tryBlock req w st = (Done resp, st)
       /\ status resp = 404%Z /\ body resp <> None
       /\ (forall h, In h CORS_HEADERS -> In h (headers resp))).
Proof.
  intros Hm. split; intros Hp.
  - exists preflight. rewrite handler_options by assumption. auto.
  - exists notFound. rewrite handler_wrong_path by assumption.
    repeat split; [discriminate|]. intros h Hh. now right.
Qed.

Lemma C3_options_on_scrape_path_witness :
  let req := MkRequest (js"/scrape") (js"OPTIONS") None in
  exists resp,
    Main.fetch req (Samples.quiet Samples.bare) initial = (Done resp, initial)
    /\ status resp = 200%Z /\ body resp = None /\ headers resp = CORS_HEADERS.
Proof.
  cbv zeta.
  apply (C3_options_on_scrape_path Main.hostRejected (Main.tryBlock Main.loopFuel)
           (MkRequest (js"/scrape") (js"OPTIONS") None)
           (Samples.quiet Samples.bare) initial); reflexivity.
Defined.

(** Claim C3 as stated fails: an OPTIONS request to [/other] is answered
    404 with a JSON body, in every revision. *)
Lemma C3_options_other_path_is_404 :
  let req := MkRequest (js"/other") (js"OPTIONS") None in
  method req = js"OPTIONS"
  /\ Main.fetch req (Samples.quiet Samples.bare) initial = (Done notFound, initial)
  /\ Dedup.fetch req (Samples.quiet Samples.bare) initial = (Done notFound, initial)
  /\ ClickFirst.fetch req (Samples.quiet Samples.bare) initial = (Done notFound, initial)
  /\ ~ (200 <= status notFound < 300)%Z
  /\ body notFound <> None.
Proof.
  cbv zeta. repeat split; try reflexivity.
  - intros [_ H]. vm_compute in H. discriminate.
  - discriminate.
Qed.

(** Claim C5.  A request that fails validation (wrong path, missing or
    empty [url] parameter, or a url turned down by the host check) is
    answered without a single call on the browser: the state is left as it
    was, so no [Launch] is recorded, and the answer is one of the three
    validation errors or, for OPTIONS on [/scrape], the pre-flight
    answer.  This holds for the frame shared by the three revisions,
    whatever the host check and the [try] block are. *)
Theorem C5_validation_never_launches
  (hostRejected : Js.str -> bool) (tryBlock : Js.str -> M response)
  (req : request) (w : world) (st : state) :
  failsValidation hostRejected req ->
  exists resp,
    handler hostRejected tryBlock req w st = (Done resp, st)
    /\ (calls st = [] -> ~ In Launch (calls (snd (handler hostRejected tryBlock req w st))))
    /\ (In resp validationResponses \/ (method req = js"OPTIONS" /\ resp = preflight))
    /\ (In resp validationResponses -> status resp = 404%Z \/ status resp = 400%Z).
Proof.
  intros Hfail.
  assert (Hstat : forall r, In r validationResponses -> status r = 404%Z \/ status r = 400%Z).
  { intros r [<-|[<-|[<-|[]]]]; simpl; auto. }
  assert (Hrun : exists resp, handler hostRejected tryBlock req w st = (Done resp, st)
            /\ (In resp validationResponses \/ (method req = js"OPTIONS" /\ resp = preflight))).
  { destruct (decide (pathname req = js"/scrape")) as [Hp|Hp].
    - destruct (decide (method req = js"OPTIONS")) as [Hm|Hm].
      + exists preflight. rewrite handler_options by assumption. auto.
      + rewrite handler_scrape by assumption.
        destruct Hfail as [H|[H|[H|[u [H Hu]]]]]; [contradiction| | |]; rewrite H.
        * exists missingUrl. unfold validationResponses. simpl. tauto.
        * exists missingUrl. unfold validationResponses. simpl. tauto.
        * destruct (Js.truthy u); simpl.
          -- rewrite Hu. exists invalidUrl. unfold validationResponses. simpl. tauto.
          -- exists missingUrl. unfold validationResponses. simpl. tauto.
    - exists notFound. rewrite handler_wrong_path by assumption.
      unfold validationResponses. simpl. tauto. }
  destruct Hrun as [resp [Hrun Hresp]]. exists resp.
  split; [exact Hrun|]. split; [|split; [exact Hresp | apply Hstat]].
  intros Hc. rewrite Hrun. simpl. rewrite Hc. intros [].
Qed.

Lemma C5_validation_never_launches_witness :
  exists resp,
    Main.fetch (Samples.scrapeOf "https://example.com/") (Samples.quiet Samples.bare) initial
      = (Done resp, initial)
    /\ status resp = 400%Z.
Proof.
  destruct (C5_validation_never_launches Main.hostRejected (Main.tryBlock Main.loopFuel)
              (Samples.scrapeOf "https://example.com/") (Samples.quiet Samples.bare) initial)
    as [resp [Hrun [_ [Hresp Hstat]]]].
  - right; right; right. eexists. split; reflexivity.
  - exists resp. split; [exact Hrun|].
    vm_compute in Hrun. injection Hrun as <-. reflexivity.
Defined.

(** ** The fault answer *)

Lemma handler_try (hostRejected : Js.str -> bool) (tryBlock : Js.str -> M response)
  (req : request) (notionUrl : Js.str) (w : world) (st : state) :
  reachesTry hostRejected req notionUrl ->
  handler hostRejected tryBlock req w st = tryCatch (tryBlock notionUrl) onFault w st.
Proof.
  intros (Hp & Hm & Hu & Hne & Hh).
  rewrite handler_scrape by assumption. rewrite Hu.
  destruct notionUrl; [contradiction|]. simpl. now rewrite Hh.
Qed.

Lemma onFault_run (e : thrown) (w : world) (st : state) :
  onFault e w st =
  if browser st
  then match closeFails w (calls st) with
       | None => (Done (failure e), record Close st)
       | Some e' => (Raise e', record Close st)
       end
  else (Done (failure e), st).
Proof.
  unfold onFault, bind, browserAssigned, close, perform, ret.
  destruct (browser st); [|reflexivity].
  now destruct (closeFails w (calls st)).
Qed.

(** Claim C10, as the code has it.  When the [try] block raises a fault
    [e], the only response the handler can return is the 500 answer whose
    body holds [error], the fixed string, and [details], the message of
    [e] when [e] is an [Error] and the literal "Unknown error occurred"
    otherwise; it does return it as soon as releasing the browser in the
    [catch] clause does not fail in turn.  [details] is a string in every
    case, and a non-empty one unless [e] is an [Error] whose message is
    empty. *)
Theorem C10_fault_answer
  (hostRejected : Js.str -> bool) (tryBlock : Js.str -> M response)
  (req : request) (notionUrl : Js.str) (w : world) (st st1 : state) (e : thrown) :
  reachesTry hostRejected req notionUrl ->
  tryBlock notionUrl w st = (Raise e, st1) ->
  (forall resp st2,
      handler hostRejected tryBlock req w st = (Done resp, st2) -> resp = failure e)
  /\ (browser st1 = false \/ closeFails w (calls st1) = None ->
      exists st2, handler hostRejected tryBlock req w st = (Done (failure e), st2))
  /\ status (failure e) = 500%Z
  /\ body (failure e) =
       Some (JObject
               [ (js"error", JString (js"Failed to scrape Notion page"));
                 (js"details",
                  JString match e with
                          | ErrorObject message => message
                          | NonError => js"Unknown error occurred"
                          end) ])
  /\ (e <> ErrorObject [] -> errorMessage e <> []).
Proof.
  intros Hreach Htry.
  rewrite (handler_try _ _ _ _ _ _ Hreach).
  unfold tryCatch. rewrite Htry, onFault_run.
  split; [|split; [|split; [|split]]].
  - intros resp st2.
    destruct (browser st1); [destruct (closeFails w (calls st1))|]; congruence.
  - intros [Hb|Hc].
    + rewrite Hb. eauto.
    + rewrite Hc. destruct (browser st1); eauto.
  - reflexivity.
  - now destruct e.
  - destruct e as [[|c m]|]; simpl; [congruence | discriminate | discriminate].
Qed.

Lemma C10_fault_answer_witness :
  exists st2,
    Main.fetch (Samples.scrapeOf "https://www.notion.so/page") Samples.neverReady initial
    = (Done (failure (ErrorObject (js"Timeout 5000ms exceeded"))), st2).
Proof.
  refine (proj1 (proj2
    (C10_fault_answer Main.hostRejected (Main.tryBlock Main.loopFuel)
       (Samples.scrapeOf "https://www.notion.so/page")
       (js"https://www.notion.so/page") Samples.neverReady initial
       (MkState [Launch; NewPage;
                 Goto (js"https://www.notion.so/page") (js"domcontentloaded") 60000;
                 WaitForSelector contentRootMarker 5000] true)
       (ErrorObject (js"Timeout 5000ms exceeded")) _ _)) _).
  - repeat split; try reflexivity; discriminate.
  - reflexivity.
  - right. reflexivity.
Defined.

(** Claim C10 as stated fails: when the browser cannot be launched and the
    fault is an [Error] with an empty message, the handler catches it and
    answers 500 with [details] equal to the empty string. *)
Lemma C10_details_may_be_empty :
  let req := Samples.scrapeOf "https://www.notion.so/page" in
  exists resp st,
    Main.fetch req (Samples.unlaunchable []) initial = (Done resp, st)
    /\ status resp = 500%Z
    /\ body resp =
         Some (JObject [ (js"error", JString (js"Failed to scrape Notion page"));
                         (js"details", JString []) ]).
Proof.
  cbv zeta. eexists. eexists. split; [reflexivity|]. split; reflexivity.
Qed.

(** ** The toggle expansion loop *)

Lemma extend_nil (st : state) : extend st [] = st.
Proof. destruct st. unfold extend. simpl. now rewrite app_nil_r. Qed.

Lemma extend_extend (st : state) (a b : list call) :
  extend (extend st a) b = extend st (a ++ b).
Proof. unfold extend. simpl. now rewrite app_assoc. Qed.

Lemma record_extend (st : state) (c : call) : record c st = extend st [c].
Proof. reflexivity. Qed.

Lemma occurrences_app (c : call) (a b : list call) :
  occurrences c (a ++ b) = occurrences c a + occurrences c b.
Proof. apply count_occ_app. Qed.

Lemma occurrences_single (c d : call) :
  occurrences c [d] = if decide (d = c) then 1 else 0.
Proof.
  unfold occurrences. cbn [count_occ].
  destruct (call_eq_dec d c); destruct (decide (d = c)); congruence.
Qed.

Section WhileBound.

Context {S : Type}.
Variable cond : S -> bool.
Variable body : S -> M (step S).
Variable measure : S -> nat.
Variable tick : call.

(** Each turn makes at most one [tick] call, never runs out of fuel by
    itself, and lowers the measure when the loop goes on. *)
Hypothesis measure_pos : forall s, cond s = true -> 0 < measure s.
Hypothesis body_turn : forall s w st,
  cond s = true ->
  exists r evs,
    body s w st = (r, extend st evs)
    /\ occurrences tick evs <= 1
    /\ match r with
       | Done (Continue s') => measure s' < measure s
       | Done (Break _) | Raise _ => True
       | OutOfFuel => False
       end.

Lemma while_bound (fuel : nat) :
  forall s w st,
    measure s < fuel ->
    exists r evs,
      while fuel cond body s w st = (r, extend st evs)
      /\ r <> OutOfFuel
      /\ occurrences tick evs <= measure s.
Proof.
  induction fuel as [|fuel IH]; intros s w st Hlt; [lia|].
  simpl. destruct (cond s) eqn:Hc.
  - destruct (body_turn s w st Hc) as (r & evs & Hb & Hone & Hr).
    pose proof (measure_pos s Hc) as Hpos.
    unfold bind. rewrite Hb.
    destruct r as [[s'|s']|e|].
    + exists (Done s'), evs. unfold ret.
      split; [reflexivity | split; [discriminate | lia]].
    + destruct (IH s' w (extend st evs)) as (r' & evs' & Hw & Hne & Hcount); [lia|].
      exists r', (evs ++ evs'). rewrite Hw, extend_extend.
      split; [reflexivity | split; [assumption|]]. rewrite occurrences_app. lia.
    + exists (Raise e), evs. split; [reflexivity | split; [discriminate | lia]].
    + contradiction.
  - exists (Done s), []. unfold ret. rewrite extend_nil.
    split; [reflexivity | split; [discriminate | simpl; lia]].
Qed.

(** The frame put around each loop:
    [try { while ... } catch (error) { console.log(...) }]. *)
Lemma guarded_while_bound (fuel : nat) (s : S) (w : world) (st : state) :
  measure s < fuel ->
  exists evs,
    tryCatch (do _ <- while fuel cond body s ;; ret tt) (fun _ => consoleLog) w st
    = (Done tt, extend st evs)
    /\ occurrences tick evs <= measure s + (if decide (tick = ConsoleLog) then 1 else 0).
Proof.
  intros Hlt.
  destruct (while_bound fuel s w st Hlt) as (r & evs & Hw & Hne & Hcount).
  unfold tryCatch, bind. rewrite Hw.
  destruct r as [s'|e|]; [| |contradiction].
  - exists evs. unfold ret. split; [reflexivity | lia].
  - exists (evs ++ [ConsoleLog]). unfold consoleLog.
    rewrite record_extend, extend_extend. split; [reflexivity|].
    rewrite occurrences_app, occurrences_single.
    destruct (decide (ConsoleLog = tick)) as [Heq|Hneq];
      destruct (decide (tick = ConsoleLog)); try congruence; lia.
Qed.

End WhileBound.

Lemma perform_run (c : call) (fails : world -> list call -> option thrown)
  (w : world) (st : state) :
  perform c fails w st =
  (match fails w (calls st) with None => Done tt | Some e => Raise e end, extend st [c]).
Proof. unfold perform. now destruct (fails w (calls st)). Qed.

Lemma evaluate_run {D A} (s : script) (sees : world -> list call -> thrown + D)
  (run : D -> A) (w : world) (st : state) :
  evaluate s sees run w st =
  (match sees w (calls st) with inr d => Done (run d) | inl e => Raise e end,
   extend st [Evaluate s]).
Proof. unfold evaluate. now destruct (sees w (calls st)). Qed.

Lemma main_body_turn (s : Z * Z) (w : world) (st : state) :
  Main.loopCond s = true ->
  exists r evs,
    Main.loopBody s w st = (r, extend st evs)
    /\ occurrences (Evaluate ClickAllCollapsed) evs <= 1
    /\ match r with
       | Done (Continue s') => mainMeasure s' < mainMeasure s
       | Done (Break _) | Raise _ => True
       | OutOfFuel => False
       end.
Proof.
  destruct s as [iteration lastClickCount].
  unfold Main.loopCond, mainMeasure, Main.maxIterations. simpl. intros Hc.
  apply Z.ltb_lt in Hc.
  unfold Main.loopBody, Main.clickAllCollapsed, bind.
  rewrite evaluate_run.
  destruct (togglesFound w (calls st)) as [e|nodes].
  - exists (Raise e), [Evaluate ClickAllCollapsed]. auto.
  - destruct ((countClicked nodes =? 0)%Z || (countClicked nodes =? lastClickCount)%Z).
    + eexists _, [Evaluate ClickAllCollapsed]. unfold ret. split; [reflexivity|]. auto.
    + unfold waitForTimeout. rewrite perform_run, extend_extend.
      destruct (waitForTimeoutFails w _).
      * eexists _, _. split; [reflexivity|]. auto.
      * eexists _, _. unfold ret. split; [reflexivity|]. simpl. split; [auto | lia].
Qed.

Lemma dedup_body_turn (s : Z * Z) (w : world) (st : state) :
  Dedup.loopCond s = true ->
  exists r evs,
    Dedup.loopBody s w st = (r, extend st evs)
    /\ occurrences (Evaluate ClickAllCollapsed) evs <= 1
    /\ match r with
       | Done (Continue s') => dedupMeasure s' < dedupMeasure s
       | Done (Break _) | Raise _ => True
       | OutOfFuel => False
       end.
Proof.
  destruct s as [iteration lastClickCount].
  unfold Dedup.loopCond, dedupMeasure, Dedup.maxIterations. simpl. intros Hc.
  apply Z.ltb_lt in Hc.
  unfold Dedup.loopBody, Dedup.clickAllCollapsed, bind.
  rewrite evaluate_run.
  destruct (togglesFound w (calls st)) as [e|nodes].
  - exists (Raise e), [Evaluate ClickAllCollapsed]. auto.
  - destruct ((0 <? iteration)%Z && (countClicked nodes =? lastClickCount)%Z).
    { eexists _, [Evaluate ClickAllCollapsed]. unfold ret. split; [reflexivity|]. auto. }
    destruct ((countClicked nodes =? 0)%Z && (2 <? iteration)%Z).
    { eexists _, [Evaluate ClickAllCollapsed]. unfold ret. split; [reflexivity|]. auto. }
    unfold waitForTimeout. rewrite perform_run, extend_extend.
    destruct (waitForTimeoutFails w _).
    + eexists _, _. split; [reflexivity|]. auto.
    + eexists _, _. unfold ret. split; [reflexivity|]. simpl. split; [auto | lia].
Qed.

Lemma click_first_body_turn (s : Z) (w : world) (st : state) :
  ClickFirst.loopCond s = true ->
  exists r evs,
    ClickFirst.loopBody s w st = (r, extend st evs)
    /\ occurrences (Evaluate GetCollapsedCount) evs <= 1
    /\ match r with
       | Done (Continue s') => clickFirstMeasure s' < clickFirstMeasure s
       | Done (Break _) | Raise _ => True
       | OutOfFuel => False
       end.
Proof.
  unfold ClickFirst.loopCond, clickFirstMeasure, ClickFirst.maxIterations. intros Hc.
  apply Z.ltb_lt in Hc.
  unfold ClickFirst.loopBody, ClickFirst.getCollapsedCount,
    ClickFirst.clickFirstCollapsed, bind.
  rewrite evaluate_run.
  destruct (togglesFound w (calls st)) as [e|nodes].
  - exists (Raise e), [Evaluate GetCollapsedCount]. auto.
  - destruct (Z.of_nat (length nodes) =? 0)%Z.
    { eexists _, [Evaluate GetCollapsedCount]. unfold ret. split; [reflexivity|]. auto. }
    rewrite evaluate_run, extend_extend.
    destruct (togglesFound w _).
    { eexists _, _. split; [reflexivity|]. auto. }
    unfold waitForTimeout. rewrite perform_run, extend_extend.
    destruct (waitForTimeoutFails w _).
    + eexists _, _. split; [reflexivity|]. auto.
    + eexists _, _. unfold ret. split; [reflexivity|]. simpl. split; [auto | lia].
Qed.

Lemma main_expand_bound (fuel : nat) (w : world) (st : state) :
  Z.to_nat Main.maxIterations < fuel ->
  exists evs,
    Main.expandToggles fuel w st = (Done tt, extend st evs)
    /\ occurrences (Evaluate ClickAllCollapsed) evs <= 20.
Proof.
  intros Hf.
  destruct (guarded_while_bound Main.loopCond Main.loopBody mainMeasure
              (Evaluate ClickAllCollapsed)) with (fuel := fuel) (s := (0%Z, (-1)%Z))
              (w := w) (st := st) as (evs & Hrun & Hcount).
  - intros [i l] Hc. unfold Main.loopCond in Hc. apply Z.ltb_lt in Hc.
    unfold mainMeasure. simpl in *. lia.
  - apply main_body_turn.
  - exact Hf.
  - exists evs. split; [exact Hrun|].
    destruct (decide (Evaluate ClickAllCollapsed = ConsoleLog)); [discriminate|].
    unfold mainMeasure, Main.maxIterations in Hcount. simpl in Hcount. lia.
Qed.

Lemma dedup_expand_bound (fuel : nat) (w : world) (st : state) :
  Z.to_nat Dedup.maxIterations < fuel ->
  exists evs,
    Dedup.expandToggles fuel w st = (Done tt, extend st evs)
    /\ occurrences (Evaluate ClickAllCollapsed) evs <= 20.
Proof.
  intros Hf.
  destruct (guarded_while_bound Dedup.loopCond Dedup.loopBody dedupMeasure
              (Evaluate ClickAllCollapsed)) with (fuel := fuel) (s := (0%Z, (-1)%Z))
              (w := w) (st := st) as (evs & Hrun & Hcount).
  - intros [i l] Hc. unfold Dedup.loopCond in Hc. apply Z.ltb_lt in Hc.
    unfold dedupMeasure. simpl in *. lia.
  - apply dedup_body_turn.
  - exact Hf.
  - exists evs. split; [exact Hrun|].
    destruct (decide (Evaluate ClickAllCollapsed = ConsoleLog)); [discriminate|].
    unfold dedupMeasure, Dedup.maxIterations in Hcount. simpl in Hcount. lia.
Qed.

Lemma click_first_expand_bound (fuel : nat) (w : world) (st : state) :
  Z.to_nat ClickFirst.maxIterations < fuel ->
  exists evs,
    ClickFirst.expandToggles fuel w st = (Done tt, extend st evs)
    /\ occurrences (Evaluate GetCollapsedCount) evs <= 100.
Proof.
  intros Hf.
  destruct (guarded_while_bound ClickFirst.loopCond ClickFirst.loopBody clickFirstMeasure
              (Evaluate GetCollapsedCount)) with (fuel := fuel) (s := 0%Z)
              (w := w) (st := st) as (evs & Hrun & Hcount).
  - intros i Hc. unfold ClickFirst.loopCond in Hc. apply Z.ltb_lt in Hc.
    unfold clickFirstMeasure. lia.
  - apply click_first_body_turn.
  - exact Hf.
  - exists evs. split; [exact Hrun|].
    destruct (decide (Evaluate GetCollapsedCount = ConsoleLog)); [discriminate|].
    unfold clickFirstMeasure, ClickFirst.maxIterations in Hcount. simpl in Hcount. lia.
Qed.

(** Claim C6.  Whatever the page does (whatever it shows at each query
    and whichever call fails), the expansion phase of each revision comes
    to an end without a fault, and its loop makes at most [maxIterations]
    turns: the loop of [src/index.ts] and of the de-duplicating revision
    runs the click script at most 20 times, the loop of the click-first
    revision counts the collapsed toggles at most 100 times.  Any fuel
    above the cap of the revision is enough (the handlers run the loop
    with the cap plus one), so the bound is the loop's own. *)
Theorem C6_expansion_halts_within_cap (w : world) (st : state) :
  (forall fuel,
      Z.to_nat Main.maxIterations < fuel ->
      exists evs,
        Main.expandToggles fuel w st = (Done tt, extend st evs)
        /\ occurrences (Evaluate ClickAllCollapsed) evs <= Z.to_nat Main.maxIterations)
  /\ (forall fuel,
      Z.to_nat Dedup.maxIterations < fuel ->
      exists evs,
        Dedup.expandToggles fuel w st = (Done tt, extend st evs)
        /\ occurrences (Evaluate ClickAllCollapsed) evs <= Z.to_nat Dedup.maxIterations)
  /\ (forall fuel,
      Z.to_nat ClickFirst.maxIterations < fuel ->
      exists evs,
        ClickFirst.expandToggles fuel w st = (Done tt, extend st evs)
        /\ occurrences (Evaluate GetCollapsedCount) evs
           <= Z.to_nat ClickFirst.maxIterations).
Proof.
  split; [|split]; intros fuel Hf.
  - destruct (main_expand_bound fuel w st Hf) as (evs & Hrun & Hcount).
    exists evs. split; [exact Hrun|].
    change (Z.to_nat Main.maxIterations) with 20. exact Hcount.
  - destruct (dedup_expand_bound fuel w st Hf) as (evs & Hrun & Hcount).
    exists evs. split; [exact Hrun|].
    change (Z.to_nat Dedup.maxIterations) with 20. exact Hcount.
  - destruct (click_first_expand_bound fuel w st Hf) as (evs & Hrun & Hcount).
    exists evs. split; [exact Hrun|].
    change (Z.to_nat ClickFirst.maxIterations) with 100. exact Hcount.
Qed.

Lemma C6_expansion_halts_within_cap_witness :
  (exists evs,
      Main.expandToggles Main.loopFuel Samples.stubborn initial
      = (Done tt, extend initial evs)
      /\ occurrences (Evaluate ClickAllCollapsed) evs <= 20)
  /\ (exists evs,
      Dedup.expandToggles Dedup.loopFuel Samples.stubborn initial
      = (Done tt, extend initial evs)
      /\ occurrences (Evaluate ClickAllCollapsed) evs <= 20)
  /\ (exists evs,
      ClickFirst.expandToggles ClickFirst.loopFuel Samples.stubborn initial
      = (Done tt, extend initial evs)
      /\ occurrences (Evaluate GetCollapsedCount) evs <= 100).
Proof.
  destruct (C6_expansion_halts_within_cap Samples.stubborn initial)
    as (Hmain & Hdedup & Hclick).
  split; [|split].
  - apply (Hmain Main.loopFuel). vm_compute. lia.
  - apply (Hdedup Dedup.loopFuel). vm_compute. lia.
  - apply (Hclick ClickFirst.loopFuel). vm_compute. lia.
Defined.

(** On a page that shows a collapsed toggle at every query, the
    click-first loop goes on until its cap, and the batch loops stop at
    the second turn, when the count of clicks no longer changes. *)
Example stubborn_page_turns :
  occurrences (Evaluate GetCollapsedCount)
    (calls (snd (ClickFirst.expandToggles ClickFirst.loopFuel Samples.stubborn initial))) = 100
  /\ occurrences (Evaluate ClickAllCollapsed)
       (calls (snd (Main.expandToggles Main.loopFuel Samples.stubborn initial))) = 2
  /\ occurrences (Evaluate ClickAllCollapsed)
       (calls (snd (Dedup.expandToggles Dedup.loopFuel Samples.stubborn initial))) = 2.
Proof. vm_compute. auto. Qed.

(** ** Releasing the browser *)

Section Release.

Lemma keeps_perform (c : call) (fails : world -> list call -> option thrown) :
  keeps (perform c fails).
Proof. intros w st. rewrite perform_run. now destruct (fails w (calls st)). Qed.

Lemma keeps_evaluate {D A} (s : script) (sees : world -> list call -> thrown + D)
  (run : D -> A) : keeps (evaluate s sees run).
Proof. intros w st. rewrite evaluate_run. now destruct (sees w (calls st)). Qed.

Lemma keeps_main_expand : keeps (Main.expandToggles Main.loopFuel).
Proof.
  intros w st.
  destruct (main_expand_bound Main.loopFuel w st) as (evs & -> & _);
    [unfold Main.loopFuel; lia | reflexivity].
Qed.

Lemma keeps_dedup_expand : keeps (Dedup.expandToggles Dedup.loopFuel).
Proof.
  intros w st.
  destruct (dedup_expand_bound Dedup.loopFuel w st) as (evs & -> & _);
    [unfold Dedup.loopFuel; lia | reflexivity].
Qed.

Lemma keeps_click_first_expand : keeps (ClickFirst.expandToggles ClickFirst.loopFuel).
Proof.
  intros w st.
  destruct (click_first_expand_bound ClickFirst.loopFuel w st) as (evs & -> & _);
    [unfold ClickFirst.loopFuel; lia | reflexivity].
Qed.

Lemma closes_bind {A B} (m : M A) (k : A -> M B) :
  keeps m -> (forall a, closes (k a)) -> closes (bind m k).
Proof.
  intros Hm Hk w st Hb. unfold bind.
  specialize (Hm w st). destruct (m w st) as [[a|e|] st1].
  - apply Hk. congruence.
  - congruence.
  - contradiction.
Qed.

Lemma closes_close {A} (a : A) : closes (do _ <- close ;; ret a).
Proof.
  intros w st Hb. unfold bind, close. rewrite perform_run.
  destruct (closeFails w (calls st)); simpl.
  - exact Hb.
  - apply last_snoc.
Qed.

End Release.

Create HintDb release.
#[local] Hint Resolve keeps_perform keeps_evaluate keeps_main_expand
  keeps_dedup_expand keeps_click_first_expand : release.

(** Peels the calls of a [try] block one by one down to the final
    [close]. *)
Ltac closes_chain :=
  repeat (apply closes_bind;
          [ unfold newPage, goto, waitForSelector, waitForTimeout;
            solve [auto with release]
          | intros ? ]);
  apply closes_close.

(** The whole [try ... catch] once [launch] resolves. *)
Lemma launched_try_closes (rest : M response) (w : world) (st st' : state)
  (r : result response) :
  closes rest ->
  launchFails w (calls st) = None ->
  tryCatch (do _ <- launch ;; rest) onFault w st = (r, st') ->
  last (calls st') = Some Close /\ r <> OutOfFuel.
Proof.
  intros Hrest Hlaunch. unfold tryCatch, bind, launch. rewrite Hlaunch.
  specialize (Hrest w (MkState (calls st ++ [Launch]) true) eq_refl).
  destruct (rest w (MkState (calls st ++ [Launch]) true)) as [[resp|e|] st2].
  - intros [= <- <-]. split; [assumption | discriminate].
  - rewrite onFault_run, Hrest.
    destruct (closeFails w (calls st2)); intros [= <- <-];
      (split; [apply last_snoc | discriminate]).
  - contradiction.
Qed.

Lemma main_rest_closes (notionUrl : Js.str) (w : world) (st st' : state)
  (r : result response) :
  launchFails w (calls st) = None ->
  tryCatch (Main.tryBlock Main.loopFuel notionUrl) onFault w st = (r, st') ->
  last (calls st') = Some Close /\ r <> OutOfFuel.
Proof.
  unfold Main.tryBlock. apply launched_try_closes. closes_chain.
Qed.

Lemma dedup_rest_closes (notionUrl : Js.str) (w : world) (st st' : state)
  (r : result response) :
  launchFails w (calls st) = None ->
  tryCatch (Dedup.tryBlock Dedup.loopFuel notionUrl) onFault w st = (r, st') ->
  last (calls st') = Some Close /\ r <> OutOfFuel.
Proof.
  unfold Dedup.tryBlock. apply launched_try_closes. closes_chain.
Qed.

Lemma click_first_rest_closes (notionUrl : Js.str) (w : world) (st st' : state)
  (r : result response) :
  launchFails w (calls st) = None ->
  tryCatch (ClickFirst.tryBlock ClickFirst.loopFuel notionUrl) onFault w st = (r, st') ->
  last (calls st') = Some Close /\ r <> OutOfFuel.
Proof.
  unfold ClickFirst.tryBlock. apply launched_try_closes. closes_chain.
Qed.

(** Either the handler answers at once, or it runs its [try] block. *)
Lemma handler_cases (hostRejected : Js.str -> bool) (tryBlock : Js.str -> M response)
  (req : request) (w : world) (st : state) :
  (exists resp, handler hostRejected tryBlock req w st = (Done resp, st))
  \/ (exists notionUrl,
        reachesTry hostRejected req notionUrl
        /\ handler hostRejected tryBlock req w st
           = tryCatch (tryBlock notionUrl) onFault w st).
Proof.
  destruct (decide (pathname req = js"/scrape")) as [Hp|Hp];
    [|left; eexists; now apply handler_wrong_path].
  destruct (decide (method req = js"OPTIONS")) as [Hm|Hm];
    [left; eexists; now apply handler_options|].
  destruct (urlParam req) as [u|] eqn:Hu.
  - destruct u as [|c u].
    + left. exists missingUrl. rewrite handler_scrape, Hu by assumption. reflexivity.
    + destruct (hostRejected (c :: u)) eqn:Hh.
      * left. exists invalidUrl. rewrite handler_scrape, Hu by assumption.
        simpl. now rewrite Hh.
      * right. exists (c :: u). split; [|apply handler_try];
          (repeat split; [assumption.. | discriminate | assumption]).
  - left. exists missingUrl. rewrite handler_scrape, Hu by assumption. reflexivity.
Qed.

(** Claim C2.  In each of the three revisions, a request that reaches the
    acquisition step ([launch] is among the calls made) and whose browser
    is acquired ([launch] resolves) has [close] as the last call made
    before the handler settles, whatever happens in between: success, or
    a fault in [newPage], the navigation, the wait for the content root,
    the expansion, the final wait, the extraction or [close] itself.  The
    handler does settle: the expansion loop never runs out of fuel. *)
Theorem C2_browser_closed_on_every_path
  (fetch : request -> M response) (req : request) (w : world)
  (r : result response) (st : state) :
  In fetch revisions ->
  fetch req w initial = (r, st) ->
  In Launch (calls st) ->
  launchFails w [] = None ->
  last (calls st) = Some Close /\ In Close (calls st) /\ r <> OutOfFuel.
Proof.
  intros Hrev Hrun Hreached Hlaunch.
  assert (Hgoal : last (calls st) = Some Close /\ r <> OutOfFuel).
  { destruct Hrev as [<-|[<-|[<-|[]]]].
    - unfold Main.fetch in Hrun.
      destruct (handler_cases Main.hostRejected (Main.tryBlock Main.loopFuel) req w initial)
        as [[resp H]|[u [_ H]]]; rewrite H in Hrun.
      + injection Hrun as <- <-. destruct Hreached.
      + now apply (main_rest_closes u w initial).
    - unfold Dedup.fetch in Hrun.
      destruct (handler_cases Dedup.hostRejected (Dedup.tryBlock Dedup.loopFuel) req w initial)
        as [[resp H]|[u [_ H]]]; rewrite H in Hrun.
      + injection Hrun as <- <-. destruct Hreached.
      + now apply (dedup_rest_closes u w initial).
    - unfold ClickFirst.fetch in Hrun.
      destruct (handler_cases ClickFirst.hostRejected
                  (ClickFirst.tryBlock ClickFirst.loopFuel) req w initial)
        as [[resp H]|[u [_ H]]]; rewrite H in Hrun.
      + injection Hrun as <- <-. destruct Hreached.
      + now apply (click_first_rest_closes u w initial). }
  destruct Hgoal as [Hlast Hfuel]. split; [exact Hlast|]. split; [|exact Hfuel].
  apply last_Some in Hlast as [l' ->].
  apply in_or_app. right. left. reflexivity.
Qed.

Lemma C2_browser_closed_on_every_path_witness :
  let run := Main.fetch (Samples.scrapeOf "https://www.notion.so/page")
               Samples.neverReady initial in
  last (calls (snd run)) = Some Close /\ In Close (calls (snd run))
  /\ fst run <> OutOfFuel.
Proof.
  cbv zeta.
  apply (C2_browser_closed_on_every_path Main.fetch
           (Samples.scrapeOf "https://www.notion.so/page") Samples.neverReady).
  - left. reflexivity.
  - vm_compute. reflexivity.
  - vm_compute. left. reflexivity.
  - reflexivity.
Defined.

(** ** The DOM: facts about handles and queries *)

Module DomFacts.

Import Dom.
Export Paths.

(** Induction on nodes, with the property known for every child. *)
Lemma node_induction (P : node -> Prop) :
  (forall d, P (Text d)) ->
  (forall tag attrs cs, Forall P cs -> P (Elem tag attrs cs)) ->
  forall n, P n.
Proof.
  intros HT HE. fix IH 1. intros [d|tag attrs cs].
  - apply HT.
  - apply HE. induction cs as [|c cs IHcs]; constructor; [apply IH | exact IHcs].
Qed.

Lemma walk_Elem anc p tag attrs cs :
  walk anc p (Elem tag attrs cs) =
  Handle p anc (Elem tag attrs cs)
  :: walkChildren ((p, Elem tag attrs cs) :: anc) p 0 cs.
Proof.
  simpl. f_equal. generalize ((p, Elem tag attrs cs) :: anc). generalize 0.
  induction cs as [|c cs IH]; intros i A; simpl; [reflexivity | now rewrite IH].
Qed.

Lemma removeAll_Elem sel anc tag attrs cs :
  removeAll sel anc (Elem tag attrs cs) =
  Elem tag attrs (removeChildren sel (Elem tag attrs cs :: anc) cs).
Proof.
  simpl. f_equal. generalize (Elem tag attrs cs :: anc).
  induction cs as [|c cs IH]; intros A; simpl; [reflexivity | now rewrite IH].
Qed.

Lemma locate_text anc p d s : locate anc p (Text d) s = None.
Proof. destruct s as [|i s]; simpl; [reflexivity | now destruct i]. Qed.

Lemma in_walkChildren anc p cs h :
  forall i,
    In h (walkChildren anc p i cs) <->
    exists j c, nth_error cs j = Some c /\ In h (walk anc (p ++ [i + j]) c).
Proof.
  induction cs as [|c cs IH]; intros i; simpl.
  - split; [intros [] | intros (j & c & Hj & _); now destruct j].
  - rewrite in_app_iff, IH. split.
    + intros [H|(j & c' & Hj & H)].
      * exists 0, c. rewrite Nat.add_0_r. auto.
      * exists (S j), c'. rewrite Nat.add_succ_r. auto.
    + intros ([|j] & c' & Hj & H); simpl in Hj.
      * injection Hj as <-. rewrite Nat.add_0_r in H. auto.
      * right. exists j, c'. rewrite Nat.add_succ_r in H. auto.
Qed.

(** The handles of a walk are the elements that can be located. *)
Lemma in_walk n :
  forall anc p h, In h (walk anc p n) <-> exists s, locate anc p n s = Some h.
Proof.
  induction n as [d|tag attrs cs IH] using node_induction; intros anc p h.
  - simpl. split; [intros [] | intros [s Hs]; now rewrite locate_text in Hs].
  - rewrite walk_Elem. simpl In. rewrite in_walkChildren. split.
    + intros [<-|(j & c & Hj & Hin)].
      * now exists [].
      * rewrite List.Forall_forall in IH.
        apply (IH c (nth_error_In _ _ Hj)) in Hin as [s Hs].
        exists (j :: s). simpl. now rewrite Hj.
    + intros [[|j s] Hs]; simpl in Hs.
      * left. congruence.
      * right. destruct (nth_error cs j) as [c|] eqn:Hj; [|discriminate].
        exists j, c. split; [exact Hj|].
        rewrite List.Forall_forall in IH. apply (IH c (nth_error_In _ _ Hj)). eauto.
Qed.

Lemma locate_path s :
  forall anc p n h, locate anc p n s = Some h -> hpath h = p ++ s.
Proof.
  induction s as [|i s IH]; intros anc p n h; simpl.
  - destruct (isElem n); [|discriminate]. intros [= <-]. simpl. now rewrite app_nil_r.
  - destruct (nth_error (children n) i) as [c|]; [|discriminate].
    intros H. apply IH in H. now rewrite H, <- app_assoc.
Qed.

Lemma locate_isElem s :
  forall anc p n h, locate anc p n s = Some h -> isElem (hnode h) = true.
Proof.
  induction s as [|i s IH]; intros anc p n h; simpl.
  - destruct (isElem n) eqn:He; [|discriminate]. now intros [= <-].
  - destruct (nth_error (children n) i) as [c|]; [|discriminate]. apply IH.
Qed.

(** Locating along [s ++ t] is locating along [s], then along [t]. *)
Lemma locate_app s t :
  forall anc p n,
    locate anc p n (s ++ t) =
    match locate anc p n s with
    | Some h => locate (hanc h) (hpath h) (hnode h) t
    | None => None
    end.
Proof.
  induction s as [|i s IH]; intros anc p n; simpl.
  - destruct n as [d|tag attrs cs]; simpl; [apply locate_text | reflexivity].
  - destruct (nth_error (children n) i) as [c|]; [apply IH | reflexivity].
Qed.

Lemma in_descendants h d :
  In d (descendants h) <->
  exists i s, locate (hanc h) (hpath h) (hnode h) (i :: s) = Some d.
Proof.
  unfold descendants. rewrite in_walkChildren. simpl. split.
  - intros (j & c & Hj & Hin). apply in_walk in Hin as [s Hs].
    exists j, s. now rewrite Hj.
  - intros (i & s & Hs). destruct (nth_error (children (hnode h)) i) as [c|] eqn:Hi;
      [|discriminate].
    exists i, c. split; [exact Hi|]. apply in_walk. eauto.
Qed.

(** A descendant lies strictly deeper, below the path of its ancestor. *)
Lemma descendants_path h d :
  In d (descendants h) -> exists i s, hpath d = hpath h ++ i :: s.
Proof.
  intros Hd. apply in_descendants in Hd as (i & s & Hs).
  exists i, s. now apply locate_path in Hs.
Qed.

Lemma descendants_deeper h d :
  In d (descendants h) -> length (hpath h) < length (hpath d).
Proof.
  intros Hd. apply descendants_path in Hd as (i & s & ->).
  rewrite length_app. simpl. lia.
Qed.

(** Descendants of descendants are descendants. *)
Lemma descendants_trans r b d :
  In b (descendants r) -> In d (descendants b) -> In d (descendants r).
Proof.
  rewrite !in_descendants. intros (i & s & Hb) (j & t & Hd).
  exists i, (s ++ j :: t).
  change (i :: s ++ j :: t) with ((i :: s) ++ j :: t).
  now rewrite locate_app, Hb.
Qed.

(** Two located handles with the same path are the same handle. *)
Lemma locate_unique anc p n s t h k :
  locate anc p n s = Some h -> locate anc p n t = Some k ->
  hpath h = hpath k -> h = k.
Proof.
  intros Hs Ht Hp.
  rewrite (locate_path _ _ _ _ _ Hs), (locate_path _ _ _ _ _ Ht) in Hp.
  apply app_inv_head in Hp. subst t. congruence.
Qed.

(** Among the descendants of [r], an element whose path extends the path
    of [b] is [b] itself or lies below [b]. *)
Lemma descendants_below r b d :
  In b (descendants r) -> In d (descendants r) ->
  (exists t, hpath d = hpath b ++ t) ->
  d = b \/ In d (descendants b).
Proof.
  intros Hb Hd [t Ht].
  apply in_descendants in Hb as (i & s & Hb).
  apply in_descendants in Hd as (j & u & Hd).
  pose proof (locate_path _ _ _ _ _ Hb) as Pb.
  pose proof (locate_path _ _ _ _ _ Hd) as Pd.
  rewrite Pb, Pd, <- app_assoc in Ht. apply app_inv_head in Ht.
  rewrite Ht, locate_app, Hb in Hd.
  destruct t as [|k t].
  - left. simpl in Hd. destruct (isElem (hnode b)); [|discriminate].
    destruct b. simpl in Hd. congruence.
  - right. apply in_descendants. eauto.
Qed.

Lemma locate_ancestry s :
  forall anc p n h,
    ancestry anc p -> locate anc p n s = Some h -> ancestry (hanc h) (hpath h).
Proof.
  induction s as [|i s IH]; intros anc p n h Hanc; simpl.
  - destruct (isElem n); [|discriminate]. now intros [= <-].
  - destruct (nth_error (children n) i) as [c|]; [|discriminate].
    apply IH. destruct Hanc as [Hall _]. split.
    + constructor; simpl.
      * rewrite length_app. simpl. lia.
      * eapply Forall_impl; [exact Hall|]. intros a Ha. simpl in Ha |- *.
        rewrite length_app. simpl. lia.
    + now exists i.
Qed.

Lemma elements_ancestry doc h :
  In h (elements doc) -> ancestry (hanc h) (hpath h).
Proof.
  intros Hin. apply in_walk in Hin as [s Hs].
  apply (locate_ancestry s [] [] doc h); [|exact Hs].
  split; [constructor | exact I].
Qed.

Lemma descendants_ancestry r d :
  ancestry (hanc r) (hpath r) -> In d (descendants r) -> ancestry (hanc d) (hpath d).
Proof.
  intros Hr Hd. apply in_descendants in Hd as (i & s & Hs).
  exact (locate_ancestry _ _ _ _ _ Hr Hs).
Qed.

Lemma closestIn_in anc sel h :
  closestIn anc sel = Some h -> In (hpath h, hnode h) anc.
Proof.
  induction anc as [|[q m] anc IH]; simpl; [discriminate|].
  destruct (matchSelector (List.map snd anc) m sel).
  - intros [= <-]. now left.
  - intros H. right. auto.
Qed.

Lemma find_none_filter {A} (f : A -> bool) (l : list A) :
  List.find f l = None <-> List.filter f l = [].
Proof.
  induction l as [|x l IH]; simpl; [tauto|].
  destruct (f x); [split; discriminate | exact IH].
Qed.

Lemma filter_nil_forall {A} (f : A -> bool) (l : list A) :
  List.filter f l = [] <-> forall x, In x l -> f x = false.
Proof.
  induction l as [|x l IH]; simpl.
  - split; [intros _ x [] | reflexivity].
  - destruct (f x) eqn:Hx.
    + split; [discriminate|]. intros H. specialize (H x (or_introl eq_refl)). congruence.
    + rewrite IH. split.
      * intros H y [<-|Hy]; auto.
      * intros H y Hy. auto.
Qed.

End DomFacts.

(** ** The extractors: what a block yields *)

Module ExtractFacts.

Import Dom Extractor DomFacts.
Export Markers.

Lemma existsb_walk f n :
  forall anc p,
    existsb (fun d => f (hnode d)) (walk anc p n) = (isElem n && f n) || anyBelow f n.
Proof.
  induction n as [d|tag attrs cs IH] using node_induction; intros anc p.
  - reflexivity.
  - rewrite walk_Elem. cbn [existsb hnode isElem andb anyBelow]. f_equal.
    generalize ((p, Elem tag attrs cs) :: anc) as A. generalize 0 as i.
    induction IH as [|c cs Hc _ IHcs]; intros i A; simpl; [reflexivity|].
    now rewrite existsb_app, Hc, IHcs.
Qed.

Lemma existsb_walkChildren f cs :
  forall i A p,
    existsb (fun d => f (hnode d)) (walkChildren A p i cs)
    = existsb (fun c => (isElem c && f c) || anyBelow f c) cs.
Proof.
  induction cs as [|c cs IH]; intros i A p; simpl; [reflexivity|].
  now rewrite existsb_app, existsb_walk, IH.
Qed.

Lemma existsb_descendants f h :
  existsb (fun d => f (hnode d)) (descendants h) = anyBelow f (hnode h).
Proof.
  unfold descendants. rewrite existsb_walkChildren.
  now destruct (hnode h).
Qed.

Lemma matchComplex_single anc n c :
  matchComplex anc n [c] = matchCompound n c.
Proof.
  unfold matchComplex. simpl.
  destruct anc; simpl; apply andb_true_r.
Qed.

Lemma blockSelector_local : localSelector blockSelector.
Proof.
  intros anc anc' n. unfold matchSelector, blockSelector. simpl.
  now rewrite !matchComplex_single.
Qed.

Lemma mediaSelector_local : localSelector mediaSelector.
Proof.
  intros anc anc' n. unfold matchSelector, mediaSelector. simpl.
  now rewrite !matchComplex_single.
Qed.

(** Nothing is removed from a clone in which nothing matches. *)
Lemma removeAll_nothing sel n :
  localSelector sel ->
  anyBelow (fun c => matchSelector [] c sel) n = false ->
  forall anc, removeAll sel anc n = n.
Proof.
  intros Hloc.
  induction n as [d|tag attrs cs IH] using node_induction; intros Hany anc;
    [reflexivity|].
  rewrite removeAll_Elem. f_equal. simpl in Hany.
  generalize (Elem tag attrs cs :: anc) as A.
  induction IH as [|c cs Hc _ IHcs]; intros A; simpl; [reflexivity|].
  simpl in Hany. apply orb_false_elim in Hany as [Hhere Hrest].
  apply orb_false_elim in Hhere as [Hself Hbelow].
  rewrite (Hloc A [] c), Hself, Hc, IHcs by assumption. reflexivity.
Qed.

Lemma removeAll_no_match sel h :
  localSelector sel ->
  (forall d, In d (descendants h) -> matches sel d = false) ->
  removeAll sel [] (cloneNode h) = hnode h.
Proof.
  intros Hloc Hnone. apply removeAll_nothing; [exact Hloc|].
  rewrite <- existsb_descendants. apply not_true_is_false. intros Hex.
  apply existsb_exists in Hex as (d & Hd & Hm).
  specialize (Hnone d Hd). unfold matches in Hnone.
  rewrite (Hloc _ [] _) in Hnone. congruence.
Qed.

(** *** Media markers, read off the element *)

Lemma found_find (f : handle -> bool) (l : list handle) :
  ExtractTopLevel.found (List.find f l) = existsb f l.
Proof.
  induction l as [|x l IH]; simpl; [reflexivity|].
  destruct (f x); [reflexivity | exact IH].
Qed.

Lemma existsb_orb {A} (f g : A -> bool) (l : list A) :
  existsb f l || existsb g l = existsb (fun x => f x || g x) l.
Proof.
  induction l as [|x l IH]; simpl; [reflexivity|].
  rewrite <- IH. destruct (f x), (g x), (existsb f l), (existsb g l); reflexivity.
Qed.

Lemma existsb_pointwise {A} (f g : A -> bool) (l : list A) :
  (forall x, f x = g x) -> existsb f l = existsb g l.
Proof.
  intros H. induction l as [|x l IH]; simpl; [reflexivity | now rewrite H, IH].
Qed.

Lemma matches_tag name h :
  matches (tagSelector name) h = matchSimple (hnode h) (Tag name).
Proof.
  unfold matches, matchSelector, tagSelector. simpl.
  rewrite matchComplex_single. unfold matchCompound. simpl.
  now rewrite andb_true_r, orb_false_r.
Qed.

Lemma matches_class value h :
  matches (classContains value) h = matchSimple (hnode h) (AttrContains (js"class") value).
Proof.
  unfold matches, matchSelector, classContains. simpl.
  rewrite matchComplex_single. unfold matchCompound. simpl.
  now rewrite andb_true_r, orb_false_r.
Qed.

Lemma matches_block h :
  matches blockSelector h = matchSimple (hnode h) (HasAttr (js"data-block-id")).
Proof.
  unfold matches, matchSelector, blockSelector. simpl.
  rewrite matchComplex_single. unfold matchCompound. simpl.
  now rewrite andb_true_r, orb_false_r.
Qed.

(** The test of lines 156-163 is: some descendant is skip-marked. *)
Lemma hasSkipMarker_spec b :
  ExtractTopLevel.hasSkipMarker b
  = existsb (fun d => skipMarked (hnode d)) (descendants b).
Proof.
  unfold ExtractTopLevel.hasSkipMarker, querySelector.
  rewrite !found_find, !existsb_orb. apply existsb_pointwise. intros d.
  rewrite !matches_tag, !matches_class.
  destruct (hnode d) as [t|tag attrs cs]; [reflexivity|].
  unfold matchSimple, skipMarked, classHints.
  destruct (lookupAttr (js"class") attrs) as [v|]; simpl.
  - destruct (Js.eqb tag (js"img")), (Js.eqb tag (js"svg")),
      (Js.includes v (js"image")), (Js.includes v (js"embed")),
      (Js.includes v (js"video")), (Js.includes v (js"file")); reflexivity.
  - destruct (Js.eqb tag (js"img")), (Js.eqb tag (js"svg")); reflexivity.
Qed.

Lemma skipMarked_media n : skipMarked n = true -> mediaMarked n = true.
Proof.
  destruct n as [t|tag attrs cs]; [discriminate|].
  unfold skipMarked, mediaMarked, mediaTags. simpl.
  destruct (Js.eqb tag (js"img")), (Js.eqb tag (js"svg")); simpl; auto.
  intros ->. now rewrite orb_true_r.
Qed.

Lemma mediaSelector_media anc n :
  matchSelector anc n mediaSelector = true -> mediaMarked n = true.
Proof.
  unfold matchSelector, mediaSelector. simpl. rewrite !matchComplex_single.
  destruct n as [t|tag attrs cs]; [discriminate|].
  unfold matchCompound, mediaMarked, mediaTags. simpl.
  rewrite !andb_true_r, orb_false_r. intros H.
  apply orb_true_iff. left.
  destruct (Js.eqb tag (js"img")), (Js.eqb tag (js"svg")), (Js.eqb tag (js"video")),
    (Js.eqb tag (js"audio")), (Js.eqb tag (js"iframe")); simpl in *; congruence.
Qed.

Lemma noMedia_not_skipped b : noMedia b -> ExtractTopLevel.hasSkipMarker b = false.
Proof.
  intros Hno. rewrite hasSkipMarker_spec. apply not_true_is_false. intros Hex.
  apply existsb_exists in Hex as (d & Hd & Hm).
  apply skipMarked_media in Hm. rewrite (Hno d Hd) in Hm. discriminate.
Qed.

Lemma noMedia_strip b : noMedia b -> removeAll mediaSelector [] (hnode b) = hnode b.
Proof.
  intros Hno. apply (removeAll_no_match mediaSelector b mediaSelector_local).
  intros d Hd. apply not_true_is_false. intros Hm.
  apply mediaSelector_media in Hm. rewrite (Hno d Hd) in Hm. discriminate.
Qed.

End ExtractFacts.

(** ** The loops over the blocks *)

Module CollectFacts.

Import Dom Extractor DomFacts ExtractFacts.

Lemma keepText_spec (t : Js.str) : keepText t = true <-> t <> [].
Proof.
  destruct t as [|c t]; unfold keepText; simpl.
  - split; [discriminate | intros H; now elim H].
  - split; [discriminate | reflexivity].
Qed.

Lemma keepText_nonempty (t : Js.str) : t <> [] -> keepText t = true.
Proof. apply keepText_spec. Qed.

(** [src/index.ts]: the entries are the kept texts of the blocks that are
    not skipped, in order. *)
Lemma main_fold (l : list handle) :
  forall acc,
    fold_left ExtractTopLevel.visit l acc
    = acc ++ List.filter keepText
               (List.map ExtractTopLevel.blockText
                  (List.filter (fun b => negb (ExtractTopLevel.hasSkipMarker b)) l)).
Proof.
  induction l as [|b l IH]; intros acc; simpl; [now rewrite app_nil_r|].
  rewrite IH. unfold ExtractTopLevel.visit.
  destruct (ExtractTopLevel.hasSkipMarker b); simpl; [reflexivity|].
  destruct (keepText (ExtractTopLevel.blockText b)); [|reflexivity].
  now rewrite <- app_assoc.
Qed.

Lemma main_collect (l : list handle) :
  ExtractTopLevel.collect l
  = List.filter keepText
      (List.map ExtractTopLevel.blockText
         (List.filter (fun b => negb (ExtractTopLevel.hasSkipMarker b)) l)).
Proof. unfold ExtractTopLevel.collect. now rewrite main_fold. Qed.

(** The click-first revision: the kept texts of all blocks, in order. *)
Lemma naive_fold (l : list handle) :
  forall acc,
    fold_left ExtractNaive.visit l acc
    = acc ++ List.filter keepText (List.map ExtractNaive.blockText l).
Proof.
  induction l as [|b l IH]; intros acc; simpl; [now rewrite app_nil_r|].
  rewrite IH. unfold ExtractNaive.visit.
  destruct (keepText (ExtractNaive.blockText b)); [|reflexivity].
  now rewrite <- app_assoc.
Qed.

Lemma naive_collect (l : list handle) :
  ExtractNaive.collect l = List.filter keepText (List.map ExtractNaive.blockText l).
Proof. unfold ExtractNaive.collect. now rewrite naive_fold. Qed.

(** The de-duplicating revision.  [seenTexts] holds exactly the entries
    pushed so far, which are pairwise distinct; an entry is pushed for
    every non-empty text met. *)

Lemma dedup_fold (l : list handle) :
  forall parts seen,
    tracks seen parts -> List.NoDup parts ->
    exists parts' seen',
      fold_left ExtractDirect.visit l (parts, seen) = (parts', seen')
      /\ tracks seen' parts'
      /\ List.NoDup parts'
      /\ (forall t, In t parts' <->
            In t parts \/ (t <> [] /\ In t (List.map ExtractDirect.getDirectText l))).
Proof.
  induction l as [|b l IH]; intros parts seen Htr Hnd; simpl.
  - exists parts, seen. split; [reflexivity|]. split; [exact Htr|].
    split; [exact Hnd|]. intros t. tauto.
  - set (text := ExtractDirect.getDirectText b).
    destruct (Nat.ltb 0 (length text) && negb (bool_decide (text ∈ seen))) eqn:Hpush.
    + apply andb_true_iff in Hpush as [Hlen Hnew].
      apply Nat.ltb_lt in Hlen. apply negb_true_iff, bool_decide_eq_false in Hnew.
      destruct (IH (parts ++ [text]) ({[ text ]} ∪ seen)) as (parts' & seen' & Hf & Htr' & Hnd' & Hin).
      * intros t. rewrite elem_of_union, elem_of_singleton, in_app_iff, (Htr t).
        simpl. intuition congruence.
      * apply List.NoDup_app; [exact Hnd | repeat constructor; intros [] |].
        intros t Ht [<-|[]]. apply Hnew, Htr, Ht.
      * exists parts', seen'. split; [exact Hf|]. split; [exact Htr'|]. split; [exact Hnd'|].
        intros t. rewrite Hin, in_app_iff. simpl.
        assert (text <> []) by (intros E; rewrite E in Hlen; simpl in Hlen; lia).
        intuition (subst; auto; try congruence).
    + destruct (IH parts seen Htr Hnd) as (parts' & seen' & Hf & Htr' & Hnd' & Hin).
      exists parts', seen'. split; [exact Hf|]. split; [exact Htr'|]. split; [exact Hnd'|].
      intros t. rewrite Hin. split; [intuition auto|].
      intros [H|[Hne [<-|H]]]; auto.
      apply andb_false_iff in Hpush as [Hlen|Hseen].
      * apply Nat.ltb_ge in Hlen. destruct text; [congruence | simpl in Hlen; lia].
      * apply negb_false_iff, bool_decide_eq_true in Hseen. left. now apply Htr.
Qed.

Lemma dedup_collect (l : list handle) :
  List.NoDup (fst (ExtractDirect.collect l))
  /\ (forall t, In t (fst (ExtractDirect.collect l)) <->
        t <> [] /\ In t (List.map ExtractDirect.getDirectText l)).
Proof.
  unfold ExtractDirect.collect.
  destruct (dedup_fold l [] ∅) as (parts' & seen' & Hf & _ & Hnd & Hin).
  - intros t. rewrite elem_of_empty. simpl. tauto.
  - constructor.
  - rewrite Hf. simpl. split; [exact Hnd|]. intros t. rewrite Hin. simpl. tauto.
Qed.

Lemma dedup_visit_push (parts : list Js.str) (seen : gset Js.str) (b : handle) :
  ExtractDirect.getDirectText b <> [] ->
  ExtractDirect.getDirectText b ∉ seen ->
  ExtractDirect.visit (parts, seen) b
  = (parts ++ [ExtractDirect.getDirectText b],
     {[ ExtractDirect.getDirectText b ]} ∪ seen).
Proof.
  intros Hne Hnew. unfold ExtractDirect.visit.
  rewrite bool_decide_eq_false_2 by exact Hnew.
  destruct (ExtractDirect.getDirectText b); [congruence | reflexivity].
Qed.

(** When the texts are non-empty and pairwise distinct, each is pushed. *)
Lemma dedup_fold_distinct (l : list handle) :
  forall parts seen,
    tracks seen parts ->
    List.NoDup (parts ++ List.map ExtractDirect.getDirectText l) ->
    Forall (fun b => ExtractDirect.getDirectText b <> []) l ->
    fst (fold_left ExtractDirect.visit l (parts, seen))
    = parts ++ List.map ExtractDirect.getDirectText l.
Proof.
  induction l as [|b l IH]; intros parts seen Htr Hnd Hne.
  - simpl. now rewrite app_nil_r.
  - inversion Hne as [|? ? Hb Hl]; subst.
    cbn [fold_left List.map] in *. rewrite dedup_visit_push.
    + rewrite IH.
      * now rewrite <- app_assoc.
      * intros t. rewrite elem_of_union, elem_of_singleton, in_app_iff, (Htr t).
        simpl. intuition congruence.
      * now rewrite <- app_assoc.
      * exact Hl.
    + exact Hb.
    + intros Hs. apply Htr in Hs.
      apply List.NoDup_remove_2 in Hnd. apply Hnd, in_or_app. now left.
Qed.

Lemma count_two {A} (eq_dec : forall x y : A, {x = y} + {x <> y})
  (l : list A) (i j : nat) (x : A) :
  i <> j -> nth_error l i = Some x -> nth_error l j = Some x ->
  2 <= count_occ eq_dec l x.
Proof.
  revert i j. induction l as [|y l IH]; intros i j Hij Hi Hj.
  - now destruct i.
  - destruct i as [|i], j as [|j]; simpl in Hi, Hj; [congruence | | |].
    + injection Hi as ->. rewrite count_occ_cons_eq by reflexivity.
      apply nth_error_In in Hj. apply (count_occ_In eq_dec) in Hj. lia.
    + injection Hj as ->. rewrite count_occ_cons_eq by reflexivity.
      apply nth_error_In in Hi. apply (count_occ_In eq_dec) in Hi. lia.
    + assert (2 <= count_occ eq_dec l x) by (apply (IH i j); auto).
      simpl. destruct (eq_dec y x); lia.
Qed.

Lemma count_filter_kept {A} (eq_dec : forall x y : A, {x = y} + {x <> y})
  (f : A -> bool) (l : list A) (x : A) :
  f x = true -> count_occ eq_dec (List.filter f l) x = count_occ eq_dec l x.
Proof.
  intros Hx. induction l as [|y l IH]; simpl; [reflexivity|].
  destruct (f y) eqn:Hy; simpl; destruct (eq_dec y x) as [->|Hne]; try congruence.
Qed.

End CollectFacts.

(** ** A run in which no call fails *)

Section SuccessfulRun.

Variable w : world.
Variable doc : Dom.document.
Hypothesis w_resolves : resolves w.
Hypothesis w_shows : shows w doc.

Lemma returns_bind {A B} (m : M A) (k : A -> M B) (P : A -> Prop) (Q : B -> Prop) :
  returns w m P -> (forall a, P a -> returns w (k a) Q) -> returns w (bind m k) Q.
Proof.
  intros Hm Hk st. destruct (Hm st) as (a & st1 & Hrun & Ha).
  destruct (Hk a Ha st1) as (b & st2 & Hrun' & Hb).
  exists b, st2. unfold bind. now rewrite Hrun.
Qed.

Lemma returns_ret {A} (a : A) (P : A -> Prop) : P a -> returns w (ret a) P.
Proof. intros Ha st. now exists a, st. Qed.

Lemma returns_launch : returns w launch (fun _ => True).
Proof.
  intros st. unfold launch. rewrite (proj1 (w_resolves _)). eauto.
Qed.

Lemma returns_perform (c : call) (fails : world -> list call -> option thrown) :
  (forall h, fails w h = None) -> returns w (perform c fails) (fun _ => True).
Proof. intros H st. rewrite perform_run, H. eauto. Qed.

Lemma returns_newPage : returns w newPage (fun _ => True).
Proof. apply returns_perform. intros h. apply w_resolves. Qed.

Lemma returns_goto url waitUntil timeout :
  returns w (goto url waitUntil timeout) (fun _ => True).
Proof. apply returns_perform. intros h. apply w_resolves. Qed.

Lemma returns_waitForSelector sel timeout :
  returns w (waitForSelector sel timeout) (fun _ => True).
Proof. apply returns_perform. intros h. apply w_resolves. Qed.

Lemma returns_waitForTimeout ms : returns w (waitForTimeout ms) (fun _ => True).
Proof. apply returns_perform. intros h. apply w_resolves. Qed.

Lemma returns_close : returns w close (fun _ => True).
Proof. apply returns_perform. intros h. apply w_resolves. Qed.

Lemma returns_extract (f : Dom.document -> ExtractionResult) :
  returns w (evaluate ExtractContent documentSeen f) (fun r => r = f doc).
Proof. intros st. rewrite evaluate_run, w_shows. eauto. Qed.

Lemma returns_main_expand : returns w (Main.expandToggles Main.loopFuel) (fun _ => True).
Proof.
  intros st. destruct (main_expand_bound Main.loopFuel w st) as (evs & -> & _);
    [unfold Main.loopFuel; lia | eauto].
Qed.

Lemma returns_dedup_expand : returns w (Dedup.expandToggles Dedup.loopFuel) (fun _ => True).
Proof.
  intros st. destruct (dedup_expand_bound Dedup.loopFuel w st) as (evs & -> & _);
    [unfold Dedup.loopFuel; lia | eauto].
Qed.

Lemma returns_click_first_expand :
  returns w (ClickFirst.expandToggles ClickFirst.loopFuel) (fun _ => True).
Proof.
  intros st. destruct (click_first_expand_bound ClickFirst.loopFuel w st) as (evs & -> & _);
    [unfold ClickFirst.loopFuel; lia | eauto].
Qed.

Lemma returns_tryCatch {A} (m : M A) (handler : thrown -> M A) (P : A -> Prop) :
  returns w m P -> returns w (tryCatch m handler) P.
Proof.
  intros Hm st. destruct (Hm st) as (a & st' & Hrun & Ha).
  exists a, st'. unfold tryCatch. now rewrite Hrun.
Qed.

End SuccessfulRun.

(** Walks down a [try] block whose calls all resolve. *)
Ltac returns_chain :=
  repeat (eapply returns_bind;
          [ first [ now apply returns_launch | now apply returns_newPage
                  | now apply returns_goto | now apply returns_waitForSelector
                  | now apply returns_waitForTimeout | now apply returns_close
                  | now apply returns_extract | now apply returns_main_expand
                  | now apply returns_dedup_expand
                  | now apply returns_click_first_expand ]
          | cbv beta; intros ? ? ]);
  apply returns_ret.

Lemma main_run_success (w : world) (doc : Dom.document) (notionUrl : Js.str) :
  resolves w -> shows w doc ->
  returns w (tryCatch (Main.tryBlock Main.loopFuel notionUrl) onFault)
    (fun resp => resp = success (ExtractTopLevel.extract doc)).
Proof.
  intros Hres Hdoc. apply returns_tryCatch. unfold Main.tryBlock.
  returns_chain. congruence.
Qed.

Lemma dedup_run_success (w : world) (doc : Dom.document) (notionUrl : Js.str) :
  resolves w -> shows w doc ->
  returns w (tryCatch (Dedup.tryBlock Dedup.loopFuel notionUrl) onFault)
    (fun resp => resp = success (ExtractDirect.extract doc)).
Proof.
  intros Hres Hdoc. apply returns_tryCatch. unfold Dedup.tryBlock.
  returns_chain. congruence.
Qed.

Lemma click_first_run_success (w : world) (doc : Dom.document) (notionUrl : Js.str) :
  resolves w -> shows w doc ->
  returns w (tryCatch (ClickFirst.tryBlock ClickFirst.loopFuel notionUrl) onFault)
    (fun resp => resp = success (ExtractNaive.extract doc)).
Proof.
  intros Hres Hdoc. apply returns_tryCatch. unfold ClickFirst.tryBlock.
  returns_chain. congruence.
Qed.

(** ** Extraction: the content root *)

Section ContentRoot.

Import Dom Extractor DomFacts ExtractFacts.

Lemma matches_contentRoot h :
  matches contentRootSelector h = true <->
  getAttribute (hnode h) rootMarker = Some (js"true").
Proof.
  unfold matches, matchSelector, contentRootSelector. simpl.
  rewrite matchComplex_single. unfold matchCompound. simpl.
  rewrite andb_true_r, orb_false_r.
  destruct (hnode h) as [d|tag attrs cs]; simpl; [split; discriminate|].
  fold rootMarker. destruct (lookupAttr rootMarker attrs) as [v|]; [|split; discriminate].
  rewrite eqb_true. split; congruence.
Qed.

Lemma contentRoot_none doc :
  (forall h, In h (elements doc) ->
             getAttribute (hnode h) rootMarker <> Some (js"true")) ->
  contentRoot doc = None.
Proof.
  intros Hnone. unfold contentRoot, docQuerySelector.
  apply find_none_filter, filter_nil_forall. intros h Hh.
  apply not_true_is_false. intros Hm. apply matches_contentRoot in Hm.
  exact (Hnone h Hh Hm).
Qed.

Lemma contentRoot_in doc root :
  contentRoot doc = Some root -> In root (elements doc).
Proof. intros H. now apply find_some in H. Qed.

End ContentRoot.

(** ** Extraction: repeated texts *)

Lemma direct_content doc root :
  Extractor.contentRoot doc = Some root ->
  content (ExtractDirect.extract doc)
  = Js.join Extractor.blankLine (ExtractDirect.contentParts root).
Proof. intros H. unfold ExtractDirect.extract. now rewrite H. Qed.

Lemma naive_content doc root :
  Extractor.contentRoot doc = Some root ->
  content (ExtractNaive.extract doc)
  = Js.join Extractor.blankLine (ExtractNaive.contentParts root).
Proof. intros H. unfold ExtractNaive.extract. now rewrite H. Qed.

Lemma main_content doc root :
  Extractor.contentRoot doc = Some root ->
  content (ExtractTopLevel.extract doc)
  = Js.join Extractor.blankLine (ExtractTopLevel.contentParts root).
Proof. intros H. unfold ExtractTopLevel.extract. now rewrite H. Qed.

(** Claim C9, as the code has it.  Take two distinct blocks under the
    content root (two positions of the block list) whose extracted texts
    are the same non-empty string.  In the de-duplicating revision the
    entries joined into [content] hold that text exactly once.  In the
    click-first revision, which does not de-duplicate, every block with
    that text has its own entry, so there are at least two, and exactly as
    many as there are such blocks. *)
Theorem C9_repeated_text
  (doc : Dom.document) (root bi bj : Dom.handle) (i j : nat) :
  Extractor.contentRoot doc = Some root ->
  i <> j ->
  nth_error (Extractor.allBlocksOf root) i = Some bi ->
  nth_error (Extractor.allBlocksOf root) j = Some bj ->
  (ExtractDirect.getDirectText bi = ExtractDirect.getDirectText bj ->
   ExtractDirect.getDirectText bi <> [] ->
   content (ExtractDirect.extract doc)
     = Js.join Extractor.blankLine (ExtractDirect.contentParts root)
   /\ entries (ExtractDirect.getDirectText bi) (ExtractDirect.contentParts root) = 1)
  /\ (ExtractNaive.blockText bi = ExtractNaive.blockText bj ->
      ExtractNaive.blockText bi <> [] ->
      content (ExtractNaive.extract doc)
        = Js.join Extractor.blankLine (ExtractNaive.contentParts root)
      /\ 2 <= entries (ExtractNaive.blockText bi) (ExtractNaive.contentParts root)
      /\ entries (ExtractNaive.blockText bi) (ExtractNaive.contentParts root)
         = entries (ExtractNaive.blockText bi)
             (List.map ExtractNaive.blockText (Extractor.allBlocksOf root))).
Proof.
  intros Hroot Hij Hi Hj. split.
  - intros Hsame Hne. split; [now apply direct_content|].
    unfold entries, ExtractDirect.contentParts.
    destruct (CollectFacts.dedup_collect (Extractor.allBlocksOf root)) as [Hnd Hin].
    apply (proj1 (NoDup_count_occ' strDec _) Hnd).
    apply Hin. split; [exact Hne|].
    apply in_map. eapply nth_error_In. exact Hi.
  - intros Hsame Hne. split; [now apply naive_content|].
    unfold entries, ExtractNaive.contentParts.
    rewrite CollectFacts.naive_collect.
    rewrite CollectFacts.count_filter_kept by (now apply CollectFacts.keepText_nonempty).
    split; [|reflexivity].
    apply (CollectFacts.count_two strDec _ i j); [exact Hij | |].
    + now apply map_nth_error.
    + rewrite Hsame. now apply map_nth_error.
Qed.

Lemma C9_repeated_text_witness :
  let root := Samples.rootOf Samples.twins in
  let b0 := Samples.blockAt Samples.twins 0 in
  entries (ExtractDirect.getDirectText b0) (ExtractDirect.contentParts root) = 1
  /\ 2 <= entries (ExtractNaive.blockText b0) (ExtractNaive.contentParts root).
Proof.
  cbv zeta.
  destruct (C9_repeated_text Samples.twins (Samples.rootOf Samples.twins)
              (Samples.blockAt Samples.twins 0) (Samples.blockAt Samples.twins 1) 0 1)
    as [Hdedup Hnaive].
  - vm_compute. reflexivity.
  - lia.
  - vm_compute. reflexivity.
  - vm_compute. reflexivity.
  - split.
    + apply Hdedup; [vm_compute; reflexivity | vm_compute; discriminate].
    + apply Hnaive; [vm_compute; reflexivity | vm_compute; discriminate].
Defined.

(** Claim C9 as stated fails: two distinct blocks whose texts are both the
    empty string (byte-identical) leave no entry at all, in the
    de-duplicating revision as in the click-first one. *)
Lemma C9_empty_texts_leave_no_entry :
  let doc := Samples.blanks in
  let root := Samples.rootOf doc in
  let b0 := Samples.blockAt doc 0 in
  let b1 := Samples.blockAt doc 1 in
  Extractor.contentRoot doc = Some root
  /\ nth_error (Extractor.allBlocksOf root) 0 = Some b0
  /\ nth_error (Extractor.allBlocksOf root) 1 = Some b1
  /\ ExtractDirect.getDirectText b0 = ExtractDirect.getDirectText b1
  /\ entries (ExtractDirect.getDirectText b0) (ExtractDirect.contentParts root) = 0
  /\ ExtractNaive.blockText b0 = ExtractNaive.blockText b1
  /\ entries (ExtractNaive.blockText b0) (ExtractNaive.contentParts root) = 0
  /\ content (ExtractDirect.extract doc) = []
  /\ content (ExtractNaive.extract doc) = [].
Proof. vm_compute. repeat split. Qed.

(** ** Extraction: blocks holding media *)

Lemma isPrefix_spec (p q : list nat) :
  isPrefix p q = true <-> exists t, q = p ++ t.
Proof.
  revert q. induction p as [|x p IH]; intros q; simpl.
  - split; [intros _; now exists q | reflexivity].
  - destruct q as [|y q].
    + split; [discriminate | intros [t Ht]; discriminate].
    + rewrite andb_true_iff, Nat.eqb_eq, IH. split.
      * intros [-> [t ->]]. now exists t.
      * intros [t Ht]. injection Ht as -> ->. split; [reflexivity | now exists t].
Qed.

Lemma filter_absorb {A} (f g : A -> bool) (l : list A) :
  (forall x, In x l -> g x = false -> f x = false) ->
  List.filter f l = List.filter f (List.filter g l).
Proof.
  induction l as [|x l IH]; intros H; simpl; [reflexivity|].
  assert (Hl : forall y, In y l -> g y = false -> f y = false)
    by (intros y Hy; apply H; now right).
  destruct (g x) eqn:Hg; simpl.
  - destruct (f x); now rewrite IH.
  - rewrite (H x (or_introl eq_refl) Hg). now apply IH.
Qed.

Section MediaBlocks.

Import Dom Extractor DomFacts ExtractFacts CollectFacts.

Lemma allBlocks_descendants root b :
  In b (allBlocksOf root) -> In b (descendants root).
Proof. unfold allBlocksOf, querySelectorAll. intros H. now apply filter_In in H. Qed.

Lemma topLevel_block all b :
  In b (ExtractTopLevel.topLevelBlocks all) -> In b all.
Proof. unfold ExtractTopLevel.topLevelBlocks. intros H. now apply filter_In in H. Qed.

(** A top-level block that is [b] or holds [b] is skipped as soon as [b]
    holds a skip-marked element. *)
Lemma holder_skipped root p b d :
  In p (allBlocksOf root) -> In b (allBlocksOf root) ->
  isPrefix (hpath p) (hpath b) = true ->
  In d (descendants b) -> skipMarked (hnode d) = true ->
  ExtractTopLevel.hasSkipMarker p = true.
Proof.
  intros Hp Hb Hpre Hd Hm.
  apply allBlocks_descendants in Hp, Hb. apply isPrefix_spec in Hpre.
  rewrite hasSkipMarker_spec. apply existsb_exists. exists d. split; [|exact Hm].
  destruct (descendants_below root p b Hp Hb Hpre) as [->|Hbelow]; [exact Hd|].
  exact (descendants_trans p b d Hbelow Hd).
Qed.

End MediaBlocks.

(** Claim C8, as the code has it ([src/index.ts]).  Let [b] be a block
    under the content root that holds, among its descendants, an [img] or
    [svg] element or an element whose class attribute contains "image",
    "embed", "video" or "file".  Then [content] is what the loop yields on
    the top-level blocks other than [b] and the blocks holding [b]: the
    block is skipped entirely, and so is every block it is nested in.  A
    top-level block none of whose descendants is so marked is not
    skipped: [video], [audio] and [iframe] elements are only stripped
    from its clone, and what text remains, if any, is an entry. *)
Theorem C8_marked_block_skipped
  (doc : Dom.document) (root b : Dom.handle) :
  Extractor.contentRoot doc = Some root ->
  In b (Extractor.allBlocksOf root) ->
  (exists d, In d (Dom.descendants b) /\ Markers.skipMarked (Dom.hnode d) = true) ->
  let topLevel := ExtractTopLevel.topLevelBlocks (Extractor.allBlocksOf root) in
  let others :=
    List.filter (fun p => negb (isPrefix (Dom.hpath p) (Dom.hpath b))) topLevel in
  content (ExtractTopLevel.extract doc)
    = Js.join Extractor.blankLine (ExtractTopLevel.collect others)
  /\ ExtractTopLevel.hasSkipMarker b = true
  /\ forall p,
       In p topLevel ->
       (forall d, In d (Dom.descendants p) -> Markers.skipMarked (Dom.hnode d) = false) ->
       ExtractTopLevel.blockText p <> [] ->
       In (ExtractTopLevel.blockText p) (ExtractTopLevel.contentParts root).
Proof.
  intros Hroot Hb (d & Hd & Hm) topLevel others.
  split; [|split].
  - rewrite (main_content doc root Hroot). f_equal.
    unfold ExtractTopLevel.contentParts. fold topLevel.
    rewrite !CollectFacts.main_collect. do 2 f_equal.
    apply filter_absorb. intros p Hp Hpre.
    apply negb_false_iff in Hpre. apply negb_false_iff.
    apply (holder_skipped root p b d); try assumption.
    now apply topLevel_block in Hp.
  - rewrite ExtractFacts.hasSkipMarker_spec. apply existsb_exists. eauto.
  - intros p Hp Hclean Hne.
    unfold ExtractTopLevel.contentParts. fold topLevel.
    rewrite CollectFacts.main_collect. apply filter_In. split.
    + apply in_map, filter_In. split; [exact Hp|].
      apply negb_true_iff. rewrite ExtractFacts.hasSkipMarker_spec.
      apply not_true_is_false. intros Hex.
      apply existsb_exists in Hex as (d' & Hd' & Hm').
      rewrite (Hclean d' Hd') in Hm'. discriminate.
    + now apply CollectFacts.keepText_nonempty.
Qed.

Lemma C8_marked_block_skipped_witness :
  content (ExtractTopLevel.extract Samples.withMedia)
  = Js.join Extractor.blankLine
      (ExtractTopLevel.collect
         (List.filter
            (fun p => negb (isPrefix (Dom.hpath p)
                              (Dom.hpath (Samples.blockAt Samples.withMedia 2))))
            (ExtractTopLevel.topLevelBlocks
               (Extractor.allBlocksOf (Samples.rootOf Samples.withMedia))))).
Proof.
  refine (proj1 (C8_marked_block_skipped Samples.withMedia
                   (Samples.rootOf Samples.withMedia)
                   (Samples.blockAt Samples.withMedia 2) _ _ _)).
  - vm_compute. reflexivity.
  - vm_compute. right. right. left. reflexivity.
  - eexists. split; [vm_compute; left; reflexivity | vm_compute; reflexivity].
Defined.

(** Claim C8 as stated fails.  The second block of the sample page holds
    an [audio] element and the text "a song": [src/index.ts] does not skip
    it, it strips the player and keeps "a song" as an entry.  The
    de-duplicating revision skips no block at all (the caption of the
    image block is an entry), and the click-first revision filters
    nothing. *)
Lemma C8_audio_block_not_skipped :
  let doc := Samples.withMedia in
  let root := Samples.rootOf doc in
  let audioBlock := Samples.blockAt doc 1 in
  let imageBlock := Samples.blockAt doc 2 in
  Extractor.contentRoot doc = Some root
  /\ nth_error (Extractor.allBlocksOf root) 1 = Some audioBlock
  /\ nth_error (Extractor.allBlocksOf root) 2 = Some imageBlock
  /\ (exists d, In d (Dom.descendants audioBlock)
               /\ Dom.matchSimple (Dom.hnode d) (Dom.Tag (js"audio")) = true)
  /\ (exists d, In d (Dom.descendants imageBlock)
               /\ Dom.matchSimple (Dom.hnode d) (Dom.Tag (js"img")) = true)
  /\ ExtractTopLevel.contentParts root = [js"intro"; js"a song"]
  /\ ExtractDirect.contentParts root = [js"intro"; js"a song"; js"a photo"]
  /\ ExtractNaive.contentParts root
     = [js"intro"; js"no audio supporta song"; js"a photo"].
Proof.
  cbv zeta. repeat split; try (vm_compute; reflexivity).
  - eexists. split; [vm_compute; left; reflexivity | vm_compute; reflexivity].
  - eexists. split; [vm_compute; left; reflexivity | vm_compute; reflexivity].
Qed.

(** ** Extraction: a flat page of plain blocks *)

Section FlatPage.

Import Dom Extractor DomFacts ExtractFacts CollectFacts.

Variable doc : document.
Variable root : handle.
Hypothesis root_found : contentRoot doc = Some root.
Hypothesis flat : siblings (allBlocksOf root).

Lemma length_removelast_nonempty {A} (l : list A) :
  l <> [] -> length l = S (length (removelast l)).
Proof.
  intros H. destruct (exists_last H) as (l' & x & ->).
  rewrite removelast_last, length_app. simpl. lia.
Qed.

Lemma block_path_nonempty b : In b (descendants root) -> hpath b <> [].
Proof.
  intros Hb. apply descendants_path in Hb as (i & s & ->).
  intros H. now apply app_eq_nil in H as [_ H].
Qed.

(** All blocks lie at the same depth. *)
Lemma blocks_same_depth a b :
  In a (allBlocksOf root) -> In b (allBlocksOf root) ->
  length (hpath a) = length (hpath b).
Proof.
  intros Ha Hb. pose proof (flat a b Ha Hb) as Hpar. unfold parentPath in Hpar.
  apply allBlocks_descendants, block_path_nonempty in Ha, Hb.
  rewrite (length_removelast_nonempty _ Ha), (length_removelast_nonempty _ Hb).
  now rewrite Hpar.
Qed.

Lemma block_ancestry b : In b (allBlocksOf root) -> ancestry (hanc b) (hpath b).
Proof.
  intros Hb. apply (descendants_ancestry root).
  - apply (elements_ancestry doc). now apply contentRoot_in.
  - now apply allBlocks_descendants.
Qed.

(** No block is nested in another one: the filter of [src/index.ts]
    keeps them all. *)
Lemma flat_all_topLevel :
  ExtractTopLevel.topLevelBlocks (allBlocksOf root) = allBlocksOf root.
Proof.
  unfold ExtractTopLevel.topLevelBlocks.
  apply forallb_filter_id, forallb_forall. intros b Hb.
  unfold ExtractTopLevel.isTopLevel.
  destruct (parentClosest b blockSelector) as [parent|] eqn:Hparent; [|reflexivity].
  apply negb_true_iff, not_true_is_false. intros Hex.
  apply existsb_exists in Hex as (b' & Hb' & Hsame).
  unfold sameElement in Hsame. apply bool_decide_eq_true in Hsame.
  apply closestIn_in in Hparent.
  destruct (block_ancestry b Hb) as [Hshort _].
  rewrite List.Forall_forall in Hshort. specialize (Hshort _ Hparent). simpl in Hshort.
  pose proof (blocks_same_depth b' b Hb' Hb) as Hdepth.
  rewrite Hsame in Hshort. lia.
Qed.

(** No block holds another block. *)
Lemma flat_no_nested b d :
  In b (allBlocksOf root) -> In d (descendants b) -> matches blockSelector d = false.
Proof.
  intros Hb Hd. apply not_true_is_false. intros Hm.
  assert (Hd' : In d (allBlocksOf root)).
  { apply filter_In. split; [|exact Hm].
    apply (descendants_trans root b d); [now apply allBlocks_descendants | exact Hd]. }
  pose proof (blocks_same_depth d b Hd' Hb) as Hdepth.
  pose proof (descendants_deeper b d Hd). lia.
Qed.

Lemma flat_main_text b :
  noMedia b -> ExtractTopLevel.blockText b = trimmedText b.
Proof.
  intros Hno. unfold ExtractTopLevel.blockText, trimmedText, cloneNode.
  now rewrite noMedia_strip.
Qed.

Lemma flat_direct_text b :
  In b (allBlocksOf root) -> noMedia b ->
  ExtractDirect.getDirectText b = trimmedText b.
Proof.
  intros Hb Hno. unfold ExtractDirect.getDirectText, trimmedText.
  rewrite (removeAll_no_match blockSelector b blockSelector_local)
    by (intros d Hd; now apply (flat_no_nested b d)).
  rewrite noMedia_strip by exact Hno.
  now destruct (Js.trim (textContent (hnode b))).
Qed.

Lemma filter_all {A} (f : A -> bool) (l : list A) :
  (forall x, In x l -> f x = true) -> List.filter f l = l.
Proof. intros H. now apply forallb_filter_id, forallb_forall. Qed.

Lemma map_agree {A B} (f g : A -> B) (l : list A) :
  (forall x, In x l -> f x = g x) -> List.map f l = List.map g l.
Proof. intros H. now apply map_ext_in. Qed.

Hypothesis distinct : List.NoDup (List.map trimmedText (allBlocksOf root)).
Hypothesis nonempty : Forall (fun b => trimmedText b <> []) (allBlocksOf root).
Hypothesis plain : Forall noMedia (allBlocksOf root).

Lemma flat_main_parts :
  ExtractTopLevel.contentParts root = List.map trimmedText (allBlocksOf root).
Proof.
  rewrite List.Forall_forall in nonempty, plain.
  unfold ExtractTopLevel.contentParts. rewrite flat_all_topLevel, main_collect.
  rewrite (filter_all (fun b => negb (ExtractTopLevel.hasSkipMarker b)))
    by (intros b Hb; now rewrite noMedia_not_skipped by auto).
  rewrite (map_agree ExtractTopLevel.blockText trimmedText)
    by (intros b Hb; apply flat_main_text; auto).
  apply filter_all. intros t Ht. apply in_map_iff in Ht as (b & <- & Hb).
  apply keepText_nonempty. auto.
Qed.

Lemma flat_direct_parts :
  ExtractDirect.contentParts root = List.map trimmedText (allBlocksOf root).
Proof.
  assert (Hagree : List.map ExtractDirect.getDirectText (allBlocksOf root)
                   = List.map trimmedText (allBlocksOf root)).
  { rewrite List.Forall_forall in plain.
    apply map_agree. intros b Hb. apply flat_direct_text; auto. }
  unfold ExtractDirect.contentParts, ExtractDirect.collect.
  rewrite dedup_fold_distinct.
  - exact Hagree.
  - intros t. rewrite elem_of_empty. simpl. tauto.
  - simpl. now rewrite Hagree.
  - rewrite List.Forall_forall in nonempty, plain. apply List.Forall_forall.
    intros b Hb. rewrite flat_direct_text by auto. auto.
Qed.

Lemma flat_naive_parts :
  ExtractNaive.contentParts root = List.map trimmedText (allBlocksOf root).
Proof.
  rewrite List.Forall_forall in nonempty.
  unfold ExtractNaive.contentParts. rewrite naive_collect.
  apply filter_all. intros t Ht. apply in_map_iff in Ht as (b & <- & Hb).
  apply keepText_nonempty. now apply nonempty.
Qed.

End FlatPage.

(** Claim C4.  Let the blocks under the content root be N siblings
    (children of one element, hence none nested in another), with
    non-empty and pairwise distinct trimmed text, none of them holding a
    media element ([img], [svg], [video], [audio], [iframe]) or an element
    whose class contains "image", "embed", "video" or "file".  Then in
    each of the three revisions [content] is the N trimmed texts joined
    by a blank line, in document order: between two texts stand the two
    line feeds of ['\n\n'] (code unit 10, twice) and nothing else. *)
Theorem C4_flat_page_content (doc : Dom.document) (root : Dom.handle) :
  Extractor.contentRoot doc = Some root ->
  let blocks := Extractor.allBlocksOf root in
  siblings blocks ->
  List.NoDup (List.map trimmedText blocks) ->
  Forall (fun b => trimmedText b <> []) blocks ->
  Forall Markers.noMedia blocks ->
  let joined := Js.join [10; 10]%N (List.map trimmedText blocks) in
  content (ExtractTopLevel.extract doc) = joined
  /\ content (ExtractDirect.extract doc) = joined
  /\ content (ExtractNaive.extract doc) = joined.
Proof.
  intros Hroot blocks Hflat Hdistinct Hnonempty Hplain joined.
  rewrite (main_content doc root Hroot), (direct_content doc root Hroot),
    (naive_content doc root Hroot).
  rewrite (flat_main_parts doc root Hroot Hflat Hnonempty Hplain).
  rewrite (flat_direct_parts root Hflat Hdistinct Hnonempty Hplain).
  rewrite (flat_naive_parts root Hnonempty).
  auto.
Qed.

Lemma C4_flat_page_content_witness :
  content (ExtractTopLevel.extract Samples.plain)
    = js"one" ++ [10; 10]%N ++ js"two" ++ [10; 10]%N ++ js"three"
  /\ content (ExtractDirect.extract Samples.plain)
    = js"one" ++ [10; 10]%N ++ js"two" ++ [10; 10]%N ++ js"three"
  /\ content (ExtractNaive.extract Samples.plain)
    = js"one" ++ [10; 10]%N ++ js"two" ++ [10; 10]%N ++ js"three".
Proof.
  apply (C4_flat_page_content Samples.plain (Samples.rootOf Samples.plain)).
  - vm_compute. reflexivity.
  - intros a b Ha Hb. vm_compute in Ha, Hb.
    destruct Ha as [<-|[<-|[<-|[]]]]; destruct Hb as [<-|[<-|[<-|[]]]]; reflexivity.
  - vm_compute. repeat constructor; simpl; intuition discriminate.
  - vm_compute. repeat constructor; discriminate.
  - apply List.Forall_forall. intros b Hb d Hd. vm_compute in Hb.
    destruct Hb as [<-|[<-|[<-|[]]]]; vm_compute in Hd; destruct Hd.
Defined.

(** * Further properties *)

(** ** The [try] block as a pipeline *)

Lemma main_pipeline (fuel : nat) (notionUrl : Js.str) :
  Main.tryBlock fuel notionUrl
  = pipeline (mainBefore notionUrl) (Main.expandToggles fuel) mainAfter
      ExtractTopLevel.extract.
Proof. reflexivity. Qed.

Lemma dedup_pipeline (fuel : nat) (notionUrl : Js.str) :
  Dedup.tryBlock fuel notionUrl
  = pipeline (dedupBefore notionUrl) (Dedup.expandToggles fuel) dedupAfter
      ExtractDirect.extract.
Proof. reflexivity. Qed.

Lemma click_first_pipeline (fuel : nat) (notionUrl : Js.str) :
  ClickFirst.tryBlock fuel notionUrl
  = pipeline (clickFirstBefore notionUrl) (ClickFirst.expandToggles fuel) clickFirstAfter
      ExtractNaive.extract.
Proof. reflexivity. Qed.

Lemma calls_extend (st : state) (evs : list call) :
  calls (extend st evs) = calls st ++ evs.
Proof. reflexivity. Qed.

Lemma browser_extend (st : state) (evs : list call) :
  browser (extend st evs) = browser st.
Proof. reflexivity. Qed.

(** A list of steps either stops at its first failing call, or hands
    over to what follows with all its calls made. *)
Lemma steps_run {A} (l : stepList) (k : M A) (w : world) :
  forall st,
    (exists done rest e,
        names l = done ++ rest /\ done <> []
        /\ steps l k w st = (Raise e, extend st done))
    \/ steps l k w st = k w (extend st (names l)).
Proof.
  induction l as [|[c fails] l IH]; intros st; simpl.
  - right. now rewrite extend_nil.
  - unfold bind. rewrite perform_run.
    destruct (fails w (calls st)) as [e|].
    + left. exists [c], (names l), e. repeat split. discriminate.
    + destruct (IH (extend st [c])) as [(done & rest & e & Hn & Hne & Hrun)|Hrun].
      * left. exists (c :: done), rest, e. rewrite Hrun, extend_extend, Hn.
        repeat split. discriminate.
      * right. now rewrite Hrun, extend_extend.
Qed.

Lemma launched_calls (st : state) (evs : list call) :
  calls (extend (MkState (calls st ++ [Launch]) true) evs) = calls st ++ Launch :: evs.
Proof. simpl. now rewrite <- app_assoc. Qed.

(** Every run of the [try ... catch] goes one of four ways. *)
Lemma pipeline_run (before after : stepList) (expand : M unit)
  (extract : Dom.document -> ExtractionResult) (expansion : list call -> Prop)
  (w : world) (st st' : state) (r : result response) :
  (forall w st, exists evs, expand w st = (Done tt, extend st evs) /\ expansion evs) ->
  browser st = false ->
  tryCatch (pipeline before expand after extract) onFault w st = (r, st') ->
  pipelineOutcome before after extract expansion w (calls st) r (calls st').
Proof.
  intros Hexp Hb. unfold tryCatch, pipeline. unfold bind at 1. unfold launch.
  destruct (launchFails w (calls st)) as [e|] eqn:Hlaunch.
  { rewrite onFault_run. simpl. rewrite Hb. intros [= <- <-].
    left. exists e. auto. }
  set (st1 := MkState (calls st ++ [Launch]) true).
  destruct (steps_run before
              (do _ <- expand ;;
               steps after
                 (do extractedData <- evaluate ExtractContent documentSeen extract ;;
                  do _ <- close ;; ret (success extractedData))) w st1)
    as [(done & rest & e & Hn & Hne & Hrun)|Hrun]; rewrite Hrun; clear Hrun.
  { (* a call before the expansion fails *)
    destruct (Hexp w st1) as (evs & _ & Hevs).
    rewrite onFault_run. simpl browser.
    intros Hfin. unfold st1 in Hfin. right. exists evs. split; [exact Hevs|]. split; [exact Hlaunch|].
    right. left. exists done, (rest ++ evs ++ names after ++ [Evaluate ExtractContent]), e.
    split; [unfold itinerary; now rewrite Hn, <- app_assoc|]. split; [exact Hne|].
    rewrite launched_calls in Hfin.
    destruct (closeFails w (calls st ++ Launch :: done)); injection Hfin as <- <-;
      (split; [|reflexivity]); simpl; now rewrite <- !app_assoc. }
  unfold bind at 1.
  destruct (Hexp w (extend st1 (names before))) as (evs & -> & Hevs).
  rewrite extend_extend.
  destruct (steps_run after
              (do extractedData <- evaluate ExtractContent documentSeen extract ;;
               do _ <- close ;; ret (success extractedData)) w
              (extend st1 (names before ++ evs)))
    as [(done & rest & e & Hn & Hne & Hrun)|Hrun]; rewrite Hrun; clear Hrun.
  { (* a call between the expansion and the extraction fails *)
    rewrite onFault_run, extend_extend. simpl browser.
    intros Hfin. unfold st1 in Hfin. right. exists evs. split; [exact Hevs|]. split; [exact Hlaunch|].
    right. left.
    exists ((names before ++ evs) ++ done), (rest ++ [Evaluate ExtractContent]), e.
    split; [unfold itinerary; now rewrite Hn, <- !app_assoc|].
    split; [intros H; apply app_eq_nil in H as [_ H]; now apply Hne|].
    rewrite launched_calls in Hfin.
    destruct (closeFails w (calls st ++ Launch :: (names before ++ evs) ++ done));
      injection Hfin as <- <-; (split; [|reflexivity]); simpl;
      now rewrite <- !app_assoc. }
  rewrite extend_extend. unfold bind at 1. unfold st1. rewrite evaluate_run, launched_calls.
  replace ((names before ++ evs) ++ names after)
    with (names before ++ evs ++ names after) by now rewrite app_assoc.
  destruct (documentSeen w (calls st ++ Launch :: names before ++ evs ++ names after))
    as [e|doc] eqn:Hdoc.
  { (* the extraction fails *)
    rewrite onFault_run, extend_extend. simpl browser.
    intros Hfin. unfold st1 in Hfin. right. exists evs. split; [exact Hevs|]. split; [exact Hlaunch|].
    right. left. exists (itinerary before evs after), [], e.
    split; [now rewrite app_nil_r|].
    split; [unfold itinerary; intros H; apply app_eq_nil in H as [_ H];
            apply app_eq_nil in H as [_ H]; apply app_eq_nil in H as [_ H];
            discriminate|].
    rewrite launched_calls in Hfin.
    replace ((names before ++ evs ++ names after) ++ [Evaluate ExtractContent])
      with (itinerary before evs after) in Hfin
      by (unfold itinerary; now rewrite <- !app_assoc).
    destruct (closeFails w (calls st ++ Launch :: itinerary before evs after));
      injection Hfin as <- <-; (split; [|reflexivity]); simpl;
      now rewrite <- !app_assoc. }
  rewrite extend_extend. unfold bind at 1. unfold close. rewrite perform_run, launched_calls.
  replace ((names before ++ evs ++ names after) ++ [Evaluate ExtractContent])
    with (itinerary before evs after) by (unfold itinerary; now rewrite <- !app_assoc).
  rewrite extend_extend.
  destruct (closeFails w (calls st ++ Launch :: itinerary before evs after)) as [e|] eqn:Hclose.
  { (* [close] fails in the [try] *)
    rewrite onFault_run. simpl browser.
    intros Hfin. right. exists evs. split; [exact Hevs|]. split; [exact Hlaunch|].
    right. right. exists e. split; [exact Hclose|].
    rewrite launched_calls in Hfin.
    destruct (closeFails w (calls st ++ Launch :: itinerary before evs after ++ [Close]));
      injection Hfin as <- <-; (split; [|reflexivity]); simpl;
      now rewrite <- !app_assoc. }
  unfold ret. intros [= <- <-].
  right. exists evs. split; [exact Hevs|]. split; [exact Hlaunch|].
  left. exists doc. split; [exact Hdoc|]. split; [exact Hclose|]. split; [reflexivity|].
  now rewrite launched_calls.
Qed.

(** ** The turns of the expansion loops *)

Section WhileTurns.

Context {S : Type}.
Variable cond : S -> bool.
Variable body : S -> M (step S).
Variable measure : S -> nat.
Variable turn : list call -> Prop.

Hypothesis turns_left : forall s, cond s = true -> 0 < measure s.
Hypothesis body_shape : forall s w st,
  cond s = true ->
  exists r evs,
    body s w st = (r, extend st evs)
    /\ turn evs
    /\ match r with
       | Done (Continue s') => measure s' < measure s
       | Done (Break _) | Raise _ => True
       | OutOfFuel => False
       end.

Lemma while_turns (fuel : nat) :
  forall s w st,
    measure s < fuel ->
    exists r turns,
      while fuel cond body s w st = (r, extend st (List.concat turns))
      /\ r <> OutOfFuel
      /\ Forall turn turns
      /\ length turns <= measure s.
Proof.
  induction fuel as [|fuel IH]; intros s w st Hlt; [lia|].
  simpl. destruct (cond s) eqn:Hc.
  - destruct (body_shape s w st Hc) as (r & evs & Hb & Hturn & Hr).
    pose proof (turns_left s Hc) as Hpos.
    unfold bind. rewrite Hb.
    destruct r as [[s'|s']|e|].
    + exists (Done s'), [evs]. unfold ret. simpl. rewrite app_nil_r.
      split; [reflexivity|]. split; [discriminate|]. split; [now constructor | lia].
    + destruct (IH s' w (extend st evs)) as (r' & turns & Hw & Hne & Hall & Hlen); [lia|].
      exists r', (evs :: turns). rewrite Hw, extend_extend. simpl.
      split; [reflexivity|]. split; [exact Hne|]. split; [now constructor | lia].
    + exists (Raise e), [evs]. simpl. rewrite app_nil_r.
      split; [reflexivity|]. split; [discriminate|]. split; [now constructor | lia].
    + contradiction.
  - exists (Done s), []. unfold ret. simpl. rewrite extend_nil.
    split; [reflexivity|]. split; [discriminate|]. split; [constructor | lia].
Qed.

Lemma guarded_while_turns (fuel : nat) (s : S) (w : world) (st : state) :
  measure s < fuel ->
  exists evs,
    tryCatch (do _ <- while fuel cond body s ;; ret tt) (fun _ => consoleLog) w st
    = (Done tt, extend st evs)
    /\ expansionOf turn (measure s) evs.
Proof.
  intros Hlt.
  destruct (while_turns fuel s w st Hlt) as (r & turns & Hw & Hne & Hall & Hlen).
  unfold tryCatch, bind. rewrite Hw.
  destruct r as [s'|e|]; [| |contradiction].
  - exists (List.concat turns). unfold ret. split; [reflexivity|].
    exists turns, []. rewrite app_nil_r. auto.
  - exists (List.concat turns ++ [ConsoleLog]). unfold consoleLog.
    rewrite record_extend, extend_extend. split; [reflexivity|].
    exists turns, [ConsoleLog]. auto.
Qed.

End WhileTurns.

Lemma main_turns_left (s : Z * Z) : Main.loopCond s = true -> 0 < mainMeasure s.
Proof.
  destruct s as [i l]. unfold Main.loopCond, mainMeasure, Main.maxIterations. simpl.
  intros Hc. apply Z.ltb_lt in Hc. lia.
Qed.

Lemma dedup_turns_left (s : Z * Z) : Dedup.loopCond s = true -> 0 < dedupMeasure s.
Proof.
  destruct s as [i l]. unfold Dedup.loopCond, dedupMeasure, Dedup.maxIterations. simpl.
  intros Hc. apply Z.ltb_lt in Hc. lia.
Qed.

Lemma click_first_turns_left (s : Z) :
  ClickFirst.loopCond s = true -> 0 < clickFirstMeasure s.
Proof.
  unfold ClickFirst.loopCond, clickFirstMeasure, ClickFirst.maxIterations.
  intros Hc. apply Z.ltb_lt in Hc. lia.
Qed.

Lemma main_body_shape (s : Z * Z) (w : world) (st : state) :
  Main.loopCond s = true ->
  exists r evs,
    Main.loopBody s w st = (r, extend st evs)
    /\ mainTurn evs
    /\ match r with
       | Done (Continue s') => mainMeasure s' < mainMeasure s
       | Done (Break _) | Raise _ => True
       | OutOfFuel => False
       end.
Proof.
  destruct s as [iteration lastClickCount].
  unfold Main.loopCond, mainMeasure, Main.maxIterations, mainTurn. simpl. intros Hc.
  apply Z.ltb_lt in Hc.
  unfold Main.loopBody, Main.clickAllCollapsed, bind.
  rewrite evaluate_run.
  destruct (togglesFound w (calls st)) as [e|nodes].
  - exists (Raise e), [Evaluate ClickAllCollapsed]. auto.
  - destruct ((countClicked nodes =? 0)%Z || (countClicked nodes =? lastClickCount)%Z).
    + eexists _, [Evaluate ClickAllCollapsed]. unfold ret. split; [reflexivity|]. auto.
    + unfold waitForTimeout. rewrite perform_run, extend_extend.
      destruct (waitForTimeoutFails w _).
      * eexists _, _. split; [reflexivity|]. simpl. auto.
      * eexists _, _. unfold ret. split; [reflexivity|]. simpl. split; [auto | lia].
Qed.

Lemma dedup_body_shape (s : Z * Z) (w : world) (st : state) :
  Dedup.loopCond s = true ->
  exists r evs,
    Dedup.loopBody s w st = (r, extend st evs)
    /\ dedupTurn evs
    /\ match r with
       | Done (Continue s') => dedupMeasure s' < dedupMeasure s
       | Done (Break _) | Raise _ => True
       | OutOfFuel => False
       end.
Proof.
  destruct s as [iteration lastClickCount].
  unfold Dedup.loopCond, dedupMeasure, Dedup.maxIterations, dedupTurn. simpl. intros Hc.
  apply Z.ltb_lt in Hc.
  unfold Dedup.loopBody, Dedup.clickAllCollapsed, bind.
  rewrite evaluate_run.
  destruct (togglesFound w (calls st)) as [e|nodes].
  - exists (Raise e), [Evaluate ClickAllCollapsed]. auto.
  - destruct ((0 <? iteration)%Z && (countClicked nodes =? lastClickCount)%Z).
    { eexists _, [Evaluate ClickAllCollapsed]. unfold ret. split; [reflexivity|]. auto. }
    destruct ((countClicked nodes =? 0)%Z && (2 <? iteration)%Z).
    { eexists _, [Evaluate ClickAllCollapsed]. unfold ret. split; [reflexivity|]. auto. }
    unfold waitForTimeout. rewrite perform_run, extend_extend.
    destruct (waitForTimeoutFails w _).
    + eexists _, _. split; [reflexivity|]. simpl. auto.
    + eexists _, _. unfold ret. split; [reflexivity|]. simpl. split; [auto | lia].
Qed.

Lemma click_first_body_shape (s : Z) (w : world) (st : state) :
  ClickFirst.loopCond s = true ->
  exists r evs,
    ClickFirst.loopBody s w st = (r, extend st evs)
    /\ clickFirstTurn evs
    /\ match r with
       | Done (Continue s') => clickFirstMeasure s' < clickFirstMeasure s
       | Done (Break _) | Raise _ => True
       | OutOfFuel => False
       end.
Proof.
  unfold ClickFirst.loopCond, clickFirstMeasure, ClickFirst.maxIterations, clickFirstTurn.
  intros Hc. apply Z.ltb_lt in Hc.
  unfold ClickFirst.loopBody, ClickFirst.getCollapsedCount,
    ClickFirst.clickFirstCollapsed, bind.
  rewrite evaluate_run.
  destruct (togglesFound w (calls st)) as [e|nodes].
  - exists (Raise e), [Evaluate GetCollapsedCount]. auto.
  - destruct (Z.of_nat (length nodes) =? 0)%Z.
    { eexists _, [Evaluate GetCollapsedCount]. unfold ret. split; [reflexivity|]. auto. }
    rewrite evaluate_run, extend_extend.
    destruct (togglesFound w _).
    { eexists _, _. split; [reflexivity|]. simpl. auto. }
    unfold waitForTimeout. rewrite perform_run, extend_extend.
    destruct (waitForTimeoutFails w _).
    + eexists _, _. split; [reflexivity|]. simpl. auto.
    + eexists _, _. unfold ret. split; [reflexivity|]. simpl. split; [auto | lia].
Qed.

Lemma main_expansion (fuel : nat) (w : world) (st : state) :
  Z.to_nat Main.maxIterations < fuel ->
  exists evs,
    Main.expandToggles fuel w st = (Done tt, extend st evs)
    /\ expansionOf mainTurn 20 evs.
Proof.
  intros Hf.
  exact (guarded_while_turns Main.loopCond Main.loopBody mainMeasure mainTurn
           main_turns_left main_body_shape fuel (0%Z, (-1)%Z) w st Hf).
Qed.

Lemma dedup_expansion (fuel : nat) (w : world) (st : state) :
  Z.to_nat Dedup.maxIterations < fuel ->
  exists evs,
    Dedup.expandToggles fuel w st = (Done tt, extend st evs)
    /\ expansionOf dedupTurn 20 evs.
Proof.
  intros Hf.
  exact (guarded_while_turns Dedup.loopCond Dedup.loopBody dedupMeasure dedupTurn
           dedup_turns_left dedup_body_shape fuel (0%Z, (-1)%Z) w st Hf).
Qed.

Lemma click_first_expansion (fuel : nat) (w : world) (st : state) :
  Z.to_nat ClickFirst.maxIterations < fuel ->
  exists evs,
    ClickFirst.expandToggles fuel w st = (Done tt, extend st evs)
    /\ expansionOf clickFirstTurn 100 evs.
Proof.
  intros Hf.
  exact (guarded_while_turns ClickFirst.loopCond ClickFirst.loopBody clickFirstMeasure
           clickFirstTurn click_first_turns_left click_first_body_shape fuel 0%Z w st Hf).
Qed.

Lemma plan_expansion (fetch : request -> M response) (p : plan) :
  In (fetch, p) revisionPlans ->
  forall w st, exists evs,
    planExpand p w st = (Done tt, extend st evs) /\ planExpansion p evs.
Proof.
  intros [[= <- <-]|[[= <- <-]|[[= <- <-]|[]]]] w st; unfold planExpansion; simpl.
  - apply main_expansion. unfold Main.loopFuel. lia.
  - apply dedup_expansion. unfold Dedup.loopFuel. lia.
  - apply click_first_expansion. unfold ClickFirst.loopFuel. lia.
Qed.

Lemma plan_fetch (fetch : request -> M response) (p : plan) :
  In (fetch, p) revisionPlans ->
  fetch = handler (planHost p)
            (fun notionUrl =>
               pipeline (planBefore p notionUrl) (planExpand p) (planAfter p)
                 (planExtract p)).
Proof.
  intros [[= <- <-]|[[= <- <-]|[[= <- <-]|[]]]]; reflexivity.
Qed.

(** The answers given before the [try] block, or the [try] block. *)
Lemma handler_early (hostRejected : Js.str -> bool) (tryBlock : Js.str -> M response)
  (req : request) (w : world) (st : state) :
  (exists resp, In resp earlyResponses
                /\ (resp = preflight -> method req = js"OPTIONS")
                /\ handler hostRejected tryBlock req w st = (Done resp, st))
  \/ (exists notionUrl,
        reachesTry hostRejected req notionUrl
        /\ handler hostRejected tryBlock req w st
           = tryCatch (tryBlock notionUrl) onFault w st).
Proof.
  unfold earlyResponses.
  destruct (decide (pathname req = js"/scrape")) as [Hp|Hp];
    [|left; exists notFound; split; [now left|];
      split; [discriminate | now apply handler_wrong_path]].
  destruct (decide (method req = js"OPTIONS")) as [Hm|Hm];
    [left; exists preflight; split; [right; now left|];
     split; [auto | now apply handler_options]|].
  destruct (urlParam req) as [u|] eqn:Hu.
  - destruct u as [|c u].
    + left. exists missingUrl. split; [right; right; now left|]. split; [discriminate|].
      rewrite handler_scrape, Hu by assumption. reflexivity.
    + destruct (hostRejected (c :: u)) eqn:Hh.
      * left. exists invalidUrl. split; [right; right; right; now left|].
        split; [discriminate|].
        rewrite handler_scrape, Hu by assumption. simpl. now rewrite Hh.
      * right. exists (c :: u). split; [|apply handler_try];
          (repeat split; [assumption.. | discriminate | assumption]).
  - left. exists missingUrl. split; [right; right; now left|]. split; [discriminate|].
    rewrite handler_scrape, Hu by assumption. reflexivity.
Qed.

(** Every run of a handler: an early answer without any call, or one of
    the four ways of its pipeline. *)
Lemma fetch_run (fetch : request -> M response) (p : plan)
  (req : request) (w : world) (r : result response) (st : state) :
  In (fetch, p) revisionPlans ->
  fetch req w initial = (r, st) ->
  (exists resp, In resp earlyResponses
                /\ (resp = preflight -> method req = js"OPTIONS")
                /\ r = Done resp /\ st = initial)
  \/ (exists notionUrl,
        reachesTry (planHost p) req notionUrl
        /\ pipelineOutcome (planBefore p notionUrl) (planAfter p) (planExtract p)
             (planExpansion p) w [] r (calls st)).
Proof.
  intros Hp Hrun. rewrite (plan_fetch fetch p Hp) in Hrun.
  destruct (handler_early (planHost p)
              (fun notionUrl =>
                 pipeline (planBefore p notionUrl) (planExpand p) (planAfter p)
                   (planExtract p)) req w initial)
    as [(resp & Hin & Hopt & H)|(u & Hreach & H)]; rewrite H in Hrun.
  - left. exists resp. injection Hrun as <- <-. auto.
  - right. exists u. split; [exact Hreach|].
    apply (pipeline_run _ _ (planExpand p) _ _ w initial st r);
      [exact (plan_expansion fetch p Hp) | reflexivity | exact Hrun].
Qed.

(** ** Counting calls and waits *)

Lemma waited_app (a b : list call) : waited (a ++ b) = (waited a + waited b)%Z.
Proof. induction a as [|c a IH]; simpl; [reflexivity | rewrite IH; lia]. Qed.

Lemma waited_nonneg (evs : list call) :
  Forall (fun c => (0 <= waitOf c)%Z) evs -> (0 <= waited evs)%Z.
Proof. induction 1; simpl; lia. Qed.

Lemma occurrences_none (c : call) (evs : list call) :
  Forall (fun x => x <> c) evs -> occurrences c evs = 0.
Proof.
  unfold occurrences. induction 1 as [|x l Hx _ IH]; [reflexivity|].
  cbn [count_occ]. destruct (call_eq_dec x c); [contradiction | exact IH].
Qed.

Lemma Forall_concat {A} (P : A -> Prop) (ls : list (list A)) :
  Forall (Forall P) ls -> Forall P (List.concat ls).
Proof.
  induction 1 as [|l ls Hl _ IH]; simpl; [constructor | now apply Forall_app].
Qed.

Lemma expansion_forall (turn : list call -> Prop) (cap : nat) (P : call -> Prop)
  (evs : list call) :
  expansionOf turn cap evs ->
  (forall t, turn t -> Forall P t) -> P ConsoleLog -> Forall P evs.
Proof.
  intros (turns & log & -> & Hall & _ & Hlog) Hturn Hcl.
  apply Forall_app. split.
  - apply Forall_concat. eapply Forall_impl; [exact Hall | exact Hturn].
  - destruct Hlog as [->| ->]; repeat constructor. exact Hcl.
Qed.

Lemma expansion_waited (turn : list call -> Prop) (cap : nat) (d : Z)
  (evs : list call) :
  expansionOf turn cap evs ->
  (forall t, turn t -> (waited t <= d)%Z) -> (0 <= d)%Z ->
  (waited evs <= Z.of_nat cap * d)%Z.
Proof.
  intros (turns & log & -> & Hall & Hlen & Hlog) Hturn Hd.
  rewrite waited_app.
  assert (Hl : waited log = 0%Z) by (destruct Hlog as [->| ->]; reflexivity).
  assert (Ht : (waited (List.concat turns) <= Z.of_nat (length turns) * d)%Z).
  { clear Hlen. induction Hall as [|t turns Ht _ IH]; [simpl; lia|].
    cbn [List.concat length]. rewrite waited_app. specialize (Hturn t Ht). lia. }
  nia.
Qed.

(** The steps and the turns of each plan are quiet calls; a turn waits at
    most the delay of the plan. *)
Lemma plan_quiet (fetch : request -> M response) (p : plan) :
  In (fetch, p) revisionPlans ->
  (forall notionUrl, Forall quietCall (names (planBefore p notionUrl)))
  /\ Forall quietCall (names (planAfter p))
  /\ (forall t, planTurn p t -> Forall quietCall t)
  /\ (forall t, planTurn p t -> (waited t <= planDelay p)%Z)
  /\ (0 <= planDelay p)%Z
  /\ (forall notionUrl,
        waited (names (planBefore p notionUrl)) + waited (names (planAfter p))
        = planFixedWait p)%Z.
Proof.
  assert (Hq : forall c, c <> Launch -> c <> Close -> c <> Evaluate ExtractContent ->
                         (0 <= waitOf c)%Z -> quietCall c) by (intros; repeat split; auto).
  intros [[= <- <-]|[[= <- <-]|[[= <- <-]|[]]]]; simpl;
    (split; [intros u; repeat constructor; try discriminate; simpl; lia|]);
    (split; [repeat constructor; try discriminate; simpl; lia|]);
    (split; [|split; [|split; [lia | reflexivity]]]).
  - intros t [->| ->]; repeat constructor; try discriminate; simpl; lia.
  - intros t [->| ->]; simpl; lia.
  - intros t [->| ->]; repeat constructor; try discriminate; simpl; lia.
  - intros t [->| ->]; simpl; lia.
  - intros t [->|[->| ->]]; repeat constructor; try discriminate; simpl; lia.
  - intros t [->|[->| ->]]; simpl; lia.
Qed.

Lemma quiet_console : quietCall ConsoleLog.
Proof. repeat split; discriminate. Qed.

(** The script of a plan, up to the extraction, holds quiet calls only,
    but for the extraction that ends it. *)
Lemma script_quiet (fetch : request -> M response) (p : plan) (u : Js.str)
  (evs : list call) :
  In (fetch, p) revisionPlans ->
  planExpansion p evs ->
  Forall (fun c => c <> Launch /\ c <> Close /\ (0 <= waitOf c)%Z)
    (itinerary (planBefore p u) evs (planAfter p))
  /\ (waited (itinerary (planBefore p u) evs (planAfter p)) <= planBudget p)%Z.
Proof.
  intros Hp Hevs.
  destruct (plan_quiet fetch p Hp) as (Hb & Ha & Ht & Hw & Hd & Hfix).
  assert (Hweak : forall c, quietCall c -> c <> Launch /\ c <> Close /\ (0 <= waitOf c)%Z)
    by (intros c (? & ? & _ & ?); auto).
  assert (Hq : Forall quietCall evs)
    by (apply (expansion_forall _ _ _ _ Hevs Ht quiet_console)).
  unfold itinerary. split.
  - repeat (apply Forall_app; split).
    + eapply Forall_impl; [apply Hb | exact Hweak].
    + eapply Forall_impl; [exact Hq | exact Hweak].
    + eapply Forall_impl; [exact Ha | exact Hweak].
    + repeat constructor; try discriminate; try (simpl; lia).
  - rewrite !waited_app. simpl waited at 4.
    pose proof (expansion_waited _ _ _ _ Hevs Hw Hd) as Hexp.
    specialize (Hfix u). unfold planBudget. lia.
Qed.

Lemma prefix_facts (c : call) (done rest : list call) :
  Forall (fun x => x <> Launch /\ x <> Close /\ (0 <= waitOf x)%Z) (done ++ rest) ->
  occurrences Launch done = 0 /\ occurrences Close done = 0
  /\ (waited done <= waited (done ++ rest))%Z.
Proof.
  intros H. apply Forall_app in H as [Hd Hr].
  split; [|split].
  - apply occurrences_none. eapply Forall_impl; [exact Hd|]. now intros x (? & _).
  - apply occurrences_none. eapply Forall_impl; [exact Hd|]. now intros x (_ & ? & _).
  - rewrite waited_app.
    assert (0 <= waited rest)%Z; [|lia].
    apply waited_nonneg. eapply Forall_impl; [exact Hr|]. now intros x (_ & _ & ?).
Qed.

Lemma occurrences_cons_eq (c : call) (l : list call) :
  occurrences c (c :: l) = S (occurrences c l).
Proof. unfold occurrences. now apply count_occ_cons_eq. Qed.

Lemma occurrences_cons_ne (c d : call) (l : list call) :
  d <> c -> occurrences c (d :: l) = occurrences c l.
Proof. unfold occurrences. intros H. now apply count_occ_cons_neq. Qed.

(** ** Runs, call by call *)

Lemma allResolve_nil (w : world) (pre : list call) : allResolve w pre [].
Proof. intros h c rest H. now destruct h. Qed.

Lemma allResolve_cons (w : world) (pre : list call) (c : call) (t : list call) :
  allResolve w pre (c :: t)
  <-> faultOf w pre c = None /\ allResolve w (pre ++ [c]) t.
Proof.
  split.
  - intros H. split.
    + specialize (H [] c t eq_refl). now rewrite app_nil_r in H.
    + intros h c' rest ->. specialize (H (c :: h) c' rest eq_refl).
      now rewrite <- app_assoc.
  - intros [Hc Ht] h c' rest Heq. destruct h as [|x h]; simpl in Heq.
    + injection Heq as <- _. now rewrite app_nil_r.
    + injection Heq as <- ->. specialize (Ht h c' rest eq_refl).
      now rewrite <- app_assoc in Ht.
Qed.

Lemma allResolve_app (w : world) (a : list call) :
  forall pre b,
    allResolve w pre (a ++ b) <-> allResolve w pre a /\ allResolve w (pre ++ a) b.
Proof.
  induction a as [|c a IH]; intros pre b; simpl.
  - rewrite app_nil_r. split; [intros H; split; [apply allResolve_nil | exact H] | tauto].
  - rewrite !allResolve_cons, IH, <- app_assoc. simpl. tauto.
Qed.

Lemma stopsWith_single (w : world) (pre : list call) (c : call) (e : thrown) :
  faultOf w pre c = Some e -> stopsWith w pre [c] e.
Proof.
  intros H. exists [], c. rewrite app_nil_r.
  split; [reflexivity|]. split; [apply allResolve_nil | exact H].
Qed.

Lemma stopsWith_app (w : world) (pre a t : list call) (e : thrown) :
  allResolve w pre a -> stopsWith w (pre ++ a) t e -> stopsWith w pre (a ++ t) e.
Proof.
  intros Ha (h & c & -> & Hh & Hc). exists (a ++ h), c.
  split; [now rewrite app_assoc|].
  split; [now apply allResolve_app | now rewrite app_assoc].
Qed.

Lemma stopsWith_cons (w : world) (pre : list call) (c : call) (t : list call)
  (e : thrown) :
  faultOf w pre c = None -> stopsWith w (pre ++ [c]) t e -> stopsWith w pre (c :: t) e.
Proof.
  intros Hc Ht. apply (stopsWith_app w pre [c] t e); [|exact Ht].
  apply allResolve_cons. split; [exact Hc | apply allResolve_nil].
Qed.

(** A call that raised is not among those that resolve. *)
Lemma stopsWith_not_resolved (w : world) (pre t rest : list call) (e : thrown) :
  stopsWith w pre t e -> ~ allResolve w pre (t ++ rest).
Proof.
  intros (h & c & -> & _ & Hc) Hall.
  rewrite <- app_assoc in Hall. specialize (Hall h c rest eq_refl). congruence.
Qed.

(** ** The loops, turn by turn *)

Section WhileTrace.

Context {S : Type}.
Variable cond : S -> bool.
Variable body : S -> M (step S).
Variable measure : S -> nat.
Variable full : list call.

Hypothesis cond_measure : forall s, cond s = true <-> 0 < measure s.
Hypothesis body_trace : forall s w st,
  cond s = true ->
  match body s w st with
  | (Done (Continue s'), st') =>
      st' = extend st full /\ allResolve w (calls st) full
      /\ Datatypes.S (measure s') = measure s
  | (Done (Break _), st') =>
      st' = extend st (firstn 1 full) /\ allResolve w (calls st) (firstn 1 full)
  | (Raise e, st') =>
      exists t rest,
        full = t ++ rest /\ t <> [] /\ st' = extend st t
        /\ stopsWith w (calls st) t e
  | (OutOfFuel, _) => False
  end.

Lemma while_trace (fuel : nat) :
  forall s w st,
    measure s < fuel ->
    match while fuel cond body s w st with
    | (Done _, st') =>
        exists n tail,
          st' = extend st (List.concat (repeat full n) ++ tail)
          /\ allResolve w (calls st) (List.concat (repeat full n) ++ tail)
          /\ ((n = measure s /\ tail = [])
              \/ (n < measure s /\ tail = firstn 1 full))
    | (Raise e, st') =>
        exists n t rest,
          n < measure s /\ full = t ++ rest /\ t <> []
          /\ st' = extend st (List.concat (repeat full n) ++ t)
          /\ stopsWith w (calls st) (List.concat (repeat full n) ++ t) e
    | (OutOfFuel, _) => False
    end.
Proof.
  induction fuel as [|fuel IH]; intros s w st Hlt; [lia|].
  simpl. destruct (cond s) eqn:Hc.
  - pose proof (body_trace s w st Hc) as Hb.
    pose proof (proj1 (cond_measure s) Hc) as Hpos.
    unfold bind. destruct (body s w st) as [[[s'|s']|e|] st1].
    + destruct Hb as [-> Hall]. unfold ret. exists 0, (firstn 1 full). simpl. auto.
    + destruct Hb as (-> & Hall & Hm).
      specialize (IH s' w (extend st full) ltac:(lia)).
      destruct (while fuel cond body s' w (extend st full)) as [[s''|e|] st2].
      * destruct IH as (n & tail & -> & Hall' & Hcase).
        exists (Datatypes.S n), tail. simpl. rewrite extend_extend, <- app_assoc.
        split; [reflexivity|]. split; [now apply allResolve_app|].
        destruct Hcase as [[-> ->]|[Hn ->]]; [left | right]; split; (lia || reflexivity).
      * destruct IH as (n & t & rest & Hn & Hfull & Hne & -> & Hstop).
        exists (Datatypes.S n), t, rest. simpl. rewrite extend_extend, <- app_assoc.
        split; [lia|]. split; [exact Hfull|]. split; [exact Hne|].
        split; [reflexivity | now apply stopsWith_app].
      * contradiction.
    + destruct Hb as (t & rest & Hfull & Hne & -> & Hstop).
      exists 0, t, rest. simpl. auto.
    + contradiction.
  - assert (Hz : measure s = 0).
    { destruct (measure s) eqn:Hm; [reflexivity|].
      assert (H : cond s = true) by (apply cond_measure; lia). congruence. }
    unfold ret. exists 0, []. simpl. rewrite extend_nil.
    split; [reflexivity|]. split; [apply allResolve_nil | left; auto].
Qed.

Lemma guarded_while_trace (fuel : nat) (s : S) (w : world) (st : state) :
  measure s < fuel ->
  exists evs,
    tryCatch (do _ <- while fuel cond body s ;; ret tt) (fun _ => consoleLog) w st
    = (Done tt, extend st evs)
    /\ expansionTrace full (measure s) w (calls st) evs.
Proof.
  intros Hlt. pose proof (while_trace fuel s w st Hlt) as Hw.
  unfold tryCatch, bind.
  destruct (while fuel cond body s w st) as [[s'|e|] st']; [| |contradiction].
  - destruct Hw as (n & tail & -> & Hall & Hcase).
    exists (List.concat (repeat full n) ++ tail). unfold ret. split; [reflexivity|].
    exists n, tail. split; [reflexivity|].
    destruct Hcase as [[-> ->]|[Hn ->]]; [left | right; left]; auto.
  - destruct Hw as (n & t & rest & Hn & Hfull & Hne & -> & Hstop).
    exists (List.concat (repeat full n) ++ t ++ [ConsoleLog]). unfold consoleLog.
    rewrite record_extend, extend_extend, <- app_assoc. split; [reflexivity|].
    exists n, (t ++ [ConsoleLog]). split; [reflexivity|].
    right. right. split; [exact Hn|]. exists t, rest, e. auto.
Qed.

End WhileTrace.

Lemma main_cond_measure (s : Z * Z) : Main.loopCond s = true <-> 0 < mainMeasure s.
Proof.
  destruct s as [i l]. unfold Main.loopCond, mainMeasure, Main.maxIterations. simpl.
  rewrite Z.ltb_lt. lia.
Qed.

Lemma dedup_cond_measure (s : Z * Z) : Dedup.loopCond s = true <-> 0 < dedupMeasure s.
Proof.
  destruct s as [i l]. unfold Dedup.loopCond, dedupMeasure, Dedup.maxIterations. simpl.
  rewrite Z.ltb_lt. lia.
Qed.

Lemma click_first_cond_measure (s : Z) :
  ClickFirst.loopCond s = true <-> 0 < clickFirstMeasure s.
Proof.
  unfold ClickFirst.loopCond, clickFirstMeasure, ClickFirst.maxIterations.
  rewrite Z.ltb_lt. lia.
Qed.

(** The outcome of a query of the toggles and of a wait, as faults. *)
Lemma query_fault (w : world) (h : list call) (s : script) :
  s <> ExtractContent ->
  faultOf w h (Evaluate s)
  = match togglesFound w h with inl e => Some e | inr _ => None end.
Proof. intros Hs. destruct s; [reflexivity.. | contradiction]. Qed.

Ltac trace_step :=
  match goal with
  | |- allResolve _ _ [] => apply allResolve_nil
  | |- allResolve _ _ (_ :: _) => apply allResolve_cons; split
  | |- stopsWith _ _ [_] _ => apply stopsWith_single
  | |- stopsWith _ _ (_ :: _ :: _) _ => apply stopsWith_cons
  | |- faultOf _ _ _ = _ => simpl faultOf
  end.

Lemma main_body_trace (s : Z * Z) (w : world) (st : state) :
  Main.loopCond s = true ->
  match Main.loopBody s w st with
  | (Done (Continue s'), st') =>
      st' = extend st (planFullTurn mainPlan)
      /\ allResolve w (calls st) (planFullTurn mainPlan)
      /\ S (mainMeasure s') = mainMeasure s
  | (Done (Break _), st') =>
      st' = extend st (firstn 1 (planFullTurn mainPlan))
      /\ allResolve w (calls st) (firstn 1 (planFullTurn mainPlan))
  | (Raise e, st') =>
      exists t rest,
        planFullTurn mainPlan = t ++ rest /\ t <> [] /\ st' = extend st t
        /\ stopsWith w (calls st) t e
  | (OutOfFuel, _) => False
  end.
Proof.
  destruct s as [iteration lastClickCount].
  unfold Main.loopCond, mainMeasure, Main.maxIterations. simpl. intros Hc.
  apply Z.ltb_lt in Hc.
  unfold Main.loopBody, Main.clickAllCollapsed, bind.
  rewrite evaluate_run.
  destruct (togglesFound w (calls st)) as [e|nodes] eqn:Hq.
  - exists [Evaluate ClickAllCollapsed], [WaitForTimeout 100].
    repeat split; [discriminate|]. repeat trace_step. now rewrite Hq.
  - destruct ((countClicked nodes =? 0)%Z || (countClicked nodes =? lastClickCount)%Z).
    + unfold ret. split; [reflexivity|]. repeat trace_step. now rewrite Hq.
    + unfold waitForTimeout. rewrite perform_run, extend_extend. simpl calls.
      destruct (waitForTimeoutFails w (calls st ++ [Evaluate ClickAllCollapsed]))
        as [e|] eqn:Hwait.
      * exists [Evaluate ClickAllCollapsed; WaitForTimeout 100], [].
        repeat split; [discriminate|]. repeat trace_step; [now rewrite Hq | exact Hwait].
      * unfold ret. split; [reflexivity|]. split; [|simpl; lia].
        repeat trace_step; [now rewrite Hq | exact Hwait].
Qed.

Lemma dedup_body_trace (s : Z * Z) (w : world) (st : state) :
  Dedup.loopCond s = true ->
  match Dedup.loopBody s w st with
  | (Done (Continue s'), st') =>
      st' = extend st (planFullTurn dedupPlan)
      /\ allResolve w (calls st) (planFullTurn dedupPlan)
      /\ S (dedupMeasure s') = dedupMeasure s
  | (Done (Break _), st') =>
      st' = extend st (firstn 1 (planFullTurn dedupPlan))
      /\ allResolve w (calls st) (firstn 1 (planFullTurn dedupPlan))
  | (Raise e, st') =>
      exists t rest,
        planFullTurn dedupPlan = t ++ rest /\ t <> [] /\ st' = extend st t
        /\ stopsWith w (calls st) t e
  | (OutOfFuel, _) => False
  end.
Proof.
  destruct s as [iteration lastClickCount].
  unfold Dedup.loopCond, dedupMeasure, Dedup.maxIterations. simpl. intros Hc.
  apply Z.ltb_lt in Hc.
  unfold Dedup.loopBody, Dedup.clickAllCollapsed, bind.
  rewrite evaluate_run.
  destruct (togglesFound w (calls st)) as [e|nodes] eqn:Hq.
  - exists [Evaluate ClickAllCollapsed], [WaitForTimeout 300].
    repeat split; [discriminate|]. repeat trace_step. now rewrite Hq.
  - destruct ((0 <? iteration)%Z && (countClicked nodes =? lastClickCount)%Z).
    { unfold ret. split; [reflexivity|]. repeat trace_step. now rewrite Hq. }
    destruct ((countClicked nodes =? 0)%Z && (2 <? iteration)%Z).
    { unfold ret. split; [reflexivity|]. repeat trace_step. now rewrite Hq. }
    unfold waitForTimeout. rewrite perform_run, extend_extend. simpl calls.
    destruct (waitForTimeoutFails w (calls st ++ [Evaluate ClickAllCollapsed]))
      as [e|] eqn:Hwait.
    + exists [Evaluate ClickAllCollapsed; WaitForTimeout 300], [].
      repeat split; [discriminate|]. repeat trace_step; [now rewrite Hq | exact Hwait].
    + unfold ret. split; [reflexivity|]. split; [|simpl; lia].
      repeat trace_step; [now rewrite Hq | exact Hwait].
Qed.

Lemma click_first_body_trace (s : Z) (w : world) (st : state) :
  ClickFirst.loopCond s = true ->
  match ClickFirst.loopBody s w st with
  | (Done (Continue s'), st') =>
      st' = extend st (planFullTurn clickFirstPlan)
      /\ allResolve w (calls st) (planFullTurn clickFirstPlan)
      /\ S (clickFirstMeasure s') = clickFirstMeasure s
  | (Done (Break _), st') =>
      st' = extend st (firstn 1 (planFullTurn clickFirstPlan))
      /\ allResolve w (calls st) (firstn 1 (planFullTurn clickFirstPlan))
  | (Raise e, st') =>
      exists t rest,
        planFullTurn clickFirstPlan = t ++ rest /\ t <> [] /\ st' = extend st t
        /\ stopsWith w (calls st) t e
  | (OutOfFuel, _) => False
  end.
Proof.
  unfold ClickFirst.loopCond, clickFirstMeasure, ClickFirst.maxIterations.
  cbn [planFullTurn clickFirstPlan firstn].
  intros Hc. apply Z.ltb_lt in Hc.
  unfold ClickFirst.loopBody, ClickFirst.getCollapsedCount,
    ClickFirst.clickFirstCollapsed, bind.
  rewrite evaluate_run.
  destruct (togglesFound w (calls st)) as [e|nodes] eqn:Hq.
  - exists [Evaluate GetCollapsedCount],
      [Evaluate ClickFirstCollapsed; WaitForTimeout 500].
    repeat split; [discriminate|]. repeat trace_step. now rewrite Hq.
  - destruct (Z.of_nat (length nodes) =? 0)%Z.
    { unfold ret. split; [reflexivity|]. repeat trace_step. now rewrite Hq. }
    rewrite evaluate_run, extend_extend. simpl calls.
    destruct (togglesFound w (calls st ++ [Evaluate GetCollapsedCount]))
      as [e|nodes'] eqn:Hq'.
    { exists [Evaluate GetCollapsedCount; Evaluate ClickFirstCollapsed],
        [WaitForTimeout 500].
      repeat split; [discriminate|].
      repeat trace_step; [now rewrite Hq | now rewrite Hq']. }
    unfold waitForTimeout. rewrite perform_run, extend_extend. simpl calls.
    rewrite <- app_assoc. simpl app.
    destruct (waitForTimeoutFails w
                (calls st ++ [Evaluate GetCollapsedCount; Evaluate ClickFirstCollapsed]))
      as [e|] eqn:Hwait.
    + exists [Evaluate GetCollapsedCount; Evaluate ClickFirstCollapsed;
              WaitForTimeout 500], [].
      repeat split; [discriminate|].
      repeat trace_step; [now rewrite Hq | now rewrite Hq' |].
      rewrite <- app_assoc. exact Hwait.
    + unfold ret. split; [reflexivity|]. split; [|simpl; lia].
      repeat trace_step; [now rewrite Hq | now rewrite Hq' |].
      rewrite <- app_assoc. exact Hwait.
Qed.

Lemma main_trace (fuel : nat) (w : world) (st : state) :
  Z.to_nat Main.maxIterations < fuel ->
  exists evs,
    Main.expandToggles fuel w st = (Done tt, extend st evs)
    /\ expansionTrace [Evaluate ClickAllCollapsed; WaitForTimeout 100] 20
         w (calls st) evs.
Proof.
  intros Hf.
  exact (guarded_while_trace Main.loopCond Main.loopBody mainMeasure
           (planFullTurn mainPlan) main_cond_measure main_body_trace
           fuel (0%Z, (-1)%Z) w st Hf).
Qed.

Lemma dedup_trace (fuel : nat) (w : world) (st : state) :
  Z.to_nat Dedup.maxIterations < fuel ->
  exists evs,
    Dedup.expandToggles fuel w st = (Done tt, extend st evs)
    /\ expansionTrace [Evaluate ClickAllCollapsed; WaitForTimeout 300] 20
         w (calls st) evs.
Proof.
  intros Hf.
  exact (guarded_while_trace Dedup.loopCond Dedup.loopBody dedupMeasure
           (planFullTurn dedupPlan) dedup_cond_measure dedup_body_trace
           fuel (0%Z, (-1)%Z) w st Hf).
Qed.

Lemma click_first_trace (fuel : nat) (w : world) (st : state) :
  Z.to_nat ClickFirst.maxIterations < fuel ->
  exists evs,
    ClickFirst.expandToggles fuel w st = (Done tt, extend st evs)
    /\ expansionTrace
         [Evaluate GetCollapsedCount; Evaluate ClickFirstCollapsed; WaitForTimeout 500]
         100 w (calls st) evs.
Proof.
  intros Hf.
  exact (guarded_while_trace ClickFirst.loopCond ClickFirst.loopBody clickFirstMeasure
           (planFullTurn clickFirstPlan) click_first_cond_measure
           click_first_body_trace fuel 0%Z w st Hf).
Qed.

(** ** The handler, call by call *)

Lemma steps_trace {A} (l : stepList) (k : M A) (w : world) :
  faithful l ->
  forall st,
    (allResolve w (calls st) (names l)
     /\ steps l k w st = k w (extend st (names l)))
    \/ (exists t rest e,
          names l = t ++ rest /\ t <> [] /\ stopsWith w (calls st) t e
          /\ steps l k w st = (Raise e, extend st t)).
Proof.
  intros Hl. induction Hl as [|[c fails] l Hc Hl IH]; intros st.
  - left. split; [apply allResolve_nil | simpl; now rewrite extend_nil].
  - simpl in Hc. change (names ((c, fails) :: l)) with (c :: names l).
    cbn [steps]. unfold bind. rewrite perform_run, Hc.
    destruct (faultOf w (calls st) c) as [e|] eqn:Hf.
    + right. exists [c], (names l), e.
      repeat split; [discriminate | now apply stopsWith_single].
    + destruct (IH (extend st [c]))
        as [[Hall Hrun]|(t & rest & e & Hn & Hne & Hstop & Hrun)].
      * left. split; [apply allResolve_cons; auto|]. now rewrite Hrun, extend_extend.
      * right. exists (c :: t), rest, e. rewrite Hrun, extend_extend, Hn.
        repeat split; [discriminate | now apply stopsWith_cons].
Qed.

Lemma main_faithful (u : Js.str) : faithful (mainBefore u) /\ faithful mainAfter.
Proof. split; repeat constructor. Qed.

Lemma dedup_faithful (u : Js.str) : faithful (dedupBefore u) /\ faithful dedupAfter.
Proof. split; repeat constructor. Qed.

Lemma click_first_faithful (u : Js.str) :
  faithful (clickFirstBefore u) /\ faithful clickFirstAfter.
Proof. split; repeat constructor. Qed.

(** The answer of the [catch] once the browser is assigned. *)
Lemma onFault_caught (e : thrown) (w : world) (st : state) :
  browser st = true ->
  onFault e w st = (caught w (calls st) e, extend st [Close]).
Proof.
  intros Hb. rewrite onFault_run, Hb. unfold caught.
  now destruct (closeFails w (calls st)).
Qed.

(** Every run of the [try ... catch], call by call. *)
Lemma pipeline_trace (before after : stepList) (expand : M unit)
  (extract : Dom.document -> ExtractionResult) (full : list call) (cap : nat)
  (w : world) (r : result response) (st' : state) :
  faithful before -> faithful after ->
  (forall w st, exists evs,
      expand w st = (Done tt, extend st evs)
      /\ expansionTrace full cap w (calls st) evs) ->
  tryCatch (pipeline before expand after extract) onFault w initial = (r, st') ->
  runTrace (names before) (names after) extract full cap w r (calls st').
Proof.
  intros Hbefore Hafter Hexp H. unfold tryCatch, pipeline in H.
  unfold bind at 1 in H. unfold launch in H. simpl calls in H. simpl app in H.
  destruct (launchFails w []) as [e|] eqn:Hlaunch.
  { rewrite onFault_run in H. simpl in H. injection H as <- <-.
    left. exists e. auto. }
  set (st1 := MkState [Launch] true) in H.
  right. split; [exact Hlaunch|].
  destruct (steps_trace before
              (do _ <- expand ;;
               steps after
                 (do extractedData <- evaluate ExtractContent documentSeen extract ;;
                  do _ <- close ;; ret (success extractedData))) w Hbefore st1)
    as [[Hb Hrun]|(t & rest & e & Hn & Hne & Hstop & Hrun)];
    rewrite Hrun in H; clear Hrun.
  2:{ (* a call before the expansion fails *)
    rewrite onFault_caught in H by reflexivity. injection H as <- <-.
    left. exists t, rest, e. simpl. auto. }
  right. split; [exact Hb|].
  unfold bind at 1 in H.
  destruct (Hexp w (extend st1 (names before))) as (evs & Hrun & Hevs).
  rewrite Hrun, extend_extend in H. clear Hrun.
  exists evs, (Launch :: names before ++ evs).
  split; [exact Hevs|]. split; [reflexivity|].
  destruct (steps_trace after
              (do extractedData <- evaluate ExtractContent documentSeen extract ;;
               do _ <- close ;; ret (success extractedData)) w Hafter
              (extend st1 (names before ++ evs)))
    as [[Ha Hrun]|(t & rest & e & Hn & Hne & Hstop & Hrun)];
    rewrite Hrun in H; clear Hrun.
  2:{ (* a call between the expansion and the extraction fails *)
    rewrite onFault_caught, !extend_extend in H by reflexivity. injection H as <- <-.
    left. exists t, (rest ++ [Evaluate ExtractContent]), e.
    rewrite Hn. simpl. rewrite <- !app_assoc. auto. }
  rewrite extend_extend in H. unfold bind at 1 in H.
  rewrite evaluate_run, extend_extend in H.
  simpl calls in *. simpl app in *.
  destruct (documentSeen w (Launch :: (names before ++ evs) ++ names after))
    as [e|doc] eqn:Hdoc.
  { (* the extraction fails *)
    rewrite onFault_caught in H by reflexivity. injection H as <- <-.
    left. exists (names after ++ [Evaluate ExtractContent]), [], e.
    rewrite app_nil_r. simpl. rewrite <- !app_assoc.
    split; [reflexivity|]. split; [now destruct (names after)|].
    split; [|auto].
    apply stopsWith_app; [exact Ha|]. apply stopsWith_single. simpl.
    now rewrite Hdoc. }
  right.
  assert (Hall : allResolve w (Launch :: names before ++ evs)
                   (names after ++ [Evaluate ExtractContent])).
  { apply allResolve_app. split; [exact Ha|].
    apply allResolve_cons. split; [|apply allResolve_nil]. simpl.
    now rewrite Hdoc. }
  split; [exact Hall|].
  exists ((Launch :: names before ++ evs) ++ names after ++ [Evaluate ExtractContent]).
  split; [reflexivity|].
  unfold bind at 1 in H. unfold close in H. rewrite perform_run, extend_extend in H.
  simpl calls in H. simpl app in H. rewrite <- !app_assoc in H.
  destruct (closeFails w
              (Launch :: names before ++ evs ++ names after ++ [Evaluate ExtractContent]))
    as [e|] eqn:Hclose.
  - rewrite onFault_caught in H by reflexivity. injection H as <- <-.
    right. exists e. simpl. rewrite <- !app_assoc. simpl. auto.
  - unfold ret in H. injection H as <- <-. left. exists doc. simpl.
    rewrite <- !app_assoc. rewrite <- app_assoc in Hdoc. auto.
Qed.

Lemma plan_trace (fetch : request -> M response) (p : plan) :
  In (fetch, p) revisionPlans ->
  (forall u, faithful (planBefore p u)) /\ faithful (planAfter p)
  /\ forall w st, exists evs,
       planExpand p w st = (Done tt, extend st evs)
       /\ expansionTrace (planFullTurn p) (planCap p) w (calls st) evs.
Proof.
  intros [[= <- <-]|[[= <- <-]|[[= <- <-]|[]]]]; simpl.
  - split; [intros u; apply (main_faithful u)|]. split; [apply (main_faithful [])|].
    intros w st. apply main_trace. unfold Main.loopFuel. lia.
  - split; [intros u; apply (dedup_faithful u)|]. split; [apply (dedup_faithful [])|].
    intros w st. apply dedup_trace. unfold Dedup.loopFuel. lia.
  - split; [intros u; apply (click_first_faithful u)|].
    split; [apply (click_first_faithful [])|].
    intros w st. apply click_first_trace. unfold ClickFirst.loopFuel. lia.
Qed.

(** A request that gets past validation is not answered early, and the
    url it is run with is its [url] parameter. *)
Lemma reachesTry_unique (hostRejected : Js.str -> bool) (req : request)
  (u v : Js.str) :
  reachesTry hostRejected req u -> reachesTry hostRejected req v -> u = v.
Proof. intros (_ & _ & Hu & _) (_ & _ & Hv & _). congruence. Qed.

(** Every run of a handler, call by call. *)
Lemma fetch_trace (fetch : request -> M response) (p : plan)
  (req : request) (w : world) (r : result response) (st : state) :
  In (fetch, p) revisionPlans ->
  fetch req w initial = (r, st) ->
  ((forall u, ~ reachesTry (planHost p) req u)
   /\ st = initial
   /\ exists resp, In resp earlyResponses /\ r = Done resp)
  \/ (exists notionUrl,
        reachesTry (planHost p) req notionUrl
        /\ planRun p notionUrl w r (calls st)).
Proof.
  intros Hp Hrun. rewrite (plan_fetch fetch p Hp) in Hrun.
  destruct (plan_trace fetch p Hp) as (Hb & Ha & Hexp).
  destruct (decide (pathname req = js"/scrape")) as [Hpath|Hpath].
  2:{ left. rewrite handler_wrong_path in Hrun by assumption. injection Hrun as <- <-.
      split; [intros u (H & _); contradiction|]. split; [reflexivity|].
      exists notFound. split; [now left | reflexivity]. }
  destruct (decide (method req = js"OPTIONS")) as [Hm|Hm].
  { left. rewrite handler_options in Hrun by assumption. injection Hrun as <- <-.
    split; [intros u (_ & H & _); contradiction|]. split; [reflexivity|].
    exists preflight. split; [right; now left | reflexivity]. }
  rewrite handler_scrape in Hrun by assumption.
  destruct (urlParam req) as [u|] eqn:Hu.
  2:{ left. injection Hrun as <- <-.
      split; [intros u (_ & _ & H & _); congruence|]. split; [reflexivity|].
      exists missingUrl. split; [right; right; now left | reflexivity]. }
  destruct u as [|c u].
  { left. injection Hrun as <- <-.
    split; [intros u (_ & _ & H & Hne & _); congruence|]. split; [reflexivity|].
    exists missingUrl. split; [right; right; now left | reflexivity]. }
  simpl in Hrun. destruct (planHost p (c :: u)) eqn:Hh.
  { left. injection Hrun as <- <-.
    split; [intros v (_ & _ & H & _ & Hv); congruence|]. split; [reflexivity|].
    exists invalidUrl. split; [right; right; right; now left | reflexivity]. }
  right. exists (c :: u).
  split; [repeat split; [assumption.. | discriminate | assumption]|].
  exact (pipeline_trace _ _ _ _ _ _ w r st (Hb (c :: u)) Ha Hexp Hrun).
Qed.

(** ** The order of the calls *)

(** Property X1.  In every revision the run of a request is one of the
    following.  The request is answered before the [try]: no call is
    made.  Otherwise [launch] is called; when it fails it is the only
    call and the answer is 500.  When it resolves, the calls before the
    expansion are made in order up to the first that fails; when they all
    resolve the expansion is made, then the calls after it and the
    extraction, again up to the first that fails.  After a failing call
    the next and last call is [close] and the answer is the one of the
    [catch].  When nothing fails [close] is called and the answer is 200
    with the extraction of the document seen; when that [close] fails
    the [catch] calls [close] once more. *)
Theorem calls_follow_the_script
  (fetch : request -> M response) (p : plan) (req : request) (w : world)
  (r : result response) (st : state) :
  In (fetch, p) revisionPlans ->
  fetch req w initial = (r, st) ->
  ((forall notionUrl, ~ reachesTry (planHost p) req notionUrl)
   /\ calls st = []
   /\ exists resp, In resp earlyResponses /\ r = Done resp)
  \/ (exists notionUrl,
        reachesTry (planHost p) req notionUrl
        /\ planRun p notionUrl w r (calls st)).
Proof.
  intros Hp Hrun.
  destruct (fetch_trace fetch p req w r st Hp Hrun) as [(Hno & -> & Hr)|H].
  - left. auto.
  - right. exact H.
Qed.

Lemma calls_follow_the_script_witness :
  let req := Samples.scrapeOf "https://www.notion.so/page" in
  exists notionUrl,
    reachesTry Main.hostRejected req notionUrl
    /\ planRun mainPlan notionUrl Samples.neverReady
         (Done (failure (ErrorObject (js"Timeout 5000ms exceeded"))))
         [Launch; NewPage;
          Goto (js"https://www.notion.so/page") (js"domcontentloaded") 60000;
          WaitForSelector contentRootMarker 5000; Close].
Proof.
  intros req.
  destruct (calls_follow_the_script Main.fetch mainPlan req Samples.neverReady
              (fst (Main.fetch req Samples.neverReady initial))
              (snd (Main.fetch req Samples.neverReady initial)))
    as [(Hno & _)|H].
  - left. reflexivity.
  - vm_compute. reflexivity.
  - exfalso. apply (Hno (js"https://www.notion.so/page")).
    repeat split; try reflexivity; discriminate.
  - exact H.
Defined.

(** ** Pages without content root *)

Lemma split_unique {A} (x : A) (a : list A) :
  forall b h rest,
    ~ In x a -> ~ In x b -> a ++ x :: b = h ++ x :: rest -> h = a /\ rest = b.
Proof.
  induction a as [|y a IH]; intros b h rest Ha Hb Heq; simpl in *.
  - destruct h as [|z h]; simpl in Heq.
    + injection Heq as <-. auto.
    + injection Heq as <- ->. exfalso. apply Hb. apply in_or_app. right. now left.
  - destruct h as [|z h]; simpl in Heq.
    + injection Heq as -> _. exfalso. apply Ha. now left.
    + injection Heq as <- Heq. destruct (IH b h rest) as [-> ->]; auto.
Qed.

Lemma expansion_no_extract (full : list call) (cap : nat) (w : world)
  (pre evs : list call) :
  ~ In (Evaluate ExtractContent) full ->
  expansionTrace full cap w pre evs ->
  ~ In (Evaluate ExtractContent) evs.
Proof.
  intros Hfull (n & tail & -> & Hcase) Hin.
  apply in_app_or in Hin as [Hin|Hin].
  - apply in_concat in Hin as (l & Hl & Hin). apply repeat_spec in Hl. now subst l.
  - destruct Hcase as [(_ & -> & _)|[(_ & -> & _)|(_ & t & rest & e & Hf & _ & -> & _)]].
    + destruct Hin.
    + apply Hfull. rewrite <- (firstn_skipn 1 full). apply in_or_app. now left.
    + apply in_app_or in Hin as [Hin|[Hin|[]]]; [|discriminate].
      apply Hfull. rewrite Hf. apply in_or_app. now left.
Qed.

(** What the three plans have in common: the first calls, the timed wait
    before the extraction, and extraction scripts that return the empty
    content when there is no content root. *)
Lemma plan_facts (fetch : request -> M response) (p : plan) (u : Js.str) :
  In (fetch, p) revisionPlans ->
  ~ In (Evaluate ExtractContent) (names (planBefore p u))
  /\ ~ In (Evaluate ExtractContent) (planFullTurn p)
  /\ (exists navigation selector timeout rest,
        names (planBefore p u)
        = NewPage :: navigation :: WaitForSelector selector timeout :: rest)
  /\ (exists ms, names (planAfter p) = [WaitForTimeout ms])
  /\ forall doc,
       Extractor.contentRoot doc = None ->
       planExtract p doc = MkExtraction (Extractor.computeTitle doc) [].
Proof.
  intros [[= <- <-]|[[= <- <-]|[[= <- <-]|[]]]]; simpl;
    (split; [intuition discriminate|]); (split; [intuition discriminate|]);
    (split; [eauto|]); (split; [eauto|]); intros doc Hnone.
  - unfold ExtractTopLevel.extract. now rewrite Hnone.
  - unfold ExtractDirect.extract. now rewrite Hnone.
  - unfold ExtractNaive.extract. now rewrite Hnone.
Qed.

Lemma caught_500 (w : world) (h : list call) (e : thrown) (resp : response) :
  caught w h e = Done resp -> status resp = 500%Z.
Proof.
  unfold caught. destruct (closeFails w h); [discriminate|]. now intros [= <-].
Qed.

(** On a page that never holds a content root, an honest wait fails. *)
Lemma rootless_run (fetch : request -> M response) (p : plan) (u : Js.str)
  (w : world) (doc : Dom.document) (r : result response) (final : list call) :
  In (fetch, p) revisionPlans ->
  Extractor.contentRoot doc = None ->
  honestWait w -> shows w doc ->
  planRun p u w r final ->
  ~ In (Evaluate ExtractContent) final
  /\ forall resp, r = Done resp -> status resp = 500%Z.
Proof.
  intros Hp Hnone Hhonest Hshows Hrun.
  destruct (plan_facts fetch p u Hp) as (Hb & _ & (nav & sel & ms & rest & Hnames) & _).
  destruct Hrun as [(e & _ & -> & ->)|(_ & [Hstop|(Hall & _)])].
  - split; [simpl; intuition discriminate|]. now intros resp [= <-].
  - destruct Hstop as (t & rest' & e & Hsplit & _ & _ & -> & ->).
    split; [|intros resp; apply caught_500].
    intros [Hin|Hin]; [discriminate|].
    apply in_app_or in Hin as [Hin|[Hin|[]]]; [|discriminate].
    apply Hb. rewrite Hsplit. apply in_or_app. now left.
  - exfalso. rewrite Hnames in Hall.
    specialize (Hall [NewPage; nav] (WaitForSelector sel ms) rest eq_refl).
    simpl in Hall. destruct (Hhonest _ Hall) as (doc' & Hdoc & Hroot).
    rewrite Hshows in Hdoc. injection Hdoc as <-. contradiction.
Qed.

(** When the extraction script gets to run on a page without content
    root, the request succeeds with the empty content. *)
Lemma rootless_extraction (fetch : request -> M response) (p : plan) (u : Js.str)
  (w : world) (doc : Dom.document) (r : result response) (final h rest : list call) :
  In (fetch, p) revisionPlans ->
  Extractor.contentRoot doc = None ->
  planRun p u w r final ->
  final = h ++ Evaluate ExtractContent :: rest ->
  documentSeen w h = inr doc ->
  closeFails w (h ++ [Evaluate ExtractContent]) = None ->
  r = Done (success (MkExtraction (Extractor.computeTitle doc) [])) /\ rest = [Close].
Proof.
  intros Hp Hnone Hrun Hfinal Hdoc Hclose.
  destruct (plan_facts fetch p u Hp) as (Hb & Hf & _ & (ms & Ha) & Hextract).
  assert (Hin : In (Evaluate ExtractContent) final)
    by (rewrite Hfinal; apply in_or_app; right; now left).
  destruct Hrun as [(e & _ & -> & _)|(_ & [Hstop|(Hall & Hrest)])].
  { exfalso. simpl in Hin. intuition discriminate. }
  { exfalso. destruct Hstop as (t & rest' & e & Hsplit & _ & _ & -> & _).
    destruct Hin as [Hin|Hin]; [discriminate|].
    apply in_app_or in Hin as [Hin|[Hin|[]]]; [|discriminate].
    apply Hb. rewrite Hsplit. apply in_or_app. now left. }
  destruct Hrest as (evs & reached & Hevs & -> & Hcase).
  pose proof (expansion_no_extract _ _ _ _ _ Hf Hevs) as Hne.
  assert (Hreached : ~ In (Evaluate ExtractContent)
                       ((Launch :: names (planBefore p u) ++ evs) ++ [WaitForTimeout ms])).
  { intros H. apply in_app_or in H as [[H|H]|[H|[]]]; try discriminate.
    apply in_app_or in H as [H|H]; [now apply Hb | now apply Hne]. }
  assert (Hclosed : forall l, (forall c, In c l -> c = Close) ->
                              ~ In (Evaluate ExtractContent) l).
  { intros l Hl H. apply Hl in H. discriminate. }
  rewrite Ha in Hcase.
  set (reached := Launch :: names (planBefore p u) ++ evs) in *.
  destruct Hcase as [(t & rest' & e & Hsplit & Hne' & Hstop & Hfin & _)
                    |(_ & whole & -> & [(doc' & _ & Hdoc' & Hfin & ->)
                                       |(e & Hfail & Hfin & _)])].
  - (* a call after the expansion fails *)
    exfalso. destruct Hstop as (h' & c & -> & _ & Hc).
    destruct h' as [|a [|b h']]; simpl in Hsplit.
    + injection Hsplit as <- _. subst final. simpl in Hin.
      destruct Hin as [Hin|Hin]; [discriminate|].
      apply in_app_or in Hin as [Hin|Hin];
        [apply in_app_or in Hin as [Hin|Hin]; [now apply Hb | now apply Hne]|].
      simpl in Hin. intuition discriminate.
    + injection Hsplit as <- <- _.
      assert (E : (reached ++ [WaitForTimeout ms]) ++ Evaluate ExtractContent :: [Close]
                  = h ++ Evaluate ExtractContent :: rest).
      { rewrite <- Hfinal, Hfin, <- app_assoc. reflexivity. }
      apply split_unique in E as [-> _];
        [|exact Hreached | apply Hclosed; intros c0 [<-|[]]; reflexivity].
      cbn [faultOf] in Hc. rewrite Hdoc in Hc. discriminate.
    + injection Hsplit as _ _ Hsplit. now destruct h'.
  - (* the run succeeds *)
    assert (E : (reached ++ [WaitForTimeout ms]) ++ Evaluate ExtractContent :: [Close]
                = h ++ Evaluate ExtractContent :: rest).
    { rewrite <- Hfinal, Hfin, <- !app_assoc. reflexivity. }
    apply split_unique in E as [-> ->];
      [|exact Hreached | apply Hclosed; intros c0 [<-|[]]; reflexivity].
    rewrite Hdoc in Hdoc'. injection Hdoc' as <-.
    now rewrite (Hextract doc Hnone).
  - (* [close] fails *)
    exfalso.
    assert (E : (reached ++ [WaitForTimeout ms])
                ++ Evaluate ExtractContent :: [Close; Close]
                = h ++ Evaluate ExtractContent :: rest).
    { rewrite <- Hfinal, Hfin, <- !app_assoc. reflexivity. }
    apply split_unique in E as [-> _];
      [|exact Hreached | apply Hclosed; intros c0 [<-|[<-|[]]]; reflexivity].
    rewrite <- app_assoc in Hclose. rewrite Hclose in Hfail. discriminate.
Qed.

(** Claim C7, as the code has it.  On a page none of whose elements
    carries [data-content-editable-root="true"], the extraction script of
    each revision returns the computed title with the empty string as
    content; the script is a total function, it raises nothing.  Whenever
    the script gets to run on such a page (and [close] then resolves) the
    request is answered 200 with that title and the empty content.  But
    the handler first waits for the content root: on a page that shows no
    content root at any time, a wait that resolves only when the root is
    there fails, the script is never run and every answer is a 500. *)
Theorem C7_no_content_root (doc : Dom.document) :
  (forall h, In h (Dom.elements doc) ->
             Dom.getAttribute (Dom.hnode h) rootMarker <> Some (js"true")) ->
  let empty := MkExtraction (Extractor.computeTitle doc) [] in
  (ExtractTopLevel.extract doc = empty
   /\ ExtractDirect.extract doc = empty
   /\ ExtractNaive.extract doc = empty)
  /\ status (success empty) = 200%Z
  /\ forall fetch p req w r st,
       In (fetch, p) revisionPlans ->
       fetch req w initial = (r, st) ->
       (forall h rest,
           calls st = h ++ Evaluate ExtractContent :: rest ->
           documentSeen w h = inr doc ->
           closeFails w (h ++ [Evaluate ExtractContent]) = None ->
           r = Done (success empty))
       /\ (honestWait w -> shows w doc ->
           (exists notionUrl, reachesTry (planHost p) req notionUrl) ->
           ~ In (Evaluate ExtractContent) (calls st)
           /\ forall resp, r = Done resp -> status resp = 500%Z).
Proof.
  intros Hnone empty. apply contentRoot_none in Hnone.
  split.
  { repeat split.
    - unfold ExtractTopLevel.extract. now rewrite Hnone.
    - unfold ExtractDirect.extract. now rewrite Hnone.
    - unfold ExtractNaive.extract. now rewrite Hnone. }
  split; [reflexivity|].
  intros fetch p req w r st Hp Hrun.
  destruct (fetch_trace fetch p req w r st Hp Hrun)
    as [(Hno & -> & _)|(u & Hreach & Htrace)].
  - split.
    + intros h rest Hcalls. now destruct h.
    + intros _ _ (u & Hu). now elim (Hno u).
  - split.
    + intros h rest Hcalls Hdoc Hclose.
      exact (proj1 (rootless_extraction fetch p u w doc r (calls st) h rest
                      Hp Hnone Htrace Hcalls Hdoc Hclose)).
    + intros Hhonest Hshows _.
      exact (rootless_run fetch p u w doc r (calls st) Hp Hnone Hhonest Hshows Htrace).
Qed.

Lemma C7_no_content_root_witness :
  let req := Samples.scrapeOf "https://www.notion.so/page" in
  ExtractTopLevel.extract Samples.bare = MkExtraction (js"Untitled") []
  /\ honestWait rootLost
  /\ fst (Main.fetch req rootLost initial)
     = Done (success (MkExtraction (js"Untitled") [])).
Proof.
  intros req.
  assert (Hnone : forall h, In h (Dom.elements Samples.bare) ->
            Dom.getAttribute (Dom.hnode h) rootMarker <> Some (js"true")).
  { intros h Hh. vm_compute in Hh.
    destruct Hh as [<-|[<-|[]]]; vm_compute; discriminate. }
  pose proof (C7_no_content_root Samples.bare Hnone) as ((H1 & _) & _ & Hrun).
  split; [exact H1|]. split.
  { intros h. unfold rootLost. simpl. intros H.
    destruct (afterWait h) eqn:Hafter; [discriminate|].
    exists Samples.plain. simpl. rewrite Hafter.
    split; [reflexivity | vm_compute; discriminate]. }
  destruct (Hrun Main.fetch mainPlan req rootLost
              (fst (Main.fetch req rootLost initial))
              (snd (Main.fetch req rootLost initial))) as [Hext _].
  - left. reflexivity.
  - vm_compute. reflexivity.
  - apply (Hext [Launch; NewPage;
                 Goto (js"https://www.notion.so/page") (js"domcontentloaded") 60000;
                 WaitForSelector contentRootMarker 5000;
                 Evaluate ClickAllCollapsed; WaitForTimeout 500] [Close]).
    + vm_compute. reflexivity.
    + vm_compute. reflexivity.
    + reflexivity.
Defined.

(** Claim C7 as stated fails.  The sample page has no content root at any
    time, so the wait for it times out: every revision answers 500 and
    never runs the extraction script (the click-first revision is asked
    for a url that holds both markers, the only kind it lets through). *)
Lemma C7_page_without_root_is_answered_500 :
  let req := Samples.scrapeOf "https://www.notion.so/page" in
  let both := Samples.scrapeOf "https://www.notion.so/notion.site" in
  let timeout := ErrorObject (js"Timeout 5000ms exceeded") in
  (forall h, In h (Dom.elements Samples.bare) ->
             Dom.getAttribute (Dom.hnode h) rootMarker <> Some (js"true"))
  /\ shows Samples.neverReady Samples.bare
  /\ honestWait Samples.neverReady
  /\ fst (Main.fetch req Samples.neverReady initial) = Done (failure timeout)
  /\ fst (Dedup.fetch req Samples.neverReady initial) = Done (failure timeout)
  /\ fst (ClickFirst.fetch both Samples.neverReady initial) = Done (failure timeout)
  /\ status (failure timeout) = 500%Z
  /\ ~ In (Evaluate ExtractContent)
          (calls (snd (Main.fetch req Samples.neverReady initial))).
Proof.
  cbv zeta. split.
  { intros h Hh. vm_compute in Hh.
    destruct Hh as [<-|[<-|[]]]; vm_compute; discriminate. }
  split; [intros h; reflexivity|].
  split; [intros h H; discriminate|].
  repeat (split; [vm_compute; reflexivity|]).
  vm_compute. intuition discriminate.
Qed.

(** ** How often the browser is launched and closed *)

(** Property X2.  In every revision a request launches the browser at most
    once and closes it at most twice.  When [launch] fails, [close] is
    never called.  When [launch] resolves and no call to [close] fails,
    [close] is called exactly once, whatever else fails. *)
Theorem browser_closed_once
  (fetch : request -> M response) (p : plan) (req : request) (w : world)
  (r : result response) (st : state) :
  In (fetch, p) revisionPlans ->
  fetch req w initial = (r, st) ->
  occurrences Launch (calls st) <= 1
  /\ occurrences Close (calls st) <= 2
  /\ (launchFails w [] <> None -> occurrences Close (calls st) = 0)
  /\ (In Launch (calls st) -> launchFails w [] = None ->
      (forall h, closeFails w h = None) ->
      occurrences Close (calls st) = 1).
Proof.
  intros Hp Hrun.
  destruct (fetch_run fetch p req w r st Hp Hrun)
    as [(resp & _ & _ & _ & ->)|(u & Hreach & Hout)].
  { simpl. repeat split; try lia; try reflexivity; try (intros []). }
  destruct Hout as [(e & Hl & _ & Hfin)|(evs & Hevs & Hl & Hout)].
  { simpl in Hfin. rewrite Hfin.
    split; [vm_compute; lia|]. split; [vm_compute; lia|].
    split; [reflexivity|]. intros _ H. congruence. }
  destruct (script_quiet fetch p u evs Hp Hevs) as [Hq _].
  assert (Hdone : forall done rest,
             itinerary (planBefore p u) evs (planAfter p) = done ++ rest ->
             occurrences Launch (Launch :: done ++ [Close]) = 1
             /\ occurrences Close (Launch :: done ++ [Close]) = 1).
  { intros done rest Hs. rewrite Hs in Hq.
    destruct (prefix_facts Close done rest Hq) as (Hlz & Hcz & _).
    rewrite occurrences_cons_eq, occurrences_cons_ne by discriminate.
    rewrite !occurrences_app, Hlz, Hcz, !occurrences_single.
    destruct (decide (Close = Launch)); [discriminate|].
    destruct (decide (Close = Close)); [|congruence]. lia. }
  destruct Hout as [(doc & _ & _ & _ & Hfin)|[(done & rest & e & Hs & Hne & Hfin & _)
                                             |(e & Hc & Hfin & _)]];
    simpl in Hfin; rewrite Hfin.
  - destruct (Hdone (itinerary (planBefore p u) evs (planAfter p)) []) as [H1 H2];
      [now rewrite app_nil_r|].
    rewrite H1, H2. split; [lia|]. split; [lia|]. split; [congruence | reflexivity].
  - destruct (Hdone done rest Hs) as [H1 H2].
    rewrite H1, H2. split; [lia|]. split; [lia|]. split; [congruence | reflexivity].
  - destruct (Hdone (itinerary (planBefore p u) evs (planAfter p)) []) as [H1 H2];
      [now rewrite app_nil_r|].
    change [Close; Close] with ([Close] ++ [Close]).
    rewrite app_assoc, app_comm_cons, !occurrences_app, H1, H2, !occurrences_single.
    destruct (decide (Close = Launch)); [discriminate|].
    destruct (decide (Close = Close)); [|congruence].
    split; [lia|]. split; [lia|]. split; [congruence|].
    intros _ _ Hnever. rewrite Hnever in Hc. discriminate.
Qed.

Lemma browser_closed_once_witness :
  occurrences Close
    (calls (snd (Main.fetch (Samples.scrapeOf "https://www.notion.so/page")
                   Samples.neverReady initial))) = 1.
Proof.
  refine (proj2 (proj2 (proj2
    (browser_closed_once Main.fetch mainPlan
       (Samples.scrapeOf "https://www.notion.so/page") Samples.neverReady
       (fst (Main.fetch (Samples.scrapeOf "https://www.notion.so/page")
               Samples.neverReady initial))
       (snd (Main.fetch (Samples.scrapeOf "https://www.notion.so/page")
               Samples.neverReady initial)) _ _))) _ _ _).
  - left. reflexivity.
  - vm_compute. reflexivity.
  - vm_compute. left. reflexivity.
  - reflexivity.
  - intros h. reflexivity.
Defined.

(** ** The time a request can be made to wait *)

(** Property X3.  The waits asked of [page.waitForTimeout] by one request
    add up to at most the fixed waits of the revision plus one loop delay
    per allowed turn: 2500 ms in [src/index.ts], 8500 ms in the
    de-duplicating revision, 52000 ms in the click-first revision. *)
Theorem wait_budget
  (fetch : request -> M response) (p : plan) (req : request) (w : world)
  (r : result response) (st : state) :
  In (fetch, p) revisionPlans ->
  fetch req w initial = (r, st) ->
  (waited (calls st) <= planBudget p)%Z
  /\ planBudget mainPlan = 2500%Z
  /\ planBudget dedupPlan = 8500%Z
  /\ planBudget clickFirstPlan = 52000%Z.
Proof.
  intros Hp Hrun. split; [|repeat split].
  assert (Hpos : (0 <= planBudget p)%Z).
  { destruct Hp as [[= <- <-]|[[= <- <-]|[[= <- <-]|[]]]]; vm_compute; discriminate. }
  destruct (fetch_run fetch p req w r st Hp Hrun)
    as [(resp & _ & _ & _ & ->)|(u & Hreach & Hout)]; [exact Hpos|].
  destruct Hout as [(e & _ & _ & Hfin)|(evs & Hevs & _ & Hout)].
  { simpl in Hfin. rewrite Hfin. exact Hpos. }
  destruct (script_quiet fetch p u evs Hp Hevs) as [Hq Hw].
  assert (Hdone : forall done rest,
             itinerary (planBefore p u) evs (planAfter p) = done ++ rest ->
             (waited (Launch :: done ++ [Close]) <= planBudget p)%Z).
  { intros done rest Hs. rewrite Hs in Hq, Hw.
    destruct (prefix_facts Close done rest Hq) as (_ & _ & Hle).
    cbn [waited waitOf]. rewrite waited_app. simpl. lia. }
  destruct Hout as [(doc & _ & _ & _ & Hfin)|[(done & rest & e & Hs & Hne & Hfin & _)
                                             |(e & _ & Hfin & _)]];
    simpl in Hfin; rewrite Hfin.
  - apply (Hdone _ []). now rewrite app_nil_r.
  - now apply (Hdone done rest).
  - cbn [waited waitOf]. rewrite waited_app. simpl. lia.
Qed.

Lemma wait_budget_witness :
  (waited (calls (snd (ClickFirst.fetch
                         (Samples.scrapeOf "https://notion.site/notion.so")
                         Samples.stubborn initial))) <= 52000)%Z.
Proof.
  refine (proj1
    (wait_budget ClickFirst.fetch clickFirstPlan
       (Samples.scrapeOf "https://notion.site/notion.so") Samples.stubborn
       (fst (ClickFirst.fetch (Samples.scrapeOf "https://notion.site/notion.so")
               Samples.stubborn initial))
       (snd (ClickFirst.fetch (Samples.scrapeOf "https://notion.site/notion.so")
               Samples.stubborn initial)) _ _)).
  - right. right. left. reflexivity.
  - vm_compute. reflexivity.
Defined.

(** ** Faults before the page is ready *)

(** Property X4.  When the browser cannot be launched, every revision
    answers 500 with the message of the fault; [launch] is the only call
    made, [close] is not called on the browser that was never acquired. *)
Theorem launch_failure_answer
  (fetch : request -> M response) (p : plan) (req : request)
  (notionUrl : Js.str) (w : world) (e : thrown) :
  In (fetch, p) revisionPlans ->
  reachesTry (planHost p) req notionUrl ->
  launchFails w [] = Some e ->
  fetch req w initial = (Done (failure e), MkState [Launch] false)
  /\ status (failure e) = 500%Z.
Proof.
  intros Hp Hreach Hl. split; [|reflexivity].
  rewrite (plan_fetch fetch p Hp), (handler_try _ _ _ _ _ _ Hreach).
  unfold tryCatch, pipeline. unfold bind at 1. unfold launch. simpl calls.
  rewrite Hl. rewrite onFault_run. reflexivity.
Qed.

Lemma launch_failure_answer_witness :
  Main.fetch (Samples.scrapeOf "https://www.notion.so/page")
    (Samples.unlaunchable (js"no browser")) initial
  = (Done (failure (ErrorObject (js"no browser"))), MkState [Launch] false).
Proof.
  refine (proj1 (launch_failure_answer Main.fetch mainPlan
                   (Samples.scrapeOf "https://www.notion.so/page")
                   (js"https://www.notion.so/page")
                   (Samples.unlaunchable (js"no browser"))
                   (ErrorObject (js"no browser")) _ _ _)).
  - left. reflexivity.
  - repeat split; try reflexivity; discriminate.
  - reflexivity.
Defined.

(** Property X5.  When the content root does not show up in time (the wait
    for its selector fails) after [launch], [newPage] and the navigation
    have resolved, every revision closes the browser and answers 500 with
    the message of the fault: no toggle is expanded and nothing is
    extracted. *)
Theorem content_wait_failure
  (fetch : request -> M response) (p : plan) (req : request)
  (notionUrl : Js.str) (w : world) (e : thrown)
  (navigation selectorWait : call) (rest : list call) :
  In (fetch, p) revisionPlans ->
  reachesTry (planHost p) req notionUrl ->
  names (planBefore p notionUrl) = NewPage :: navigation :: selectorWait :: rest ->
  launchFails w [] = None ->
  newPageFails w [Launch] = None ->
  gotoFails w [Launch; NewPage] = None ->
  waitForSelectorFails w [Launch; NewPage; navigation] = Some e ->
  closeFails w [Launch; NewPage; navigation; selectorWait] = None ->
  fetch req w initial
  = (Done (failure e),
     MkState [Launch; NewPage; navigation; selectorWait; Close] true).
Proof.
  intros Hp Hreach Hnames Hl Hn Hg Hs Hc.
  rewrite (plan_fetch fetch p Hp), (handler_try _ _ _ _ _ _ Hreach).
  unfold tryCatch, pipeline. unfold bind at 1. unfold launch. simpl calls. rewrite Hl.
  destruct Hp as [[= <- <-]|[[= <- <-]|[[= <- <-]|[]]]]; simpl in Hnames |- *;
    injection Hnames as <- <- _;
    unfold bind; rewrite !perform_run; simpl calls;
    rewrite Hn; simpl; rewrite Hg; simpl; rewrite Hs;
    rewrite onFault_run; simpl; rewrite Hc; reflexivity.
Qed.

Lemma content_wait_failure_witness :
  Main.fetch (Samples.scrapeOf "https://www.notion.so/page") Samples.neverReady initial
  = (Done (failure (ErrorObject (js"Timeout 5000ms exceeded"))),
     MkState [Launch; NewPage;
              Goto (js"https://www.notion.so/page") (js"domcontentloaded") 60000;
              WaitForSelector contentRootMarker 5000; Close] true).
Proof.
  apply (content_wait_failure Main.fetch mainPlan
           (Samples.scrapeOf "https://www.notion.so/page")
           (js"https://www.notion.so/page") Samples.neverReady
           (ErrorObject (js"Timeout 5000ms exceeded"))
           (Goto (js"https://www.notion.so/page") (js"domcontentloaded") 60000)
           (WaitForSelector contentRootMarker 5000) []).
  - left. reflexivity.
  - repeat split; try reflexivity; discriminate.
  - reflexivity.
  - reflexivity.
  - reflexivity.
  - reflexivity.
  - reflexivity.
  - reflexivity.
Defined.

(** ** The answers *)

(** Property X6.  Whatever a revision answers has one of the statuses 200,
    400, 404 and 500 and carries the three CORS headers.  Only the
    pre-flight answer has no body; every other answer is declared as JSON.
    A 200 with a body holds the title and the content of an extraction. *)
Theorem answers_well_formed
  (fetch : request -> M response) (p : plan) (req : request) (w : world)
  (resp : response) (st : state) :
  In (fetch, p) revisionPlans ->
  fetch req w initial = (Done resp, st) ->
  In (status resp) [200; 400; 404; 500]%Z
  /\ (forall h, In h CORS_HEADERS -> In h (headers resp))
  /\ (body resp = None -> resp = preflight /\ method req = js"OPTIONS")
  /\ (body resp <> None ->
      In (js"Content-Type", js"application/json") (headers resp))
  /\ (status resp = 200%Z -> body resp <> None ->
      exists extractedData, resp = success extractedData).
Proof.
  intros Hp Hrun.
  destruct (fetch_run fetch p req w (Done resp) st Hp Hrun)
    as [(resp' & Hin & Hopt & [= <-] & ->)|(u & _ & Hout)].
  - unfold earlyResponses in Hin.
    destruct Hin as [<-|[<-|[<-|[<-|[]]]]]; simpl;
      (split; [tauto|]); (split; [intros h Hh; simpl in Hh |- *; tauto|]).
    + split; [discriminate|]. split; [intros _; now left | discriminate].
    + split; [auto|]. split; [intros H; now elim H | intros _ H; now elim H].
    + split; [discriminate|]. split; [intros _; now left | discriminate].
    + split; [discriminate|]. split; [intros _; now left | discriminate].
  - assert (Hshape : (exists x, resp = success x) \/ (exists e, resp = failure e)).
    { destruct Hout as [(e & _ & [= ->] & _)|(evs & _ & _ & Hout)]; [right; eauto|].
      destruct Hout as [(doc & _ & _ & [= ->] & _)|[(done & rest & e & _ & _ & _ & Hr)
                                                   |(e & _ & _ & Hr)]].
      - left. eauto.
      - right. exists e. destruct (closeFails w _); congruence.
      - right. exists e. destruct (closeFails w _); congruence. }
    destruct Hshape as [[x ->]|[e ->]]; simpl;
      (split; [tauto|]); (split; [intros h Hh; simpl in Hh |- *; tauto|]);
      (split; [discriminate|]); (split; [intros _; now left|]).
    + eauto.
    + discriminate.
Qed.

Lemma answers_well_formed_witness :
  exists resp st,
    Dedup.fetch (Samples.scrapeOf "https://www.notion.so/page")
      (Samples.quiet Samples.plain) initial = (Done resp, st)
    /\ In (status resp) [200; 400; 404; 500]%Z
    /\ (forall h, In h CORS_HEADERS -> In h (headers resp)).
Proof.
  eexists. eexists. split; [vm_compute; reflexivity|].
  refine (let H := answers_well_formed Dedup.fetch dedupPlan
                     (Samples.scrapeOf "https://www.notion.so/page")
                     (Samples.quiet Samples.plain) _ _ _ _ in
          conj (proj1 H) (proj1 (proj2 H))).
  - right. left. reflexivity.
  - vm_compute. reflexivity.
Defined.



(** ** The expansion is best effort *)

(** Property X8.  Whatever the toggle queries do, throw included, a
    request whose other calls all resolve is answered 200 with the
    extraction of the document the page shows. *)
Theorem expansion_faults_do_not_fail_the_request
  (fetch : request -> M response) (p : plan) (req : request)
  (notionUrl : Js.str) (w : world) (doc : Dom.document) :
  In (fetch, p) revisionPlans ->
  reachesTry (planHost p) req notionUrl ->
  resolves w -> shows w doc ->
  exists st,
    fetch req w initial = (Done (success (planExtract p doc)), st)
    /\ status (success (planExtract p doc)) = 200%Z.
Proof.
  intros Hp Hreach Hres Hdoc.
  destruct Hp as [[= <- <-]|[[= <- <-]|[[= <- <-]|[]]]]; simpl in *.
  - unfold Main.fetch. rewrite (handler_try _ _ _ _ _ _ Hreach).
    destruct (main_run_success w doc notionUrl Hres Hdoc initial) as (resp & st & -> & ->).
    eauto.
  - unfold Dedup.fetch. rewrite (handler_try _ _ _ _ _ _ Hreach).
    destruct (dedup_run_success w doc notionUrl Hres Hdoc initial) as (resp & st & -> & ->).
    eauto.
  - unfold ClickFirst.fetch. rewrite (handler_try _ _ _ _ _ _ Hreach).
    destruct (click_first_run_success w doc notionUrl Hres Hdoc initial)
      as (resp & st & -> & ->).
    eauto.
Qed.

Lemma expansion_faults_do_not_fail_the_request_witness :
  exists st,
    Main.fetch (Samples.scrapeOf "https://www.notion.so/page")
      (brokenToggles Samples.plain) initial
    = (Done (success (ExtractTopLevel.extract Samples.plain)), st)
    /\ In ConsoleLog (calls st).
Proof.
  destruct (expansion_faults_do_not_fail_the_request Main.fetch mainPlan
              (Samples.scrapeOf "https://www.notion.so/page")
              (js"https://www.notion.so/page") (brokenToggles Samples.plain)
              Samples.plain) as (st & Hrun & _).
  - left. reflexivity.
  - repeat split; try reflexivity; discriminate.
  - intros h. repeat split.
  - intros h. reflexivity.
  - exists st. split; [exact Hrun|].
    assert (Hst : st = snd (Main.fetch (Samples.scrapeOf "https://www.notion.so/page")
                              (brokenToggles Samples.plain) initial))
      by now rewrite Hrun.
    rewrite Hst. vm_compute. do 5 right. left. reflexivity.
Defined.

(** ** The expansion, call by call *)

(** Property X9.  The expansion phase of each revision returns without a
    fault, whatever the page does.  Its calls are some full turns of the
    loop (the query, in the click-first revision followed by the click
    script, then the wait of 100, 300 or 500 ms), every call of which
    resolved, and then: nothing more once the cap of 20, 20 or 100 turns
    is reached; or, below the cap, the query alone, on which the loop
    breaks; or, below the cap, the start of one more turn up to a call
    that fails, followed by the one [console.log] of the [catch]. *)
Theorem expansion_calls (w : world) (st : state) :
  (forall fuel, Z.to_nat Main.maxIterations < fuel ->
     exists evs,
       Main.expandToggles fuel w st = (Done tt, extend st evs)
       /\ expansionTrace [Evaluate ClickAllCollapsed; WaitForTimeout 100] 20
            w (calls st) evs)
  /\ (forall fuel, Z.to_nat Dedup.maxIterations < fuel ->
     exists evs,
       Dedup.expandToggles fuel w st = (Done tt, extend st evs)
       /\ expansionTrace [Evaluate ClickAllCollapsed; WaitForTimeout 300] 20
            w (calls st) evs)
  /\ (forall fuel, Z.to_nat ClickFirst.maxIterations < fuel ->
     exists evs,
       ClickFirst.expandToggles fuel w st = (Done tt, extend st evs)
       /\ expansionTrace
            [Evaluate GetCollapsedCount; Evaluate ClickFirstCollapsed;
             WaitForTimeout 500] 100 w (calls st) evs).
Proof.
  split; [|split]; intros fuel Hf.
  - now apply main_trace.
  - now apply dedup_trace.
  - now apply click_first_trace.
Qed.

Lemma expansion_calls_witness :
  exists evs,
    Main.expandToggles Main.loopFuel Samples.stubborn initial
    = (Done tt, extend initial evs)
    /\ expansionTrace [Evaluate ClickAllCollapsed; WaitForTimeout 100] 20
         Samples.stubborn [] evs.
Proof.
  apply (proj1 (expansion_calls Samples.stubborn initial)).
  vm_compute. lia.
Defined.

(** ** The host check, seen from the handler *)

(** Property X10.  For a GET on [/scrape] with a non-empty url,
    [src/index.ts] and the de-duplicating revision give the invalid-URL
    answer exactly when the url holds neither "notion.so" nor
    "notion.site" anywhere, path and query included; the click-first
    revision gives it unless the url holds both. *)
Theorem invalid_url_answer (req : request) (notionUrl : Js.str) (w : world) :
  pathname req = js"/scrape" ->
  method req <> js"OPTIONS" ->
  urlParam req = Some notionUrl ->
  notionUrl <> [] ->
  let holds marker := exists a b, notionUrl = a ++ marker ++ b in
  (Main.fetch req w initial = (Done invalidUrl, initial)
     <-> ~ holds markerSo /\ ~ holds markerSite)
  /\ (Dedup.fetch req w initial = (Done invalidUrl, initial)
     <-> ~ holds markerSo /\ ~ holds markerSite)
  /\ (ClickFirst.fetch req w initial = (Done invalidUrl, initial)
     <-> ~ (holds markerSo /\ holds markerSite)).
Proof.
  intros Hpath Hm Hu Hne holds.
  assert (Hgen : forall fetch p,
             In (fetch, p) revisionPlans ->
             (fetch req w initial = (Done invalidUrl, initial)
              <-> planHost p notionUrl = true)).
  { intros fetch p Hp. split.
    - intros Hrun. destruct (planHost p notionUrl) eqn:Hh; [reflexivity|]. exfalso.
      destruct (fetch_run fetch p req w _ _ Hp Hrun)
        as [(resp & _ & _ & _ & _)|(u & _ & Hout)].
      + rewrite (plan_fetch fetch p Hp) in Hrun.
        rewrite (handler_try _ _ _ notionUrl) in Hrun by (repeat split; assumption).
        assert (Hcalls : calls initial <> []).
        { destruct (pipeline_run _ _ (planExpand p) _ _ w initial initial _
                      (plan_expansion fetch p Hp) eq_refl Hrun)
            as [(e & _ & _ & H)|(evs & _ & _ & [(d & _ & _ & _ & H)
                                   |[(dn & rs & e & _ & _ & H & _)|(e & _ & H & _)]])];
            simpl in H; discriminate. }
        now apply Hcalls.
      + destruct Hout as [(e & _ & _ & H)|(evs & _ & _ & [(d & _ & _ & _ & H)
                             |[(dn & rs & e & _ & _ & H & _)|(e & _ & H & _)]])];
          simpl in H; discriminate.
    - intros Hh. rewrite (plan_fetch fetch p Hp).
      rewrite handler_scrape, Hu by assumption.
      destruct notionUrl; [contradiction|]. simpl. now rewrite Hh. }
  assert (Hso : Js.includes notionUrl markerSo = true <-> holds markerSo)
    by apply includes_spec.
  assert (Hsite : Js.includes notionUrl markerSite = true <-> holds markerSite)
    by apply includes_spec.
  split; [|split].
  - rewrite (Hgen Main.fetch mainPlan) by (left; reflexivity).
    simpl. unfold Main.hostRejected, HostCheck.rejectedAnd.
    rewrite <- Hso, <- Hsite.
    destruct (Js.includes notionUrl markerSo), (Js.includes notionUrl markerSite);
      simpl; intuition congruence.
  - rewrite (Hgen Dedup.fetch dedupPlan) by (right; left; reflexivity).
    simpl. unfold Dedup.hostRejected, HostCheck.rejectedAnd.
    rewrite <- Hso, <- Hsite.
    destruct (Js.includes notionUrl markerSo), (Js.includes notionUrl markerSite);
      simpl; intuition congruence.
  - rewrite (Hgen ClickFirst.fetch clickFirstPlan) by (right; right; left; reflexivity).
    simpl. unfold ClickFirst.hostRejected, HostCheck.rejectedOr.
    rewrite <- Hso, <- Hsite.
    destruct (Js.includes notionUrl markerSo), (Js.includes notionUrl markerSite);
      simpl; intuition congruence.
Qed.

Lemma invalid_url_answer_witness :
  Main.fetch (Samples.scrapeOf "https://example.com/?ref=notion.so")
    (Samples.quiet Samples.plain) initial <> (Done invalidUrl, initial).
Proof.
  intros H.
  apply (proj1 (proj1 (invalid_url_answer
                         (Samples.scrapeOf "https://example.com/?ref=notion.so")
                         (js"https://example.com/?ref=notion.so")
                         (Samples.quiet Samples.plain)
                         eq_refl ltac:(discriminate) eq_refl ltac:(discriminate)))) in H.
  destruct H as [H _]. apply H.
  exists (js"https://example.com/?ref="), []. reflexivity.
Defined.

(** ** The click scripts and the loops *)

Lemma Qgtb_spec (a b : Q) : Qgtb a b = true <-> (b < a)%Q.
Proof.
  unfold Qgtb. rewrite negb_true_iff. split.
  - intros H. apply Qnot_le_lt. intros Hle. apply Qle_bool_iff in Hle. congruence.
  - intros H. apply not_true_is_false. intros Hle. apply Qle_bool_iff in Hle.
    exact (Qlt_not_le _ _ H Hle).
Qed.

Lemma clicked_clickable (node : toggle) : clicked node = true <-> clickable node.
Proof.
  unfold clicked, clickable, visible, disabled.
  rewrite <- !Qgtb_spec.
  destruct (isConnected node); simpl; [|split; [discriminate | intros (? & _); discriminate]].
  destruct (Qgtb (rectWidth node) 1); simpl;
    [|split; [discriminate | intros (_ & ? & _); discriminate]].
  destruct (Qgtb (rectHeight node) 1); simpl;
    [|split; [discriminate | intros (_ & _ & ? & _); discriminate]].
  destruct (Qgtb (rectBottom node) 0); simpl;
    [|split; [discriminate | intros (_ & _ & _ & ? & _); discriminate]].
  destruct (Qgtb (rectRight node) 0); simpl;
    [|split; [discriminate | intros (_ & _ & _ & _ & ? & _); discriminate]].
  destruct (ariaDisabled node) as [v|]; simpl.
  - destruct (Js.eqb v (js"true")) eqn:Hv.
    + apply eqb_true in Hv. subst v. split; [discriminate|].
      intros (_ & _ & _ & _ & _ & H). now elim H.
    + apply eqb_false in Hv. split; [|reflexivity]. intros _.
      repeat split. congruence.
  - split; [|reflexivity]. intros _. repeat split. discriminate.
Qed.

Lemma countClicked_fold (nodes : list toggle) :
  forall acc,
    fold_left (fun clickedCount node =>
                 if clicked node then (clickedCount + 1)%Z else clickedCount)
              nodes acc
    = (acc + Z.of_nat (length (List.filter clicked nodes)))%Z.
Proof.
  induction nodes as [|n nodes IH]; intros acc; simpl; [lia|].
  rewrite IH. destruct (clicked n); simpl length; lia.
Qed.

Lemma countClicked_length (nodes : list toggle) :
  countClicked nodes = Z.of_nat (length (List.filter clicked nodes)).
Proof. unfold countClicked. rewrite countClicked_fold. lia. Qed.

Lemma clicked_filter (nodes : list toggle) :
  length (List.filter clicked nodes) = length (filter clickable nodes).
Proof.
  induction nodes as [|n nodes IH]; [reflexivity|].
  simpl. rewrite filter_cons.
  destruct (decide (clickable n)) as [Hc|Hc].
  - apply clicked_clickable in Hc. rewrite Hc. simpl. now rewrite IH.
  - destruct (clicked n) eqn:Hn; [|exact IH].
    apply clicked_clickable in Hn. contradiction.
Qed.

(** Property X11.  The count returned by the click script is the number
    of matched nodes that are connected, more than 1 wide and more than 1
    high, with bottom and right edges beyond 0, and not marked
    [aria-disabled="true"]: it lies between 0 and the number of matched
    nodes, and it is 0 exactly when no matched node is such. *)
Theorem countClicked_counts (nodes : list toggle) :
  countClicked nodes = Z.of_nat (length (filter clickable nodes))
  /\ (0 <= countClicked nodes <= Z.of_nat (length nodes))%Z
  /\ (countClicked nodes = 0%Z <-> forall node, In node nodes -> ~ clickable node).
Proof.
  pose proof (countClicked_length nodes) as Hc.
  split; [now rewrite Hc, clicked_filter|]. split.
  - rewrite Hc. pose proof (filter_length_le clicked nodes). lia.
  - rewrite Hc. split.
    + intros H node Hin Hcl. apply clicked_clickable in Hcl.
      assert (Hin' : In node (List.filter clicked nodes)) by (apply filter_In; auto).
      destruct (List.filter clicked nodes); [destruct Hin' | simpl in H; lia].
    + intros H. destruct (List.filter clicked nodes) as [|n l] eqn:Hf; [reflexivity|].
      exfalso. assert (Hin : In n (List.filter clicked nodes)) by (rewrite Hf; now left).
      apply filter_In in Hin as [Hin Hcl]. apply (H n Hin). now apply clicked_clickable.
Qed.

Lemma countClicked_counts_witness :
  countClicked [disabledToggle] = 0%Z
  /\ countClicked [Samples.openable; disabledToggle]
     = Z.of_nat (length (filter clickable [Samples.openable; disabledToggle])).
Proof.
  split.
  - apply (proj2 (proj2 (countClicked_counts [disabledToggle]))).
    intros node [<-|[]] (_ & _ & _ & _ & _ & H). now apply H.
  - apply (proj1 (countClicked_counts [Samples.openable; disabledToggle])).
Defined.

(** One turn of a [while]. *)
Lemma while_step {S} (fuel : nat) (cond : S -> bool) (body : S -> M (step S))
  (s : S) (w : world) (st : state) :
  while (Datatypes.S fuel) cond body s w st =
  if cond s
  then match body s w st with
       | (Done (Break s'), st') => (Done s', st')
       | (Done (Continue s'), st') => while fuel cond body s' w st'
       | (Raise e, st') => (Raise e, st')
       | (OutOfFuel, st') => (OutOfFuel, st')
       end
  else (Done s, st).
Proof.
  simpl. destruct (cond s); [|reflexivity].
  unfold bind. destruct (body s w st) as [[[s'|s']|e|] st']; reflexivity.
Qed.







Lemma click_first_body_continue (iteration : Z) (w : world) (st : state)
  (nodes nodes' : list toggle) :
  togglesFound w (calls st) = inr nodes -> nodes <> [] ->
  togglesFound w (calls st ++ [Evaluate GetCollapsedCount]) = inr nodes' ->
  waitForTimeoutFails w
    (calls st ++ [Evaluate GetCollapsedCount; Evaluate ClickFirstCollapsed]) = None ->
  ClickFirst.loopBody iteration w st
  = (Done (Continue (iteration + 1)%Z), extend st clickFirstFullTurn).
Proof.
  intros Hn Hne Hn' Hw.
  unfold ClickFirst.loopBody, ClickFirst.getCollapsedCount,
    ClickFirst.clickFirstCollapsed, bind.
  rewrite evaluate_run, Hn.
  assert (Hz : (Z.of_nat (length nodes) =? 0)%Z = false)
    by (apply Z.eqb_neq; destruct nodes; [congruence | simpl; lia]).
  rewrite Hz. rewrite evaluate_run, calls_extend, Hn', extend_extend.
  unfold waitForTimeout. rewrite perform_run, calls_extend. simpl app.
  rewrite Hw, extend_extend. reflexivity.
Qed.

Lemma click_first_runs_on (w : world) :
  (forall h, exists nodes, togglesFound w h = inr nodes /\ nodes <> []) ->
  (forall h, waitForTimeoutFails w h = None) ->
  forall k iteration fuel st,
    (iteration + Z.of_nat k = ClickFirst.maxIterations)%Z ->
    k < fuel ->
    while fuel ClickFirst.loopCond ClickFirst.loopBody iteration w st
    = (Done ClickFirst.maxIterations,
       extend st (List.concat (repeat clickFirstFullTurn k))).
Proof.
  intros Hnodes Hwait. unfold ClickFirst.maxIterations.
  induction k as [|k IH]; intros iteration fuel st Hit Hf;
    (destruct fuel as [|fuel]; [lia|]); rewrite while_step.
  - replace iteration with 100%Z by lia.
    change (ClickFirst.loopCond 100) with false. simpl. now rewrite extend_nil.
  - assert (Hc : ClickFirst.loopCond iteration = true)
      by (apply Z.ltb_lt; unfold ClickFirst.maxIterations; lia).
    rewrite Hc.
    destruct (Hnodes (calls st)) as (nodes & Hn & Hne).
    destruct (Hnodes (calls st ++ [Evaluate GetCollapsedCount])) as (nodes' & Hn' & _).
    rewrite (click_first_body_continue iteration w st nodes nodes' Hn Hne Hn' (Hwait _)).
    rewrite (IH (iteration + 1)%Z fuel) by lia.
    now rewrite extend_extend.
Qed.

(** Property X13.  The click-first loop counts the collapsed toggles the
    page shows, clickable or not.  On a page that keeps showing one (a
    disabled toggle is enough) the loop runs to its cap: 100 counts, 100
    click scripts and 100 waits of 500 ms, 50 seconds in all. *)
Theorem click_first_runs_to_the_cap (w : world) (st : state) (fuel : nat) :
  (forall h, exists nodes, togglesFound w h = inr nodes /\ nodes <> []) ->
  (forall h, waitForTimeoutFails w h = None) ->
  Z.to_nat ClickFirst.maxIterations < fuel ->
  exists evs,
    ClickFirst.expandToggles fuel w st = (Done tt, extend st evs)
    /\ evs = List.concat (repeat clickFirstFullTurn 100)
    /\ occurrences (Evaluate GetCollapsedCount) evs = 100
    /\ occurrences (Evaluate ClickFirstCollapsed) evs = 100
    /\ waited evs = 50000%Z.
Proof.
  intros Hnodes Hwait Hf.
  exists (List.concat (repeat clickFirstFullTurn 100)).
  split; [|split; [reflexivity | vm_compute; auto]].
  unfold ClickFirst.expandToggles, tryCatch, bind.
  rewrite (click_first_runs_on w Hnodes Hwait 100 0%Z fuel st); [reflexivity | reflexivity |].
  exact Hf.
Qed.

Lemma click_first_runs_to_the_cap_witness :
  ~ clickable disabledToggle
  /\ exists evs,
       ClickFirst.expandToggles ClickFirst.loopFuel stuck initial
       = (Done tt, extend initial evs)
       /\ waited evs = 50000%Z.
Proof.
  split.
  - intros (_ & _ & _ & _ & _ & H). now apply H.
  - destruct (click_first_runs_to_the_cap stuck initial ClickFirst.loopFuel)
      as (evs & Hrun & _ & _ & _ & Hw).
    + intros h. exists [disabledToggle]. split; [reflexivity | discriminate].
    + intros h. reflexivity.
    + vm_compute. lia.
    + exists evs. split; assumption.
Defined.

(** ** Trimmed text *)

Section Trim.

Lemma trimStart_head (s : Js.str) (c : N) (t : Js.str) :
  Js.trimStart s = c :: t -> Js.isWhite c = false.
Proof.
  induction s as [|d s IH]; simpl; [discriminate|].
  destruct (Js.isWhite d) eqn:Hd; [exact IH|]. intros [= <- _]. exact Hd.
Qed.

Lemma trimStart_suffix (s : Js.str) : exists pre, s = pre ++ Js.trimStart s.
Proof.
  induction s as [|d s [pre IH]]; simpl; [now exists []|].
  destruct (Js.isWhite d).
  - exists (d :: pre). simpl. now rewrite <- IH.
  - now exists [].
Qed.

(** What [trim] returns neither starts nor ends with white space. *)
Lemma trim_edgeClean (s : Js.str) : edgeClean (Js.trim s).
Proof.
  unfold Js.trim, Js.trimEnd, edgeClean.
  set (u := Js.trimStart (rev (Js.trimStart s))).
  split.
  - intros c t Hrev.
    assert (Hu : u = rev t ++ [c]).
    { rewrite <- (rev_involutive u), Hrev. reflexivity. }
    destruct (trimStart_suffix (rev (Js.trimStart s))) as [pre Hpre].
    fold u in Hpre. rewrite Hu in Hpre.
    assert (Hs : Js.trimStart s = c :: rev (pre ++ rev t)).
    { rewrite <- (rev_involutive (Js.trimStart s)), Hpre, app_assoc.
      now rewrite rev_unit. }
    exact (trimStart_head s c _ Hs).
  - intros t c Hrev.
    assert (Hu : u = c :: rev t).
    { rewrite <- (rev_involutive u), Hrev. now rewrite rev_unit. }
    exact (trimStart_head _ c _ Hu).
Qed.

Lemma edgeClean_nil : edgeClean [].
Proof.
  split; [discriminate|]. intros t c H. now destruct t.
Qed.

Lemma edgeClean_check (s : Js.str) :
  match s with [] => true | c :: _ => negb (Js.isWhite c) end = true ->
  match rev s with [] => true | c :: _ => negb (Js.isWhite c) end = true ->
  edgeClean s.
Proof.
  intros Hhead Hlast. split.
  - intros c t ->. now apply negb_true_iff in Hhead.
  - intros t c ->. rewrite rev_unit in Hlast. now apply negb_true_iff in Hlast.
Qed.

End Trim.

(** ** The title *)

Section Title.

Import Dom Extractor DomFacts ExtractFacts.

Lemma matchAncestors_one (anc : list node) (c : compound) :
  matchAncestors anc [c] = existsb (fun a => matchCompound a c) anc.
Proof.
  induction anc as [|a anc IH]; simpl; [reflexivity|].
  destruct (matchCompound a c); [now destruct anc | exact IH].
Qed.

Lemma matchSimple_class (n : node) (name : Js.str) :
  matchSimple n (Class name) = true <-> hasClass name n.
Proof.
  unfold hasClass. destruct n as [d|tag attrs cs]; simpl.
  - split; [discriminate | intros (v & H & _); discriminate].
  - destruct (lookupAttr (js"class") attrs) as [v|].
    + rewrite existsb_exists. split.
      * intros (t & Hin & Heq). apply eqb_true in Heq. subst t. eauto.
      * intros (v' & [= <-] & Hin). exists name. split; [exact Hin | now apply eqb_true].
    + split; [discriminate | intros (v & H & _); discriminate].
Qed.

(** What the title selector matches. *)
Lemma matches_title (h : handle) :
  matches titleSelector h = true <-> isTitleElement h.
Proof.
  unfold matches, matchSelector, titleSelector, isTitleElement.
  cbn [existsb]. rewrite orb_false_r, orb_true_iff, matchComplex_single.
  unfold matchComplex. cbn [rev app]. rewrite andb_true_iff, matchAncestors_one.
  unfold matchCompound. cbn [forallb]. rewrite !andb_true_r.
  rewrite matchSimple_class, existsb_exists.
  assert (Hleaf : matchSimple (hnode h) (AttrIs (js"data-content-editable-leaf") (js"true"))
                  = true
                  <-> getAttribute (hnode h) (js"data-content-editable-leaf")
                      = Some (js"true")).
  { destruct (hnode h) as [d|tag attrs cs]; simpl; [split; discriminate|].
    destruct (lookupAttr (js"data-content-editable-leaf") attrs) as [v|];
      [|split; discriminate].
    rewrite eqb_true. split; congruence. }
  rewrite Hleaf. split.
  - intros [[Hc (a & Hin & Ha)]|Hl]; [left|now right].
    split; [exact Hc|]. apply in_map_iff in Hin as (a' & <- & Hin).
    exists a'. split; [exact Hin|]. rewrite andb_true_r in Ha.
    now apply matchSimple_class.
  - intros [[Hc (a & Hin & Ha)]|Hl]; [left|now right].
    split; [exact Hc|]. exists (snd a). split; [now apply in_map|].
    rewrite andb_true_r. now apply matchSimple_class.
Qed.

End Title.

(** Property X14.  The title is never empty and never starts or ends with
    white space.  On a page without any title element it is "Untitled".
    The three extraction scripts return it as it is, with or without a
    content root. *)
Theorem title_never_empty (doc : Dom.document) :
  Extractor.computeTitle doc <> []
  /\ edgeClean (Extractor.computeTitle doc)
  /\ ((forall h, In h (Dom.elements doc) -> ~ isTitleElement h) ->
      Extractor.computeTitle doc = js"Untitled")
  /\ title (ExtractTopLevel.extract doc) = Extractor.computeTitle doc
  /\ title (ExtractDirect.extract doc) = Extractor.computeTitle doc
  /\ title (ExtractNaive.extract doc) = Extractor.computeTitle doc.
Proof.
  assert (Hclean : edgeClean (js"Untitled")) by (apply edgeClean_check; reflexivity).
  split; [|split; [|split; [|split; [|split]]]].
  - unfold Extractor.computeTitle.
    destruct (Dom.docQuerySelector doc Extractor.titleSelector) as [h|]; [|discriminate].
    destruct (Js.trim (Dom.textContent (Dom.hnode h))) as [|c t] eqn:Ht; discriminate.
  - unfold Extractor.computeTitle.
    destruct (Dom.docQuerySelector doc Extractor.titleSelector) as [h|]; [|exact Hclean].
    pose proof (trim_edgeClean (Dom.textContent (Dom.hnode h))) as Htrim.
    destruct (Js.trim (Dom.textContent (Dom.hnode h))) as [|c t]; [exact Hclean|].
    exact Htrim.
  - intros Hnone. unfold Extractor.computeTitle, Dom.docQuerySelector.
    destruct (List.find (Dom.matches Extractor.titleSelector) (Dom.elements doc))
      as [h|] eqn:Hfind; [|reflexivity].
    apply find_some in Hfind as [Hin Hm]. apply matches_title in Hm.
    now elim (Hnone h Hin).
  - unfold ExtractTopLevel.extract. now destruct (Extractor.contentRoot doc).
  - unfold ExtractDirect.extract. now destruct (Extractor.contentRoot doc).
  - unfold ExtractNaive.extract. now destruct (Extractor.contentRoot doc).
Qed.

Lemma title_never_empty_witness : Extractor.computeTitle Samples.bare = js"Untitled".
Proof.
  apply (proj1 (proj2 (proj2 (title_never_empty Samples.bare)))).
  intros h Hin Htitle. vm_compute in Hin.
  destruct Hin as [<-|[<-|[]]];
    destruct Htitle as [[(v & Hv & _) _]|Hleaf]; vm_compute in *; discriminate.
Defined.

(** ** The entries of the content *)

Section Entries.

Import Dom Extractor DomFacts ExtractFacts CollectFacts.

Lemma getDirectText_trim (b : handle) :
  ExtractDirect.getDirectText b = Js.trim (textContent (directClone b)).
Proof.
  unfold ExtractDirect.getDirectText, directClone.
  now destruct (Js.trim _).
Qed.

Lemma keepFirst_snoc (l : list Js.str) (t : Js.str) :
  keepFirst (l ++ [t]) = if in_dec strDec t l then keepFirst l else keepFirst l ++ [t].
Proof.
  unfold keepFirst. rewrite rev_unit. cbn [nodup].
  destruct (in_dec strDec t (rev l)) as [Hin|Hin];
    destruct (in_dec strDec t l) as [Hin'|Hin']; try reflexivity.
  - elim Hin'. now apply in_rev.
  - elim Hin. now apply in_rev in Hin'.
Qed.

Lemma keepFirst_In (l : list Js.str) (t : Js.str) : In t (keepFirst l) <-> In t l.
Proof. unfold keepFirst. now rewrite <- in_rev, nodup_In, <- in_rev. Qed.

Lemma filter_snoc {A} (f : A -> bool) (l : list A) (x : A) :
  List.filter f (l ++ [x]) = List.filter f l ++ (if f x then [x] else []).
Proof. rewrite List.filter_app. reflexivity. Qed.

Lemma nodup_length_le (l : list Js.str) : length (nodup strDec l) <= length l.
Proof.
  induction l as [|x l IH]; simpl; [lia|].
  destruct (in_dec strDec x l); simpl; lia.
Qed.

(** The loop of the de-duplicating revision, as a function of the texts. *)
Lemma dedup_collect_keeps_first (l : list handle) :
  exists seen,
    ExtractDirect.collect l
    = (keepFirst (List.filter Js.truthy (List.map ExtractDirect.getDirectText l)), seen)
    /\ tracks seen
         (keepFirst (List.filter Js.truthy (List.map ExtractDirect.getDirectText l))).
Proof.
  unfold ExtractDirect.collect.
  induction l as [|b l IH] using rev_ind.
  - exists ∅. split; [reflexivity|]. intros t. rewrite elem_of_empty. simpl. tauto.
  - destruct IH as (seen & Hfold & Htr).
    rewrite fold_left_app, Hfold, map_app. cbn [fold_left List.map]. rewrite filter_snoc.
    unfold ExtractDirect.visit.
    set (text := ExtractDirect.getDirectText b).
    set (F := List.filter Js.truthy (List.map ExtractDirect.getDirectText l)) in *.
    destruct text as [|c text'] eqn:Ht.
    + simpl. rewrite app_nil_r. exists seen. auto.
    + cbn [Js.truthy length Nat.ltb Nat.leb andb]. rewrite keepFirst_snoc.
      destruct (in_dec strDec (c :: text') F) as [Hin|Hin].
      * rewrite bool_decide_eq_true_2
          by (apply (proj2 (Htr _)); now apply (proj2 (keepFirst_In _ _))).
        exists seen. auto.
      * rewrite bool_decide_eq_false_2
          by (intros Hs; apply (proj1 (Htr _)) in Hs;
              apply (proj1 (keepFirst_In _ _)) in Hs; exact (Hin Hs)).
        cbn [negb]. eexists. split; [reflexivity|].
        intros t. rewrite elem_of_union, elem_of_singleton, in_app_iff, (Htr t).
        simpl. intuition congruence.
Qed.

End Entries.

(** Property X15.  In the de-duplicating revision the entries of [content]
    are the non-empty direct texts of the blocks, each kept at its first
    occurrence and dropped at every later one, in document order. *)
Theorem dedup_keeps_first_occurrences (doc : Dom.document) (root : Dom.handle) :
  Extractor.contentRoot doc = Some root ->
  let texts := List.map ExtractDirect.getDirectText (Extractor.allBlocksOf root) in
  ExtractDirect.contentParts root = keepFirst (List.filter Js.truthy texts)
  /\ content (ExtractDirect.extract doc)
     = Js.join Extractor.blankLine (keepFirst (List.filter Js.truthy texts))
  /\ List.NoDup (ExtractDirect.contentParts root)
  /\ length (ExtractDirect.contentParts root) <= length (Extractor.allBlocksOf root).
Proof.
  intros Hroot texts.
  destruct (dedup_collect_keeps_first (Extractor.allBlocksOf root)) as (seen & Hc & _).
  assert (Hparts : ExtractDirect.contentParts root = keepFirst (List.filter Js.truthy texts)).
  { unfold ExtractDirect.contentParts. now rewrite Hc. }
  split; [exact Hparts|]. split; [|split].
  - rewrite (direct_content doc root Hroot). now rewrite Hparts.
  - rewrite Hparts. unfold keepFirst. apply List.NoDup_rev, List.NoDup_nodup.
  - rewrite Hparts. unfold keepFirst. rewrite length_rev.
    pose proof (nodup_length_le (rev (List.filter Js.truthy texts))) as H1.
    pose proof (filter_length_le Js.truthy texts) as H2.
    rewrite length_rev in H1. unfold texts in *. rewrite length_map in H2. lia.
Qed.

Lemma dedup_keeps_first_occurrences_witness :
  ExtractDirect.contentParts (Samples.rootOf Samples.twins) = [js"N/A"].
Proof.
  refine (proj1 (dedup_keeps_first_occurrences Samples.twins
                   (Samples.rootOf Samples.twins) _)).
  vm_compute. reflexivity.
Defined.

(** Property X16.  In the three revisions no entry of [content] is empty
    and none starts or ends with white space. *)
Theorem entries_are_trimmed (root : Dom.handle) (t : Js.str) :
  In t (ExtractTopLevel.contentParts root)
  \/ In t (ExtractDirect.contentParts root)
  \/ In t (ExtractNaive.contentParts root) ->
  t <> [] /\ edgeClean t.
Proof.
  intros [Hin|[Hin|Hin]].
  - unfold ExtractTopLevel.contentParts in Hin.
    rewrite CollectFacts.main_collect in Hin.
    apply filter_In in Hin as [Hin Hkeep].
    apply in_map_iff in Hin as (b & <- & _).
    split; [now apply CollectFacts.keepText_spec|].
    unfold ExtractTopLevel.blockText. apply trim_edgeClean.
  - unfold ExtractDirect.contentParts in Hin.
    apply (proj2 (CollectFacts.dedup_collect _)) in Hin as [Hne Hin].
    split; [exact Hne|].
    apply in_map_iff in Hin as (b & <- & _).
    rewrite getDirectText_trim. apply trim_edgeClean.
  - unfold ExtractNaive.contentParts in Hin.
    rewrite CollectFacts.naive_collect in Hin.
    apply filter_In in Hin as [Hin Hkeep].
    apply in_map_iff in Hin as (b & <- & _).
    split; [now apply CollectFacts.keepText_spec|].
    unfold ExtractNaive.blockText. apply trim_edgeClean.
Qed.

Lemma entries_are_trimmed_witness : js"one" <> [] /\ edgeClean (js"one").
Proof.
  apply (entries_are_trimmed (Samples.rootOf Samples.plain)).
  left. vm_compute. left. reflexivity.
Defined.

(** ** What is left of a clone *)

Section Clones.

Import Dom Extractor DomFacts ExtractFacts.

Lemma blockSelector_isBlock (anc : list node) (n : node) :
  matchSelector anc n blockSelector = isBlock n.
Proof.
  unfold matchSelector, blockSelector, isBlock. simpl.
  rewrite matchComplex_single. unfold matchCompound. simpl.
  rewrite andb_true_r, orb_false_r. now destruct n.
Qed.

Lemma mediaSelector_isMedia (anc : list node) (n : node) :
  matchSelector anc n mediaSelector = isMediaElement n.
Proof.
  unfold matchSelector, mediaSelector, isMediaElement, mediaTags. simpl.
  rewrite !matchComplex_single. unfold matchCompound. simpl.
  destruct n as [d|tag attrs cs]; [reflexivity|]. simpl.
  now rewrite !andb_true_r.
Qed.

Lemma isBlock_shallow : shallow isBlock.
Proof. intros tag attrs cs cs'. reflexivity. Qed.

Lemma isMediaElement_shallow : shallow isMediaElement.
Proof. intros tag attrs cs cs'. reflexivity. Qed.

Lemma removeAll_same_test (f : node -> bool) (sel : selector) (anc : list node)
  (n : node) :
  shallow f -> isElem (removeAll sel anc n) && f (removeAll sel anc n) = isElem n && f n.
Proof.
  intros Hf. destruct n as [d|tag attrs cs]; [reflexivity|].
  rewrite removeAll_Elem. simpl. apply Hf.
Qed.

(** Removing the matches of [sel] leaves no element that passes the test
    of [sel], and brings in no element that passes another test. *)
Lemma removeAll_clears (f : node -> bool) (sel : selector) (n : node) :
  shallow f -> (forall anc m, matchSelector anc m sel = f m) ->
  forall anc, anyBelow f (removeAll sel anc n) = false.
Proof.
  intros Hf Hsel.
  induction n as [d|tag attrs cs IH] using node_induction; intros anc; [reflexivity|].
  rewrite removeAll_Elem. simpl.
  generalize (Elem tag attrs cs :: anc) as A.
  induction IH as [|c cs Hc _ IHcs]; intros A; simpl; [reflexivity|].
  rewrite Hsel. destruct (isElem c && f c) eqn:Hhere; [apply IHcs|].
  simpl. now rewrite (removeAll_same_test f sel A c Hf), Hhere, Hc, IHcs.
Qed.

Lemma removeAll_keeps_clear (g : node -> bool) (sel : selector) (n : node) :
  shallow g ->
  forall anc, anyBelow g n = false -> anyBelow g (removeAll sel anc n) = false.
Proof.
  intros Hg.
  induction n as [d|tag attrs cs IH] using node_induction; intros anc Hclear;
    [reflexivity|].
  rewrite removeAll_Elem. simpl in *.
  revert Hclear. generalize (Elem tag attrs cs :: anc) as A.
  induction IH as [|c cs Hc _ IHcs]; intros A Hclear; simpl in *; [reflexivity|].
  apply orb_false_elim in Hclear as [Hhere Hrest].
  apply orb_false_elim in Hhere as [Hself Hbelow].
  destruct (isElem c && matchSelector A c sel); [now apply IHcs|].
  simpl. now rewrite (removeAll_same_test g sel A c Hg), Hself, Hc, IHcs.
Qed.

End Clones.

Section CloneText.

Import Dom Extractor DomFacts ExtractFacts.

Lemma textOutside_ext (f g : node -> bool) :
  (forall m, f m = g m) -> forall n, textOutside f n = textOutside g n.
Proof.
  intros Hfg. induction n as [d|tag attrs cs IH] using node_induction; [reflexivity|].
  simpl. f_equal. induction IH as [|c cs Hc _ IHcs]; [reflexivity|].
  simpl. now rewrite Hfg, Hc, IHcs.
Qed.

Lemma textOutside_nothing (n : node) : textOutside (fun _ => false) n = textContent n.
Proof.
  induction n as [d|tag attrs cs IH] using node_induction; [reflexivity|].
  simpl. f_equal. induction IH as [|c cs Hc _ IHcs]; [reflexivity|].
  simpl. now rewrite andb_false_r, Hc, IHcs.
Qed.

(** Without any element to leave out, the text is all there. *)
Lemma textOutside_clear (f : node -> bool) (n : node) :
  anyBelow f n = false -> textOutside f n = textContent n.
Proof.
  induction n as [d|tag attrs cs IH] using node_induction; [reflexivity|].
  simpl. intros Hclear. f_equal.
  induction IH as [|c cs Hc _ IHcs]; [reflexivity|].
  simpl in Hclear. apply orb_false_elim in Hclear as [Hhere Hrest].
  apply orb_false_elim in Hhere as [Hself Hbelow].
  simpl. now rewrite Hself, Hc, IHcs.
Qed.

(** Removing the elements that pass [f], then reading the text outside
    the elements that pass [g], reads the text outside both. *)
Lemma textOutside_removeAll (f g : node -> bool) (sel : selector) (n : node) :
  shallow g -> (forall anc m, matchSelector anc m sel = f m) ->
  forall anc,
    textOutside g (removeAll sel anc n) = textOutside (fun m => f m || g m) n.
Proof.
  intros Hg Hsel.
  induction n as [d|tag attrs cs IH] using node_induction; intros anc; [reflexivity|].
  rewrite removeAll_Elem. simpl.
  generalize (Elem tag attrs cs :: anc) as A.
  induction IH as [|c cs Hc _ IHcs]; intros A; simpl; [reflexivity|].
  rewrite Hsel. destruct (isElem c && f c) eqn:Hhere.
  - assert (H : isElem c && (f c || g c) = true)
      by (destruct (isElem c), (f c); simpl in *; congruence).
    rewrite H. simpl. apply IHcs.
  - simpl. rewrite (removeAll_same_test g sel A c Hg), Hc, IHcs.
    assert (H : isElem c && (f c || g c) = isElem c && g c)
      by (destruct (isElem c), (f c); simpl in *; congruence).
    now rewrite H.
Qed.

Lemma strippedClone_text (b : handle) :
  textContent (strippedClone b) = textOutside isMediaElement (hnode b).
Proof.
  unfold strippedClone, cloneNode. rewrite <- textOutside_nothing.
  rewrite (textOutside_removeAll isMediaElement (fun _ => false) mediaSelector);
    [|intros tag attrs cs cs'; reflexivity | apply mediaSelector_isMedia].
  apply textOutside_ext. intros m. apply orb_false_r.
Qed.

Lemma directClone_text (b : handle) :
  textContent (directClone b) = textOutside isBlockOrMedia (hnode b).
Proof.
  unfold directClone, cloneNode. rewrite <- textOutside_nothing.
  rewrite (textOutside_removeAll isMediaElement (fun _ => false) mediaSelector);
    [|intros tag attrs cs cs'; reflexivity | apply mediaSelector_isMedia].
  rewrite (textOutside_ext (fun m => isMediaElement m || false) isMediaElement)
    by (intros m; apply orb_false_r).
  rewrite (textOutside_removeAll isBlock isMediaElement blockSelector);
    [|apply isMediaElement_shallow | apply blockSelector_isBlock].
  reflexivity.
Qed.

End CloneText.

(** Property X17.  The text of a block is the trimmed text of its text
    nodes, in document order, that lie in no [img], [svg], [video],
    [audio] or [iframe] element of the block ([src/index.ts]); in the
    de-duplicating revision, of those that lie in no such element and in
    no nested block either.  The text outside these elements is kept as
    it is: a block without any of them yields its trimmed text
    content.  The clones the text is read from hold no media element
    (and, in the de-duplicating revision, no nested block) any more. *)
Theorem clones_are_stripped (blockElement : Dom.handle) :
  ExtractTopLevel.blockText blockElement
    = Js.trim (textOutside isMediaElement (Dom.hnode blockElement))
  /\ ExtractDirect.getDirectText blockElement
    = Js.trim (textOutside isBlockOrMedia (Dom.hnode blockElement))
  /\ (Markers.anyBelow isMediaElement (Dom.hnode blockElement) = false ->
      ExtractTopLevel.blockText blockElement = trimmedText blockElement)
  /\ (Markers.anyBelow isBlockOrMedia (Dom.hnode blockElement) = false ->
      ExtractDirect.getDirectText blockElement = trimmedText blockElement)
  /\ Markers.anyBelow isMediaElement (strippedClone blockElement) = false
  /\ Markers.anyBelow isMediaElement (directClone blockElement) = false
  /\ Markers.anyBelow isBlock (directClone blockElement) = false.
Proof.
  assert (H1 : ExtractTopLevel.blockText blockElement
               = Js.trim (textOutside isMediaElement (Dom.hnode blockElement))).
  { unfold ExtractTopLevel.blockText. fold (strippedClone blockElement).
    now rewrite strippedClone_text. }
  assert (H2 : ExtractDirect.getDirectText blockElement
               = Js.trim (textOutside isBlockOrMedia (Dom.hnode blockElement))).
  { now rewrite getDirectText_trim, directClone_text. }
  split; [exact H1|]. split; [exact H2|].
  split; [intros H; rewrite H1; unfold trimmedText; now rewrite textOutside_clear|].
  split; [intros H; rewrite H2; unfold trimmedText; now rewrite textOutside_clear|].
  split; [|split].
  - apply removeAll_clears; [apply isMediaElement_shallow | apply mediaSelector_isMedia].
  - apply removeAll_clears; [apply isMediaElement_shallow | apply mediaSelector_isMedia].
  - apply removeAll_keeps_clear; [apply isBlock_shallow|].
    apply removeAll_clears; [apply isBlock_shallow | apply blockSelector_isBlock].
Qed.

Lemma clones_are_stripped_witness :
  ExtractTopLevel.blockText (Samples.blockAt Samples.plain 0) = js"one"
  /\ ExtractTopLevel.blockText (Samples.blockAt Samples.withMedia 1) = js"a song"
  /\ ExtractDirect.getDirectText (Samples.blockAt nestedPage 0) = js"outer".
Proof.
  split; [|split].
  - rewrite (proj1 (proj2 (proj2 (clones_are_stripped (Samples.blockAt Samples.plain 0)))));
      vm_compute; reflexivity.
  - rewrite (proj1 (clones_are_stripped (Samples.blockAt Samples.withMedia 1))).
    vm_compute. reflexivity.
  - rewrite (proj1 (proj2 (clones_are_stripped (Samples.blockAt nestedPage 0)))).
    vm_compute. reflexivity.
Defined.

(** ** Nested blocks in [src/index.ts] *)

Section Nesting.

Import Dom Extractor DomFacts ExtractFacts.

(** The ancestors recorded on the way down are themselves located, each
    with the part of the path that leads to it. *)
Lemma locate_ancestors (s : list nat) :
  forall anc p n h,
    locate anc p n s = Some h ->
    exists mid,
      hanc h = mid ++ anc
      /\ length mid = length s
      /\ forall l1 q m l2,
           mid = l1 ++ (q, m) :: l2 ->
           exists s1 s2,
             s = s1 ++ s2 /\ length s1 = length l2
             /\ locate anc p n s1 = Some (Handle q (l2 ++ anc) m).
Proof.
  induction s as [|i s IH]; intros anc p n h; simpl.
  - destruct (isElem n); [|discriminate]. intros [= <-]. exists []. simpl.
    split; [reflexivity|]. split; [reflexivity|].
    intros l1 q m l2 H. now destruct l1.
  - destruct (nth_error (children n) i) as [c|] eqn:Hi; [|discriminate].
    intros Hloc. destruct (IH _ _ _ _ Hloc) as (mid & Hanc & Hlen & Hmid).
    assert (Hn : isElem n = true) by (destruct n; [now destruct i | reflexivity]).
    exists (mid ++ [(p, n)]). split; [now rewrite Hanc, <- app_assoc|].
    split; [rewrite length_app; simpl; lia|].
    intros l1 q m l2 Hsplit.
    destruct l2 as [|x l2] using rev_ind.
    + apply app_inj_tail in Hsplit as [_ [= <- <-]].
      exists [], (i :: s). simpl. rewrite Hn. auto.
    + clear IHl2.
      change (l1 ++ (q, m) :: l2 ++ [x]) with (l1 ++ ((q, m) :: l2) ++ [x]) in Hsplit.
      rewrite app_assoc in Hsplit. apply app_inj_tail in Hsplit as [Hmid' <-].
      destruct (Hmid l1 q m l2 Hmid') as (s1 & s2 & -> & Hl & Hs1).
      exists (i :: s1), s2. split; [reflexivity|].
      split; [rewrite length_app; simpl; lia|].
      simpl. rewrite Hi, Hs1. now rewrite <- app_assoc.
Qed.

Lemma closestIn_some (anc : list (list nat * node)) (sel : selector) (h : handle) :
  closestIn anc sel = Some h ->
  (exists l1, anc = l1 ++ (hpath h, hnode h) :: hanc h)
  /\ matches sel h = true.
Proof.
  induction anc as [|[q m] anc IH]; simpl; [discriminate|].
  destruct (matchSelector (List.map snd anc) m sel) eqn:Hm.
  - intros [= <-]. split; [now exists [] | exact Hm].
  - intros H. destruct (IH H) as [[l1 ->] Hmatch].
    split; [now exists ((q, m) :: l1) | exact Hmatch].
Qed.

Lemma closestIn_hit (sel : selector) (l1 : list (list nat * node)) (q : list nat)
  (m : node) (rest : list (list nat * node)) :
  matchSelector (List.map snd rest) m sel = true ->
  exists h l1a l1b,
    closestIn (l1 ++ (q, m) :: rest) sel = Some h
    /\ l1 ++ [(q, m)] = l1a ++ (hpath h, hnode h) :: l1b
    /\ hanc h = l1b ++ rest.
Proof.
  intros Hm. induction l1 as [|[q0 m0] l1 IH]; simpl.
  - rewrite Hm. exists (Handle q rest m), [], []. auto.
  - destruct (matchSelector (List.map snd (l1 ++ (q, m) :: rest)) m0 sel).
    + exists (Handle q0 (l1 ++ (q, m) :: rest) m0), [], (l1 ++ [(q, m)]).
      simpl. now rewrite <- app_assoc.
    + destruct IH as (h & l1a & l1b & Hc & Hsplit & Hanc).
      exists h, ((q0, m0) :: l1a), l1b. simpl. now rewrite Hsplit.
Qed.

(** The nearest block above a block that lies below a block of the root
    is itself a block of the root. *)
Lemma nested_parent_found (root a b : handle) :
  In a (allBlocksOf root) -> In b (descendants a) ->
  exists parent,
    parentClosest b blockSelector = Some parent /\ In parent (allBlocksOf root).
Proof.
  intros Ha Hb.
  apply filter_In in Ha as [Ha Hma].
  apply in_descendants in Ha as (i & sa & Hla).
  apply in_descendants in Hb as (j & t & Hlb).
  (* the ancestors of [b], seen from [a] *)
  destruct (locate_ancestors _ _ _ _ _ Hlb) as (midA & HancA & HlenA & HmidA).
  destruct midA as [|x midA] using rev_ind; [discriminate|]. clear IHmidA.
  destruct x as [qa ma].
  destruct (HmidA midA qa ma [] eq_refl) as (s1 & s2 & _ & Hl1 & Hs1).
  destruct s1; [|discriminate]. simpl in Hs1.
  assert (Hea : isElem (hnode a) = true) by exact (locate_isElem _ _ _ _ _ Hla).
  rewrite Hea in Hs1. injection Hs1 as <- <-.
  rewrite <- app_assoc in HancA. simpl in HancA.
  (* the nearest block above [b] *)
  destruct (closestIn_hit blockSelector midA (hpath a) (hnode a) (hanc a) Hma)
    as (parent & l1a & l1b & Hclosest & Hsplit & HancP).
  exists parent. unfold parentClosest. rewrite HancA. split; [exact Hclosest|].
  rewrite <- HancA in Hclosest.
  apply closestIn_some in Hclosest as [_ Hmp].
  apply filter_In. split; [|exact Hmp].
  (* the ancestors of [a] and of [b], seen from the root *)
  destruct (locate_ancestors _ _ _ _ _ Hla) as (midRA & HancRA & HlenRA & _).
  assert (Hlb' : locate (hanc root) (hpath root) (hnode root) ((i :: sa) ++ j :: t)
                 = Some b) by (now rewrite locate_app, Hla).
  destruct (locate_ancestors _ _ _ _ _ Hlb') as (midR & HancR & _ & HmidR).
  assert (HmidR' : midR = l1a ++ (hpath parent, hnode parent) :: (l1b ++ midRA)).
  { apply (app_inv_tail (hanc root)).
    rewrite <- HancR, HancA, HancRA.
    change (midA ++ (hpath a, hnode a) :: midRA ++ hanc root)
      with (midA ++ [(hpath a, hnode a)] ++ midRA ++ hanc root).
    rewrite (app_assoc midA), Hsplit, <- !app_assoc. simpl.
    now rewrite <- !app_assoc. }
  destruct (HmidR _ _ _ _ HmidR') as (r1 & r2 & _ & Hl & Hloc).
  rewrite <- app_assoc, <- HancRA, <- HancP in Hloc.
  destruct r1 as [|i1 r1].
  { rewrite length_app, HlenRA in Hl. simpl in Hl. lia. }
  apply in_descendants. exists i1, r1. rewrite Hloc. now destruct parent.
Qed.

End Nesting.

(** Property X18.  In [src/index.ts] a block that lies below another block
    of the content root is never top-level: it gets no entry of its own,
    its text comes with the entry of the top-level block that holds it.
    Hence there are at most as many entries as top-level blocks. *)
Theorem nested_blocks_are_not_top_level (root a b : Dom.handle) :
  In a (Extractor.allBlocksOf root) ->
  In b (Dom.descendants a) ->
  ~ In b (ExtractTopLevel.topLevelBlocks (Extractor.allBlocksOf root))
  /\ length (ExtractTopLevel.contentParts root)
     <= length (ExtractTopLevel.topLevelBlocks (Extractor.allBlocksOf root)).
Proof.
  intros Ha Hb. split.
  - intros Htop. unfold ExtractTopLevel.topLevelBlocks in Htop.
    apply filter_In in Htop as [_ Htop].
    destruct (nested_parent_found root a b Ha Hb) as (parent & Hclosest & Hin).
    unfold ExtractTopLevel.isTopLevel in Htop. rewrite Hclosest in Htop.
    apply negb_true_iff in Htop.
    assert (Hex : existsb (Dom.sameElement parent) (Extractor.allBlocksOf root) = true).
    { apply existsb_exists. exists parent. split; [exact Hin|].
      unfold Dom.sameElement. now apply bool_decide_eq_true. }
    congruence.
  - unfold ExtractTopLevel.contentParts. rewrite CollectFacts.main_collect.
    etransitivity; [apply filter_length_le|]. rewrite length_map.
    apply filter_length_le.
Qed.

Lemma nested_blocks_are_not_top_level_witness :
  ~ In (Samples.blockAt nestedPage 1)
       (ExtractTopLevel.topLevelBlocks
          (Extractor.allBlocksOf (Samples.rootOf nestedPage)))
  /\ ExtractTopLevel.contentParts (Samples.rootOf nestedPage) = [js"outer inner"].
Proof.
  split.
  - refine (proj1 (nested_blocks_are_not_top_level (Samples.rootOf nestedPage)
                     (Samples.blockAt nestedPage 0) (Samples.blockAt nestedPage 1) _ _)).
    + vm_compute. left. reflexivity.
    + vm_compute. left. reflexivity.
  - vm_compute. reflexivity.
Defined.
